(** * SCBert: the vectorization pipeline of [SCBert/SCBert.py]

    A shallow embedding of the class [Vectorizer] (tokenize, the two pooling
    helpers, the batch generator, forward_and_pool and vectorize), followed by
    the properties of the pipeline.

    Modelling conventions.
    - Python values that reach the argument checks are kept dynamically typed
      ([pyval]), because the checks are [type(x) != int] tests.
    - Exceptions are a result type; the encoder calls and [torch.save] are
      threaded through an explicit [world], which also says which saves the
      file system refuses.
    - A float32 entry of a tensor is a rational or NaN ([fl]).  Rounding and
      the infinities are outside the model: a sum, a mean or a quotient of
      the model is the real number that torch rounds to float32, and it
      stands for what torch computes only where nothing overflows; maxima
      and comparisons are exact in both.  NaN is kept because the code
      produces it (the mean of an empty span is 0/0).
    - The pretrained tokenizer and encoder are external: they are parameters of
      the definitions that call them, and so is the release of numpy, on
      which the outcome of [np.array] over lists of unequal lengths depends. *)

From Stdlib Require Import List ZArith QArith String Ascii Bool Lia.
Import ListNotations.
Local Open Scope Z_scope.
Set Warnings "-register-all".

(** ** Python values, exceptions, results *)

Inductive pyval : Type :=
| PyInt (z : Z)
| PyBool (b : bool)
| PyFloat (q : Q)
| PyStr (s : string)
| PyNone
| PyList (l : list pyval)
| PyTuple (l : list pyval).

(** [LibraryError] stands for an exception raised inside torch whose class
    differs between releases (a reduction over no element); [RuntimeError] is
    what torch raises on shapes that do not broadcast; the other three are
    the classes the source raises or that Python indexing, numpy and
    [torch.tensor] raise. *)
Inductive exn : Type :=
| TypeError | ValueError | IndexError | RuntimeError | LibraryError.

Inductive result (A : Type) : Type :=
| OK (a : A)
| Raise (e : exn).
Arguments OK {A} a.
Arguments Raise {A} e.

Definition rbind {A B} (r : result A) (k : A -> result B) : result B :=
  match r with
  | OK a => k a
  | Raise e => Raise e
  end.

Definition is_OK {A} (r : result A) : bool :=
  match r with
  | OK _ => true
  | Raise _ => false
  end.

Declare Scope py_scope.
Delimit Scope py_scope with py.
Notation "x <- r ;; k" := (rbind r (fun x => k))
  (at level 61, r at next level, right associativity) : py_scope.

(** ** Tensors *)

Inductive fl : Type := Fin (q : Q) | NaN.

(** A 2-D float tensor of shape [(length rows, cols)]: the width is carried
    along because a slice with no row still has one. *)
Record matrix : Type := Mat { cols : nat; rows : list (list fl) }.

(** What [__word_pooling] hands to the caller: a 2-D tensor, or the 1-D empty
    [torch.tensor([])] it starts from (kept only by [concat] over no layer). *)
Inductive words : Type :=
| EmptyTensor
| Words (m : matrix).

(** The objects that end up in [texts_vectors]. *)
Inductive pyobj : Type :=
| Tensor0 (x : fl)
| Tensor1 (v : list fl)
| ITensor0 (i : nat)
| ITensor1 (v : list nat)
| MaxResult (values : list fl) (indices : list nat).

(** *** Scalars *)

Definition fl_add (a b : fl) : fl :=
  match a, b with
  | Fin x, Fin y => Fin (x + y)
  | _, _ => NaN
  end.

(** [torch.max] propagates NaN; between two numbers the second is taken only
    when it is strictly greater. *)
Definition fl_max (a b : fl) : fl :=
  match a, b with
  | Fin x, Fin y => if Qlt_le_dec x y then Fin y else Fin x
  | _, _ => NaN
  end.

(** Division of an accumulated sum by a count.  At every call of the program
    with [n = 0] the sum is the empty one, so the quotient is 0/0. *)
Definition fl_div_count (a : fl) (n : nat) : fl :=
  match a, n with
  | _, O => NaN
  | Fin x, _ => Fin (x / inject_Z (Z.of_nat n))
  | NaN, _ => NaN
  end.

(** [true] when [b] replaces the running maximum [a] in a reduction: the first
    maximal value is kept, and a NaN once met stays. *)
Definition fl_replaces (a b : fl) : bool :=
  match a, b with
  | NaN, _ => false
  | Fin _, NaN => true
  | Fin x, Fin y => if Qlt_le_dec x y then true else false
  end.

(** ** Python sequence operations *)

Section PySeq.
Context {A : Type}.

(** [l[-1]] *)
Definition py_last (l : list A) : result A :=
  match rev l with
  | [] => Raise IndexError
  | x :: _ => OK x
  end.

(** [l[i]] for a non-negative [i] *)
Definition py_index (l : list A) (i : nat) : result A :=
  match nth_error l i with
  | Some x => OK x
  | None => Raise IndexError
  end.

(** [l[:k]]: a negative [k] counts from the end, and both ends are clipped. *)
Definition py_slice_to (k : Z) (l : list A) : list A :=
  if k <? 0
  then firstn (Z.to_nat (Z.of_nat (List.length l) + k)) l
  else firstn (Z.to_nat k) l.

(** [l[1:]] *)
Definition py_slice_from1 (l : list A) : list A := skipn 1 l.
End PySeq.

(** [(row == x).nonzero()]: the positions of [x] in [row], in order. *)
Fixpoint nonzero_eq (x : Z) (row : list Z) (i : nat) : list nat :=
  match row with
  | [] => []
  | y :: row' =>
      if y =? x then i :: nonzero_eq x row' (S i) else nonzero_eq x row' (S i)
  end.

(** ** Strings: [str.lower] on ASCII letters *)

Definition lower_ascii (c : ascii) : ascii :=
  let n := nat_of_ascii c in
  if (andb (65 <=? n) (n <=? 90))%nat then ascii_of_nat (n + 32) else c.

Fixpoint lower (s : string) : string :=
  match s with
  | EmptyString => EmptyString
  | String c s' => String (lower_ascii c) (lower s')
  end.

(** ** The model registry *)

Inductive family : Type := Flaubert | Camembert.

(** The keys of [MODELS], as the constructor looks them up:
    [MODELS[model_name.lower()]]; [None] stands for the KeyError. *)
Definition MODELS (name : string) : option family :=
  if (lower name =? "flaubert")%string then Some Flaubert
  else if (lower name =? "camembert")%string then Some Camembert
  else None.

(** [MODELS[name]["pad_id"]] *)
Definition pad_id (f : family) : Z :=
  match f with
  | Flaubert => 2
  | Camembert => 1
  end.

(** [MODELS[name]["model_name"]] *)
Definition model_name (f : family) : string :=
  match f with
  | Flaubert => "flaubert-base-uncased"
  | Camembert => "camembert-base"
  end.

(** The literal the last id of a row is compared with in [forward_and_pool]
    (lines 242 and 254), whatever the model family.  In the vocabulary of
    Flaubert 1 is the id of the end-of-sequence marker; for Camembert 1 is
    the pad id of [MODELS]. *)
Definition EOS_ID : Z := 1.

(** Width of the placeholders of [__word_pooling], and their number of rows. *)
Definition HIDDEN : nat := 768.
Definition PLACEHOLDER_ROWS : nat := 256.

(** ** True length of a row of ids (lines 242-245 and 254-257) *)

Definition eos_pos (pad : Z) (row : list Z) : result Z :=
  (last <- py_last row ;;
   if last =? EOS_ID then OK 0
   else (first <- py_index (nonzero_eq pad row 0) 0 ;;
         OK (Z.of_nat first)))%py.

(** ** Slicing of word vectors: [word_vector[:eos_pos-1][1:]] *)

Definition words_slice (f : list (list fl) -> list (list fl)) (w : words) : words :=
  match w with
  | EmptyTensor => EmptyTensor
  | Words m => Words (Mat (cols m) (f (rows m)))
  end.

Definition span_rows (eos : Z) (rs : list (list fl)) : list (list fl) :=
  py_slice_from1 (py_slice_to (eos - 1) rs).

Definition span (eos : Z) (w : words) : words := words_slice (span_rows eos) w.

(** ** Reductions along axis 0 *)

(** Column [j] of a list of rows. *)
Definition column (j : nat) (rs : list (list fl)) : list fl :=
  map (fun r => nth j r NaN) rs.

Definition fl_sum (xs : list fl) : fl := fold_left fl_add xs (Fin 0).

(** [torch.mean(vectors, axis=0)] on a 2-D tensor: one mean per column; over
    no row every mean is 0/0. *)
Definition mean_rows (m : matrix) : list fl :=
  map (fun j => fl_div_count (fl_sum (column j (rows m))) (List.length (rows m)))
      (seq 0 (cols m)).

(** Running maximum of a column with the position where it was first met. *)
Fixpoint max_scan (best : fl) (besti i : nat) (xs : list fl) : fl * nat :=
  match xs with
  | [] => (best, besti)
  | x :: xs' =>
      if fl_replaces best x then max_scan x i (S i) xs'
      else max_scan best besti (S i) xs'
  end.

Definition column_max (c : list fl) : fl * nat :=
  match c with
  | [] => (NaN, O)
  | x :: xs => max_scan x 0 1 xs
  end.

(** [torch.max(vectors, axis=0)] on a 2-D tensor: the pair (values, indices);
    torch refuses to reduce over no row. *)
Definition max_rows (m : matrix) : result (list fl * list nat) :=
  match rows m with
  | [] => Raise LibraryError
  | _ :: _ =>
      let per_col := map (fun j => column_max (column j (rows m))) (seq 0 (cols m)) in
      OK (map fst per_col, map snd per_col)
  end.

(** ** [__sentence_pooling] (lines 102-125) *)

Definition sentence_pooling (vectors : words) (pooling_method : string)
  : result pyobj :=
  if (lower pooling_method =? "average")%string then
    match vectors with
    | EmptyTensor => OK (Tensor0 NaN)
    | Words m => OK (Tensor1 (mean_rows m))
    end
  else if (lower pooling_method =? "max")%string then
    match vectors with
    | EmptyTensor => Raise LibraryError
    | Words m =>
        (vi <- max_rows m ;; OK (MaxResult (fst vi) (snd vi)))%py
    end
  else OK (Tensor1 []).

(** ** Elementwise operations with broadcasting *)

Definition broadcast_dim (a b : nat) : result nat :=
  if (a =? b)%nat then OK a
  else if (a =? 1)%nat then OK b
  else if (b =? 1)%nat then OK a
  else Raise RuntimeError.

Definition expand {A : Type} (n : nat) (l : list A) : list A :=
  match l with
  | [x] => repeat x n
  | _ => l
  end.

Definition zip_with {A B C : Type} (f : A -> B -> C) (la : list A) (lb : list B)
  : list C :=
  map (fun ab => f (fst ab) (snd ab)) (combine la lb).

(** [f] applied entry by entry to two 2-D tensors, after torch's broadcasting
    of size-1 dimensions. *)
Definition elementwise (f : fl -> fl -> fl) (a b : matrix) : result matrix :=
  (r <- broadcast_dim (List.length (rows a)) (List.length (rows b)) ;;
   c <- broadcast_dim (cols a) (cols b) ;;
   OK (Mat c (zip_with (fun ra rb => zip_with f (expand c ra) (expand c rb))
                       (expand r (rows a)) (expand r (rows b)))))%py.

(** [tensor / n] *)
Definition divide_by (n : nat) (m : matrix) : matrix :=
  Mat (cols m) (map (map (fun x => fl_div_count x n)) (rows m)).

(** [torch.cat((a, b), dim=1)]: a 1-D empty tensor is skipped, two 2-D tensors
    need the same number of rows. *)
Definition cat1 (a : words) (b : matrix) : result words :=
  match a with
  | EmptyTensor => OK (Words b)
  | Words m =>
      if (List.length (rows m) =? List.length (rows b))%nat
      then OK (Words (Mat (cols m + cols b) (zip_with (@app fl) (rows m) (rows b))))
      else Raise RuntimeError
  end.

(** [torch.tensor([[x for i in range(768)] for j in range(256)])] *)
Definition placeholder (x : fl) : matrix :=
  Mat HIDDEN (repeat (repeat x HIDDEN) PLACEHOLDER_ROWS).

(** ** [__word_pooling] (lines 127-159) *)

(** The hidden states of one batch: [encoded_layers_b[layer][idx]] is the 2-D
    tensor of document [idx] of the batch at layer [layer]. *)
Definition hidden_states : Type := list (list matrix).

Definition layer_doc (enc : hidden_states) (layer idx : nat) : result matrix :=
  (l <- py_index enc layer ;; py_index l idx)%py.

Fixpoint pool_concat (enc : hidden_states) (layers : list nat) (idx : nat)
    (pooled : words) : result words :=
  match layers with
  | [] => OK pooled
  | layer :: rest =>
      (x <- layer_doc enc layer idx ;;
       pooled' <- cat1 pooled x ;;
       pool_concat enc rest idx pooled')%py
  end.

Fixpoint pool_accumulate (f : fl -> fl -> fl) (enc : hidden_states)
    (layers : list nat) (idx : nat) (pooled : matrix) : result matrix :=
  match layers with
  | [] => OK pooled
  | layer :: rest =>
      (x <- layer_doc enc layer idx ;;
       pooled' <- elementwise f pooled x ;;
       pool_accumulate f enc rest idx pooled')%py
  end.

Definition word_pooling (enc : hidden_states) (layers : list nat) (idx : nat)
    (pooling_method : string) : result words :=
  (pooled <- (if (lower pooling_method =? "concat")%string
              then pool_concat enc layers idx EmptyTensor
              else OK EmptyTensor) ;;
   if (lower pooling_method =? "average")%string then
     (acc <- pool_accumulate fl_add enc layers idx (placeholder (Fin 0)) ;;
      OK (Words (divide_by (List.length layers) acc)))
   else if (lower pooling_method =? "max")%string then
     (acc <- pool_accumulate fl_max enc layers idx (placeholder (Fin (-100))) ;;
      OK (Words acc))
   else OK pooled)%py.

(** ** [__batch] (lines 161-164) *)

(** The values of [range(0, l, n)] for a positive step. *)
Definition range_step (l n : nat) : list nat :=
  map (fun k => (k * n)%nat) (seq 0 ((l + n - 1) / n)).

(** [list(self.__batch(range(0, l), n))]: each element is the slice
    [range(0, l)[ndx : min(ndx + n, l)]]. *)
Definition batch (l n : nat) : list (list nat) :=
  map (fun ndx => seq ndx (Nat.min (ndx + n) l - ndx)) (range_step l n).

(** ** Argument checks of [forward_and_pool] (lines 202-230) *)

(** What the checks let through, with the Python values given their types.
    [cfg_layers] is [inl L] for an int and [inr ls] for a list: the second case
    is the one where the source sets [layer_list = True]. *)
Record config : Type := Config {
  cfg_sentence : string;
  cfg_word : string;
  cfg_layers : nat + list nat;
  cfg_batch_size : nat;
  cfg_path : option string
}.

(** [x not in options] for a list of string literals *)
Definition check_choice (x : pyval) (options : list string) : result string :=
  match x with
  | PyStr s => if existsb (String.eqb s) options then OK s else Raise ValueError
  | _ => Raise ValueError
  end.

Definition check_batch_size (x : pyval) : result nat :=
  match x with
  | PyInt z => if z <=? 0 then Raise ValueError else OK (Z.to_nat z)
  | _ => Raise TypeError
  end.

Definition check_path (x : pyval) : result (option string) :=
  match x with
  | PyStr s => OK (Some s)
  | PyNone => OK None
  | _ => Raise TypeError
  end.

(** The loop [for el in layers] of lines 221-225 *)
Fixpoint check_layer_list (l : list pyval) : result (list nat) :=
  match l with
  | [] => OK []
  | PyInt z :: rest =>
      if orb (12 <? z) (z <? 1) then Raise ValueError
      else (ls <- check_layer_list rest ;; OK (Z.to_nat z :: ls))%py
  | _ :: _ => Raise TypeError
  end.

Definition check_layers (x : pyval) : result (nat + list nat) :=
  match x with
  | PyInt z => if orb (12 <? z) (z <? 1) then Raise ValueError else OK (inl (Z.to_nat z))
  | PyList l => (ls <- check_layer_list l ;; OK (inr ls))%py
  | _ => Raise TypeError
  end.

Definition validate (sentence_pooling_method word_pooling_method layers
                     batch_size path_to_save : pyval) : result config :=
  (s <- check_choice sentence_pooling_method ["average"; "max"]%string ;;
   w <- check_choice word_pooling_method ["average"; "max"; "concat"]%string ;;
   n <- check_batch_size batch_size ;;
   p <- check_path path_to_save ;;
   ls <- check_layers layers ;;
   OK (Config s w ls n p))%py.

(** ** Effects: encoder calls and the saved artifact *)

(** [saved] lists the artifacts written in full, the oldest first.
    [save_error] is the file system as [torch.save] meets it: the exception
    it raises for a file name and an object (a directory that does not
    exist, an object that cannot be pickled), if any. *)
Record world : Type := MkWorld {
  inference_calls : nat;
  saved : list (string * list pyobj);
  save_error : string -> list pyobj -> option exn
}.

(** A world where every save goes through. *)
Definition World (calls : nat) (artifacts : list (string * list pyobj)) : world :=
  MkWorld calls artifacts (fun _ _ => None).

Definition initial_world : world := World 0 [].

Definition M (A : Type) : Type := world -> result A * world.

Definition ret {A} (a : A) : M A := fun w => (OK a, w).

Definition bind {A B} (m : M A) (k : A -> M B) : M B :=
  fun w =>
    match m w with
    | (OK a, w') => k a w'
    | (Raise e, w') => (Raise e, w')
    end.

Definition lift {A} (r : result A) : M A := fun w => (r, w).

Declare Scope world_scope.
Delimit Scope world_scope with world.
Notation "x <- m ;; k" := (bind m (fun x => k))
  (at level 61, m at next level, right associativity) : world_scope.

(** [torch.save(texts_vectors, path)]: unguarded in the source, so that what
    it raises ends the run. *)
Definition torch_save (v : list pyobj) (path : string) : M unit :=
  fun w =>
    match save_error w path v with
    | Some e => (Raise e, w)
    | None =>
        (OK tt, MkWorld (inference_calls w) (saved w ++ [(path, v)]) (save_error w))
    end.

(** Iterating a pooled object and indexing it at each position, as the loop
    of lines 259-260 does: a 1-D tensor gives its entries, the pair returned
    by [torch.max] gives its two fields, a 0-d tensor cannot be iterated. *)
Definition py_iter (o : pyobj) : result (list pyobj) :=
  match o with
  | Tensor0 _ | ITensor0 _ => Raise TypeError
  | Tensor1 v => OK (map Tensor0 v)
  | ITensor1 v => OK (map ITensor0 v)
  | MaxResult values indices => OK [Tensor1 values; ITensor1 indices]
  end.

(** [t[b]] for a batch of positions *)
Fixpoint select {A : Type} (t : list A) (b : list nat) : result (list A) :=
  match b with
  | [] => OK []
  | i :: b' => (x <- py_index t i ;; xs <- select t b' ;; OK (x :: xs))%py
  end.

(** ** Arrays of lists *)

(** The lists of [t] all have the length of the first. *)
Definition rectangular {A : Type} (t : list (list A)) : bool :=
  match t with
  | [] => true
  | r :: rest =>
      forallb (fun r' => (List.length r' =? List.length r)%nat) rest
  end.

(** What [np.array] does with lists of unequal lengths: up to numpy 1.23 it
    builds a 1-D array whose elements are the lists (the behaviour at the
    date of the source); from numpy 1.24 on it raises ValueError. *)
Inductive numpy_release : Type := RaggedAsObjects | RaggedRefused.

(** [np.array(t)] for a list of lists: a 2-D array when the lists have one
    length. *)
Definition np_array {A : Type} (numpy : numpy_release) (t : list (list A))
  : result (list (list A)) :=
  if rectangular t then OK t
  else match numpy with
       | RaggedAsObjects => OK t
       | RaggedRefused => Raise ValueError
       end.

(** [torch.tensor(a)] for an array built by [np.array]: an array of objects
    is refused with TypeError. *)
Definition torch_tensor (a : list (list Z)) : result (list (list Z)) :=
  if rectangular a then OK a else Raise TypeError.

(** ** [forward_and_pool] (lines 166-267) *)

Section Pipeline.
(** [self.model(ids, masks)[1]]: the hidden states of every layer for one
    batch.  The encoder is external and may fail. *)
Variable model : list (list Z) -> list (list Z) -> result hidden_states.

(** [self.pad_id] *)
Variable pad : Z.

Definition call_model (ids masks : list (list Z)) : M hidden_states :=
  fun w => (model ids masks,
            MkWorld (S (inference_calls w)) (saved w) (save_error w)).

(** Body of the loop of lines 241-248, up to the pooled vector. *)
Definition pool_document_list (input_ids_tensor : list (list Z))
    (enc : hidden_states) (cfg : config) (layers : list nat)
    (counter idx : nat) : result pyobj :=
  (row <- py_index input_ids_tensor idx ;;
   eos <- eos_pos pad row ;;
   word_vector <- word_pooling enc layers (idx - counter) (cfg_word cfg) ;;
   sentence_pooling (span eos word_vector) (cfg_sentence cfg))%py.

(** Lines 241-248 *)
Fixpoint loop_list (input_ids_tensor : list (list Z)) (enc : hidden_states)
    (cfg : config) (layers : list nat) (counter : nat) (b : list nat)
    (texts_vectors : list pyobj) : result (list pyobj) :=
  match b with
  | [] => OK texts_vectors
  | idx :: b' =>
      (pooled_vector <- pool_document_list input_ids_tensor enc cfg layers counter idx ;;
       loop_list input_ids_tensor enc cfg layers counter b'
                 (texts_vectors ++ [pooled_vector]))%py
  end.

(** Body of the loop of lines 253-258, up to the pooled vector. *)
Definition pool_document_scalar (input_ids_tensor : list (list Z))
    (words_vector : list matrix) (cfg : config)
    (counter idx : nat) : result pyobj :=
  (row <- py_index input_ids_tensor idx ;;
   eos <- eos_pos pad row ;;
   doc <- py_index words_vector (idx - counter) ;;
   sentence_pooling (span eos (Words doc)) (cfg_sentence cfg))%py.

(** Lines 253-260 *)
Fixpoint loop_scalar (input_ids_tensor : list (list Z))
    (words_vector : list matrix) (cfg : config) (counter : nat)
    (b : list nat) (texts_vectors : list pyobj) : result (list pyobj) :=
  match b with
  | [] => OK texts_vectors
  | idx :: b' =>
      (pooled_vectors <- pool_document_scalar input_ids_tensor words_vector cfg counter idx ;;
       items <- py_iter pooled_vectors ;;
       loop_scalar input_ids_tensor words_vector cfg counter b'
                   (texts_vectors ++ items))%py
  end.

(** One turn of the loop over the batches (lines 236-261). *)
Definition process_batch (input_ids_tensor masks_tensor : list (list Z))
    (cfg : config) (counter : nat) (b : list nat)
    (texts_vectors : list pyobj) : M (list pyobj) :=
  (ids_b <- lift (select input_ids_tensor b) ;;
   masks_b <- lift (select masks_tensor b) ;;
   encoded_layers_b <- call_model ids_b masks_b ;;
   match cfg_layers cfg with
   | inr layers =>
       lift (loop_list input_ids_tensor encoded_layers_b cfg layers counter b
                       texts_vectors)
   | inl layers =>
       lift (words_vector <- py_index encoded_layers_b layers ;;
             loop_scalar input_ids_tensor words_vector cfg counter b
                         texts_vectors)%py
   end)%world.

Fixpoint loop_batches (input_ids_tensor masks_tensor : list (list Z))
    (cfg : config) (counter : nat) (bs : list (list nat))
    (texts_vectors : list pyobj) : M (list pyobj) :=
  match bs with
  | [] => ret texts_vectors
  | b :: bs' =>
      (texts_vectors' <- process_batch input_ids_tensor masks_tensor cfg
                                       counter b texts_vectors ;;
       loop_batches input_ids_tensor masks_tensor cfg
                    (counter + cfg_batch_size cfg) bs' texts_vectors')%world
  end.

Definition forward_and_pool (input_ids_tensor masks_tensor : list (list Z))
    (sentence_pooling_method word_pooling_method layers batch_size
     path_to_save : pyval) : M (list pyobj) :=
  (cfg <- lift (validate sentence_pooling_method word_pooling_method layers
                         batch_size path_to_save) ;;
   let N := List.length input_ids_tensor in
   texts_vectors <- loop_batches input_ids_tensor masks_tensor cfg 0
                                 (batch N (cfg_batch_size cfg)) [] ;;
   _ <- match cfg_path cfg with
        | Some path => torch_save texts_vectors (path ++ "text_vectors")
        | None => ret tt
        end ;;
   ret texts_vectors)%world.

(** ** [tokenize] (lines 60-100) and [vectorize] (lines 270-309) *)

(** [self.tokenizer.tokenize(text)] and
    [self.tokenizer.encode(text, max_length=MAX_LEN, pad_to_max_length=True,
    add_special_tokens=True)]: external, the second may fail. *)
Variable tokenizer_tokenize : string -> list string.
Variable tokenizer_encode : string -> Z -> result (list Z).

(** The release of numpy that is installed. *)
Variable numpy : numpy_release.

Fixpoint encode_all (data : list string) (MAX_LEN : Z) : result (list (list Z)) :=
  match data with
  | [] => OK []
  | text :: rest =>
      (ids <- tokenizer_encode text MAX_LEN ;;
       others <- encode_all rest MAX_LEN ;;
       OK (ids :: others))%py
  end.


(** [float(i != self.pad_id)], written 1 and 0 *)
Definition seq_mask (row : list Z) : list Z :=
  map (fun i => if i =? pad then 0 else 1) row.

(** Line 86 builds the array of the token lists before any text is encoded;
    line 87 encodes the texts and builds the array of their rows; lines 92-94
    walk through its rows; line 97 makes a tensor of it. *)
Definition tokenize (data : list string) (MAX_LEN : Z)
  : result (list (list string) * list (list Z) * list (list Z)) :=
  (tokenized_texts <- np_array numpy (map tokenizer_tokenize data) ;;
   encoded <- encode_all data MAX_LEN ;;
   input_ids <- np_array numpy encoded ;;
   let attention_masks := map seq_mask input_ids in
   input_ids_tensor <- torch_tensor input_ids ;;
   OK (tokenized_texts, input_ids_tensor, attention_masks))%py.

Definition vectorize (data : list string) (MAX_LEN : Z)
    (sentence_pooling_method word_pooling_method layers batch_size
     path_to_save : pyval) : M (list pyobj) :=
  (t <- lift (tokenize data MAX_LEN) ;;
   let '(_, input_ids_tensor, masks_tensor) := t in
   forward_and_pool input_ids_tensor masks_tensor sentence_pooling_method
                    word_pooling_method layers batch_size path_to_save)%world.
End Pipeline.

(** * Vocabulary of the properties *)

(** [k] is the index of the first occurrence of [x] in [row]. *)
Definition first_occurrence (x : Z) (row : list Z) (k : nat) : Prop :=
  nth_error row k = Some x /\ forall j, (j < k)%nat -> nth_error row j <> Some x.

(** The positions that hold true content according to [eos]: all of them
    when [eos] is 0, the first [eos] ones otherwise. *)
Definition candidate {A : Type} (eos : Z) (l : list A) : list A :=
  if eos =? 0 then l else firstn (Z.to_nat eos) l.

(** A sequence without its first and its last element. *)
Definition inner {A : Type} (l : list A) : list A := tl (removelast l).

(** Document [idx], whose word vectors are [vectors] (width [c]), is pooled
    over the rows [pooled] on both paths of [forward_and_pool]: that of an
    int [layers], where the word vectors are those of the layer, and that of
    a layer list, where they come out of [__word_pooling]. *)
Definition pooled_over (pad : Z) (input_ids_tensor : list (list Z)) (cfg : config)
    (counter idx c : nat) (vectors pooled : list (list fl)) : Prop :=
  (forall words_vector,
      py_index words_vector (idx - counter) = OK (Mat c vectors) ->
      pool_document_scalar pad input_ids_tensor words_vector cfg counter idx
      = sentence_pooling (Words (Mat c pooled)) (cfg_sentence cfg)) /\
  (forall enc layers,
      word_pooling enc layers (idx - counter) (cfg_word cfg)
      = OK (Words (Mat c vectors)) ->
      pool_document_list pad input_ids_tensor enc cfg layers counter idx
      = sentence_pooling (Words (Mat c pooled)) (cfg_sentence cfg)).

(** The maximum of a non-empty column, read from left to right. *)
Definition column_maximum (c : list fl) : fl :=
  match c with
  | [] => NaN
  | x :: xs => fold_left fl_max xs x
  end.

(** [m] is a tensor of shape [(r, c)]. *)
Definition has_shape (r c : nat) (m : matrix) : bool :=
  ((cols m =? c) && (List.length (rows m) =? r) &&
   forallb (fun row => List.length row =? c) (rows m))%nat.

Definition well_shaped (r c : nat) (m : matrix) : Prop :=
  cols m = c /\ List.length (rows m) = r /\
  Forall (fun row => List.length row = c) (rows m).

(** Entry [(p, c)] of a 2-D tensor. *)
Definition entry (m : matrix) (p c : nat) : fl := nth c (nth p (rows m) []) NaN.

(** The documents a layer list selects all have shape [(n, c)]. *)
Definition layers_shaped (enc : hidden_states) (layers : list nat) (idx n c : nat)
  : bool :=
  forallb (fun layer =>
             match layer_doc enc layer idx with
             | OK m => has_shape n c m
             | Raise _ => false
             end) layers.

(** The value of a layer that meets entry [(p, j)] of the placeholder: that
    of row [p], or of the only row when the layer tensor has one row, which
    is then broadcast. *)
Definition layer_entry (enc : hidden_states) (layer idx p j : nat) : fl :=
  match layer_doc enc layer idx with
  | OK d => entry d (if (List.length (rows d) =? 1)%nat then 0%nat else p) j
  | Raise _ => NaN
  end.

(** The two exception classes the checks raise: the spec's ValidationError. *)
Definition ValidationError (e : exn) : Prop := e = TypeError \/ e = ValueError.

Definition positive_int (x : pyval) : Prop := exists z, x = PyInt z /\ 0 < z.

Definition layer_in_range (x : pyval) : Prop :=
  exists z, x = PyInt z /\ 1 <= z <= 12.

(** What the check of [layers] lets through: an int of [1, 12] or a list,
    of any length, of such ints. *)
Definition accepted_layers (x : pyval) : Prop :=
  layer_in_range x \/ exists l, x = PyList l /\ Forall layer_in_range l.

(** Two entries hold the same value: equal rationals, or NaN on both sides. *)
Definition fl_eq (a b : fl) : Prop :=
  match a, b with
  | Fin x, Fin y => (x == y)%Q
  | NaN, NaN => True
  | _, _ => False
  end.

Definition rows_eq : list (list fl) -> list (list fl) -> Prop :=
  Forall2 (Forall2 fl_eq).

Definition words_eq (a b : words) : Prop :=
  match a, b with
  | EmptyTensor, EmptyTensor => True
  | Words m, Words m' => cols m = cols m' /\ rows_eq (rows m) (rows m')
  | _, _ => False
  end.

Definition pyobj_eq (a b : pyobj) : Prop :=
  match a, b with
  | Tensor0 x, Tensor0 y => fl_eq x y
  | Tensor1 v, Tensor1 v' => Forall2 fl_eq v v'
  | ITensor0 i, ITensor0 i' => i = i'
  | ITensor1 v, ITensor1 v' => v = v'
  | MaxResult v i, MaxResult v' i' => Forall2 fl_eq v v' /\ i = i'
  | _, _ => False
  end.

(** Two outcomes agree: the same exception, or numerically equal objects. *)
Definition result_eq (a b : result pyobj) : Prop :=
  match a, b with
  | OK x, OK y => pyobj_eq x y
  | Raise e, Raise e' => e = e'
  | _, _ => False
  end.

(** An entry that the sentinel of the [max] placeholder does not exceed. *)
Definition above_sentinel (x : fl) : bool :=
  match x with
  | Fin q => Qle_bool (-100) q
  | NaN => true
  end.

Definition floor_ok (doc : matrix) : bool :=
  forallb (forallb above_sentinel) (rows doc).

(** ** Vocabulary of the further properties *)

(** A fallible function applied to the elements of a list in order, up to
    the first failure. *)
Fixpoint traverse {A B : Type} (f : A -> result B) (l : list A) : result (list B) :=
  match l with
  | [] => OK []
  | x :: l' => (y <- f x ;; ys <- traverse f l' ;; OK (y :: ys))%py
  end.

(** The number of slices [__batch] yields and the [k]-th of them. *)
Definition batch_count (l n : nat) : nat := ((l + n - 1) / n)%nat.

Definition nth_batch (l n k : nat) : list nat :=
  seq (k * n) (Nat.min (k * n + n) l - k * n).

(** A method name among the literals a check lists, and a path the check of
    [path_to_save] lets through. *)
Definition valid_choice (x : pyval) (options : list string) : Prop :=
  exists s, x = PyStr s /\ In s options.

Definition valid_path (x : pyval) : Prop := x = PyNone \/ exists s, x = PyStr s.

(** What a document contributes to [texts_vectors] on the path of an int
    [layers]: the entries of its pooled object (lines 258-260). *)
Definition document_items_scalar (pad : Z) (input_ids_tensor : list (list Z))
    (words_vector : list matrix) (cfg : config) (counter idx : nat)
  : result (list pyobj) :=
  (pooled <- pool_document_scalar pad input_ids_tensor words_vector cfg counter idx ;;
   py_iter pooled)%py.

(** What one batch contributes to [texts_vectors] (lines 238-260). *)
Definition batch_items
    (model : list (list Z) -> list (list Z) -> result hidden_states) (pad : Z)
    (input_ids_tensor masks_tensor : list (list Z)) (cfg : config)
    (counter : nat) (b : list nat) : result (list pyobj) :=
  (ids_b <- select input_ids_tensor b ;;
   masks_b <- select masks_tensor b ;;
   enc <- model ids_b masks_b ;;
   match cfg_layers cfg with
   | inr layers =>
       traverse (pool_document_list pad input_ids_tensor enc cfg layers counter) b
   | inl layers =>
       words_vector <- py_index enc layers ;;
       parts <- traverse (document_items_scalar pad input_ids_tensor words_vector
                                                cfg counter) b ;;
       OK (List.concat parts)
   end)%py.

(** Document [i] of a run with batches of [n] is pooled into [v] on the path
    of a layer list: the encoder is called on the batch that holds [i], and
    [i] is read at its offset in that batch. *)
Definition pooled_in_batch_list
    (model : list (list Z) -> list (list Z) -> result hidden_states) (pad : Z)
    (input_ids_tensor masks_tensor : list (list Z)) (cfg : config)
    (layers : list nat) (n i : nat) (v : pyobj) : Prop :=
  exists ids_b masks_b enc,
    select input_ids_tensor (nth_batch (List.length input_ids_tensor) n (i / n)) = OK ids_b /\
    select masks_tensor (nth_batch (List.length input_ids_tensor) n (i / n)) = OK masks_b /\
    model ids_b masks_b = OK enc /\
    pool_document_list pad input_ids_tensor enc cfg layers (i / n * n) i = OK v.

(** The same on the path of an int [layers]: [part] is what document [i]
    appends to [texts_vectors]. *)
Definition appended_in_batch_scalar
    (model : list (list Z) -> list (list Z) -> result hidden_states) (pad : Z)
    (input_ids_tensor masks_tensor : list (list Z)) (cfg : config)
    (layer n i : nat) (part : list pyobj) : Prop :=
  exists ids_b masks_b enc words_vector pooled,
    select input_ids_tensor (nth_batch (List.length input_ids_tensor) n (i / n)) = OK ids_b /\
    select masks_tensor (nth_batch (List.length input_ids_tensor) n (i / n)) = OK masks_b /\
    model ids_b masks_b = OK enc /\
    py_index enc layer = OK words_vector /\
    pool_document_scalar pad input_ids_tensor words_vector cfg (i / n * n) i = OK pooled /\
    py_iter pooled = OK part.

(** The span of document [i] of a run with batches of [n], on the path of an
    int [layers]: the encoder is called on the batch that holds [i], the
    hidden states of [i] at the layer are read at its offset in that batch,
    and their rows are cut at the true length of the row of ids
    ([words_vector[idx-counter][:eos_pos-1][1:]], line 258). *)
Definition span_in_batch_scalar
    (model : list (list Z) -> list (list Z) -> result hidden_states) (pad : Z)
    (input_ids_tensor masks_tensor : list (list Z)) (layer n i : nat) (m : matrix)
  : Prop :=
  exists ids_b masks_b enc words_vector row eos doc,
    select input_ids_tensor (nth_batch (List.length input_ids_tensor) n (i / n)) = OK ids_b /\
    select masks_tensor (nth_batch (List.length input_ids_tensor) n (i / n)) = OK masks_b /\
    model ids_b masks_b = OK enc /\
    py_index enc layer = OK words_vector /\
    py_index input_ids_tensor i = OK row /\
    eos_pos pad row = OK eos /\
    py_index words_vector (i - i / n * n) = OK doc /\
    m = Mat (cols doc) (span_rows eos (rows doc)).

(** Every 2-D tensor the encoder returns has width [c]. *)
Definition uniform_width
    (model : list (list Z) -> list (list Z) -> result hidden_states) (c : nat) : Prop :=
  forall ids_b masks_b enc layer doc,
    model ids_b masks_b = OK enc -> In layer enc -> In doc layer -> cols doc = c.

(** The encoder treats the documents of a batch one by one: the hidden
    states of a document at the layers 1 to 12 are [doc_states] of its ids
    and mask, whatever the other documents of the batch. *)
Definition batch_independent
    (model : list (list Z) -> list (list Z) -> result hidden_states)
    (doc_states : list Z -> list Z -> nat -> matrix) : Prop :=
  forall ids_b masks_b,
    List.length ids_b = List.length masks_b ->
    exists enc,
      model ids_b masks_b = OK enc /\
      forall layer j row mask,
        (1 <= layer <= 12)%nat ->
        nth_error ids_b j = Some row -> nth_error masks_b j = Some mask ->
        layer_doc enc layer j = OK (doc_states row mask layer).

(** The hidden states of a batch made of one document. *)
Definition document_states (doc_states : list Z -> list Z -> nat -> matrix)
    (row mask : list Z) : hidden_states :=
  map (fun layer => [doc_states row mask layer]) (seq 0 13).

(** What document [idx] appends to [texts_vectors] when it is pooled from
    its own hidden states alone. *)
Definition document_alone (pad : Z) (input_ids_tensor masks_tensor : list (list Z))
    (doc_states : list Z -> list Z -> nat -> matrix)
    (sentence word : string) (layers : nat + list nat) (idx : nat)
  : result (list pyobj) :=
  (row <- py_index input_ids_tensor idx ;;
   mask <- py_index masks_tensor idx ;;
   let enc := document_states doc_states row mask in
   let cfg := Config sentence word layers 1 None in
   match layers with
   | inr ls =>
       v <- pool_document_list pad input_ids_tensor enc cfg ls idx idx ;; OK [v]
   | inl L =>
       words_vector <- py_index enc L ;;
       document_items_scalar pad input_ids_tensor words_vector cfg idx idx
   end)%py.

(** Row [p] of the hidden states of a document at a layer. *)
Definition layer_row (enc : hidden_states) (layer idx p : nat) : list fl :=
  match layer_doc enc layer idx with
  | OK d => nth p (rows d) []
  | Raise _ => []
  end.

(** Order on the entries that are numbers. *)
Definition finite (x : fl) : Prop := exists q, x = Fin q.

Definition fl_le (a b : fl) : Prop :=
  match a, b with
  | Fin x, Fin y => (x <= y)%Q
  | _, _ => False
  end.

Definition fl_lt (a b : fl) : Prop :=
  match a, b with
  | Fin x, Fin y => (x < y)%Q
  | _, _ => False
  end.

(** ** [EmbeddingExplorer.__init__] (lines 313-317) *)

(** What [el.tolist()] gives for an entry of [texts_vectors]. *)
Inductive listed : Type :=
| LFloat (x : fl)
| LFloats (v : list fl)
| LInt (i : nat)
| LInts (v : list nat).

(** [el.tolist()]: tensors have the method, the pair that [torch.max] returns
    along an axis is a tuple and has not; [None] stands for the
    AttributeError. *)
Definition tolist (el : pyobj) : option listed :=
  match el with
  | Tensor0 x => Some (LFloat x)
  | Tensor1 v => Some (LFloats v)
  | ITensor0 i => Some (LInt i)
  | ITensor1 v => Some (LInts v)
  | MaxResult _ _ => None
  end.

(** [[el.tolist() for el in texts_vectors]] *)
Fixpoint tolist_all (texts_vectors : list pyobj) : option (list listed) :=
  match texts_vectors with
  | [] => Some []
  | el :: rest =>
      match tolist el with
      | None => None
      | Some x =>
          match tolist_all rest with
          | None => None
          | Some xs => Some (x :: xs)
          end
      end
  end.

Record EmbeddingExplorer : Type := Explorer {
  ex_data : list string;
  ex_texts_vectors : list listed;
  ex_labels : list Z;
  ex_keywords : list (string * list string)
}.

Definition EmbeddingExplorer_init (data : list string) (texts_vectors : list pyobj)
  : option EmbeddingExplorer :=
  match tolist_all texts_vectors with
  | None => None
  | Some vectors =>
      Some (Explorer data vectors (map (fun _ => 0) texts_vectors) [])
  end.

(** The encoder returns, for every document of a batch and every layer from
    1 to 12, hidden states of [n] positions and width [c]. *)
Definition encoder_shape
    (model : list (list Z) -> list (list Z) -> result hidden_states) (n c : nat) : Prop :=
  forall ids_b masks_b enc layer j,
    model ids_b masks_b = OK enc ->
    (1 <= layer <= 12)%nat -> (j < List.length ids_b)%nat ->
    exists d, layer_doc enc layer j = OK d /\ well_shaped n c d.

(** * Sample data *)

(** Hidden states of thirteen layers for [docs] documents of [n] positions,
    every entry being [x]: sample data for the examples below. *)
Definition constant_states (n docs : nat) (x : fl) : hidden_states :=
  repeat (repeat (Mat HIDDEN (repeat (repeat x HIDDEN) n)) docs) 13.

(** An encoder for the examples: thirteen layers of constant hidden states of
    8 positions, one document per row of ids. *)
Definition constant_model (ids masks : list (list Z)) : result hidden_states :=
  OK (constant_states 8 (List.length ids) (Fin 3)).

(** A small tokenizer for the examples, in the id convention of Flaubert
    (0 opens a row, 1 closes it, 2 pads): the words of three documents have
    an id each, and a row is cut and padded to [MAX_LEN]. *)
Definition sample_words (text : string) : list Z :=
  if (text =? "le chat mange")%string then [20; 130; 1547]
  else if (text =? "le chien court vite")%string then [20; 436; 2810; 1023]
  else if (text =? "bonjour")%string then [2338]
  else [].

Definition sample_encode (text : string) (MAX_LEN : Z) : result (list Z) :=
  let body := sample_words text in
  let kept := firstn (Z.to_nat (MAX_LEN - 2)) body in
  let ids := [0] ++ kept ++ [1] in
  OK (ids ++ repeat 2 (Z.to_nat (MAX_LEN - Z.of_nat (List.length ids)))).

(** Its tokens are the words: the three documents have 3, 4 and 1 of them. *)
Definition sample_tokenize (text : string) : list string :=
  (if text =? "le chat mange" then ["le"; "chat"; "mange"]
   else if text =? "le chien court vite" then ["le"; "chien"; "court"; "vite"]
   else [text])%string.

Definition scenario_documents : list string :=
  ["le chat mange"; "le chien court vite"; "bonjour"]%string.

(** An encoder for the scenario: at every layer the vector of a position
    repeats the id found there 768 times. *)
Definition embedding_model (ids masks : list (list Z)) : result hidden_states :=
  OK (repeat (map (fun row => Mat HIDDEN (map (fun id => repeat (Fin (inject_Z id)) HIDDEN) row))
                  ids)
             13).

(** A row of 256 ids with two words, and an encoder of 256 positions whose
    hidden states are all [x]. *)
Definition long_row : list Z := [0; 20; 30; 1] ++ repeat 2 252.

Definition constant_model_256 (x : fl) (ids masks : list (list Z))
  : result hidden_states :=
  OK (constant_states 256 (List.length ids) x).

(** The hidden states [embedding_model] gives a document. *)
Definition embedding_states (row mask : list Z) (layer : nat) : matrix :=
  Mat HIDDEN (map (fun id => repeat (Fin (inject_Z id)) HIDDEN) row).

(** * Properties *)

(** Unfolds [__word_pooling] at a literal method name and settles the string
    tests that select its branch. *)
Ltac dispatch_word_pooling :=
  unfold word_pooling; cbn [lower lower_ascii]; simpl String.eqb; cbn [rbind].

(** Closes a goal [ValidationError e] from a failed check [Hc], after the
    failure of the whole validation [H] has been reduced to it. *)
Ltac failed_check H lem Hc :=
  inversion H; subst; eapply lem; exact Hc.

(** ** Results *)

Lemma rbind_OK {A B} (r : result A) (k : A -> result B) (b : B) :
  rbind r k = OK b <-> exists a, r = OK a /\ k a = OK b.
Proof.
  destruct r as [a|e]; simpl; split.
  - intros H. now exists a.
  - intros [a' [Ha Hk]]. now inversion Ha; subst.
  - discriminate.
  - intros [a' [Ha _]]. discriminate.
Qed.

Lemma py_index_OK {A} (l : list A) (i : nat) (x : A) :
  py_index l i = OK x <-> nth_error l i = Some x.
Proof.
  unfold py_index. destruct (nth_error l i); split; intros H;
    inversion H; subst; reflexivity.
Qed.

Lemma py_last_app {A} (l : list A) (x : A) : py_last (l ++ [x]) = OK x.
Proof. unfold py_last. now rewrite rev_unit. Qed.

Lemma py_last_OK {A} (l : list A) (x : A) :
  py_last l = OK x <-> exists l', l = l' ++ [x].
Proof.
  split.
  - destruct l as [|a l] using rev_ind.
    + discriminate.
    + rewrite py_last_app. intros H; inversion H; subst. now exists l.
  - intros [l' ->]. apply py_last_app.
Qed.

(** ** True length (C2) *)

Lemma nonzero_eq_head (x : Z) (row : list Z) :
  forall i k,
    nth_error (nonzero_eq x row i) 0 = Some k <->
    exists k', k = (i + k')%nat /\ first_occurrence x row k'.
Proof.
  induction row as [|y row IH]; intros i k; cbn [nonzero_eq].
  - split; [discriminate|].
    intros [k' [_ [H _]]]. destruct k'; discriminate.
  - destruct (Z.eqb_spec y x) as [->|Hne].
    + cbn [nth_error]. split.
      * intros H; inversion H; subst. exists 0%nat. split; [lia|].
        split; [reflexivity|]. intros j Hj; lia.
      * intros [k' [-> [Hk Hfirst]]]. destruct k' as [|k'].
        -- f_equal; lia.
        -- exfalso. apply (Hfirst 0%nat); [lia|reflexivity].
    + rewrite IH. split.
      * intros [k' [-> [Hk Hfirst]]]. exists (S k'). split; [lia|].
        split; [exact Hk|]. intros [|j] Hj.
        -- simpl. congruence.
        -- simpl. apply Hfirst. lia.
      * intros [k' [-> [Hk Hfirst]]]. destruct k' as [|k'].
        -- simpl in Hk. congruence.
        -- exists k'. split; [lia|]. split; [exact Hk|].
           intros j Hj. apply (Hfirst (S j)). lia.
Qed.

Lemma first_occurrence_exists (x : Z) (row : list Z) :
  In x row -> exists k, first_occurrence x row k.
Proof.
  induction row as [|y row IH]; intros Hin; [contradiction|].
  destruct (Z.eq_dec y x) as [->|Hne].
  - exists 0%nat. split; [reflexivity|]. intros j Hj; lia.
  - destruct Hin as [Heq|Hin]; [congruence|].
    destruct (IH Hin) as [k [Hk Hfirst]]. exists (S k). split; [exact Hk|].
    intros [|j] Hj; simpl; [congruence|]. apply Hfirst. lia.
Qed.

Lemma nonzero_eq_absent (x : Z) (row : list Z) :
  ~ In x row -> forall i, nonzero_eq x row i = [].
Proof.
  induction row as [|y row IH]; intros Hnot i; [reflexivity|].
  cbn [nonzero_eq]. destruct (Z.eqb_spec y x) as [->|_].
  - exfalso. apply Hnot. now left.
  - apply IH. intros Hin. apply Hnot. now right.
Qed.

Lemma first_occurrence_bound (x : Z) (row : list Z) (k : nat) :
  first_occurrence x row k -> (k < List.length row)%nat /\ In x row.
Proof.
  intros [Hk _]. split.
  - apply nth_error_Some. congruence.
  - eapply nth_error_In. exact Hk.
Qed.

Lemma first_occurrence_after (x : Z) (body rest : list Z) :
  ~ In x body -> first_occurrence x (body ++ x :: rest) (List.length body).
Proof.
  intros Hnot. split.
  - rewrite nth_error_app2 by lia. now rewrite Nat.sub_diag.
  - intros j Hj Hnth. rewrite nth_error_app1 in Hnth by exact Hj.
    apply Hnot. eapply nth_error_In. exact Hnth.
Qed.

Lemma eos_pos_search (pad : Z) (row : list Z) (last : Z) (k : nat) :
  py_last row = OK last -> last <> EOS_ID -> first_occurrence pad row k ->
  eos_pos pad row = OK (Z.of_nat k).
Proof.
  intros Hlast Hne Hfirst. unfold eos_pos. rewrite Hlast. cbn [rbind].
  destruct (Z.eqb_spec last EOS_ID) as [Heq|_]; [contradiction|].
  assert (Hidx : py_index (nonzero_eq pad row 0) 0 = OK k).
  { apply py_index_OK, nonzero_eq_head. exists k. split; [reflexivity|exact Hfirst]. }
  rewrite Hidx. reflexivity.
Qed.

Lemma eos_pos_no_pad (pad : Z) (row : list Z) (last : Z) :
  py_last row = OK last -> last <> EOS_ID -> ~ In pad row ->
  eos_pos pad row = Raise IndexError.
Proof.
  intros Hlast Hne Hnot. unfold eos_pos. rewrite Hlast. cbn [rbind].
  destruct (Z.eqb_spec last EOS_ID) as [Heq|_]; [contradiction|].
  rewrite nonzero_eq_absent by exact Hnot. reflexivity.
Qed.

Lemma py_last_empty {A} : @py_last A [] = Raise IndexError.
Proof. reflexivity. Qed.

Lemma py_last_padded (body : list Z) (pad : Z) (k : nat) :
  (0 < k)%nat -> py_last (body ++ repeat pad k) = OK pad.
Proof.
  intros Hk. destruct k as [|k]; [lia|].
  change (repeat pad (S k)) with (pad :: repeat pad k).
  rewrite repeat_cons, app_assoc. apply py_last_app.
Qed.

(** C2.  The end marker the last id of a row is compared with is the literal
    1, whatever the tokenizer.  For every row with a last id: when it is 1
    the true length is 0 and no pad is looked for; otherwise the true
    length, when there is one, is exactly the index of the first occurrence
    of the pad id.  So with a tokenizer whose end-of-sequence id [eos] is
    not 1, a row that ends with [eos] and holds no pad does not get the true
    length 0 but raises IndexError; and with the pad id of Camembert, which
    is 1, a padded row gets the true length 0 although its last id is not
    [eos] and its first pad sits right after the end marker. *)
Theorem eos_pos_literal_end_marker (eos : Z) (Heos : eos <> 1) :
  (forall pad row, py_last row = OK 1 -> eos_pos pad row = OK 0) /\
  (forall pad row last,
      py_last row = OK last -> last <> 1 ->
      (forall z, eos_pos pad row = OK z <->
                 exists k, z = Z.of_nat k /\ first_occurrence pad row k) /\
      (In pad row -> exists k, eos_pos pad row = OK (Z.of_nat k))) /\
  (forall pad body,
      ~ In pad (body ++ [eos]) ->
      eos_pos pad (body ++ [eos]) = Raise IndexError) /\
  (forall body k,
      ~ In (pad_id Camembert) body ->
      let row := body ++ eos :: repeat (pad_id Camembert) (S k) in
      py_last row <> OK eos /\
      first_occurrence (pad_id Camembert) row (S (List.length body)) /\
      eos_pos (pad_id Camembert) row = OK 0).
Proof.
  split; [|split; [|split]].
  - intros pad row Hlast. unfold eos_pos. rewrite Hlast. reflexivity.
  - intros pad row last Hlast Hne.
    assert (Hiff : forall z,
              eos_pos pad row = OK z <->
              exists k, z = Z.of_nat k /\ first_occurrence pad row k).
    { intros z. split.
      - intros Hz. unfold eos_pos in Hz. rewrite Hlast in Hz. cbn [rbind] in Hz.
        destruct (Z.eqb_spec last EOS_ID) as [Heq|_]; [contradiction|].
        apply rbind_OK in Hz. destruct Hz as [k [Hk Hz]].
        apply py_index_OK, nonzero_eq_head in Hk. destruct Hk as [k' [-> Hfirst]].
        inversion Hz; subst. now exists k'.
      - intros [k [-> Hfirst]]. now apply (eos_pos_search pad row last k). }
    split; [exact Hiff|].
    intros Hin. destruct (first_occurrence_exists pad row Hin) as [k Hk].
    exists k. apply Hiff. now exists k.
  - intros pad body Hnot.
    apply (eos_pos_no_pad pad _ eos); [apply py_last_app|exact Heos|exact Hnot].
  - intros body k Hbody. cbv zeta.
    assert (Hlast : py_last (body ++ eos :: repeat (pad_id Camembert) (S k))
                    = OK (pad_id Camembert)).
    { replace (body ++ eos :: repeat (pad_id Camembert) (S k))
        with ((body ++ [eos]) ++ repeat (pad_id Camembert) (S k))
        by (now rewrite <- app_assoc).
      apply py_last_padded. lia. }
    split; [|split].
    + rewrite Hlast. intros H. inversion H as [Heq]. apply Heos. now rewrite <- Heq.
    + replace (body ++ eos :: repeat (pad_id Camembert) (S k))
        with ((body ++ [eos]) ++ pad_id Camembert :: repeat (pad_id Camembert) k)
        by (now rewrite <- app_assoc).
      replace (S (List.length body)) with (List.length (body ++ [eos]))
        by (rewrite length_app; cbn [List.length]; lia).
      apply first_occurrence_after. intros Hin. apply in_app_or in Hin.
      destruct Hin as [Hin|[Heq|[]]]; [now apply Hbody|].
      apply Heos. exact Heq.
    + unfold eos_pos. rewrite Hlast. reflexivity.
Qed.

Lemma eos_pos_literal_end_marker_witness :
  eos_pos (pad_id Camembert) ([5; 121] ++ 6 :: repeat (pad_id Camembert) 2) = OK 0.
Proof.
  refine (proj2 (proj2 (proj2 (proj2 (proj2 (eos_pos_literal_end_marker 6 _)))
                         [5; 121] 1%nat _))).
  - lia.
  - simpl. lia.
Defined.

(** ** The pooled span (C3) *)

Section Span.
Context {A : Type}.

Lemma skipn_1_tl (l : list A) : skipn 1 l = tl l.
Proof. destruct l; reflexivity. Qed.

Lemma slice_is_inner (eos : Z) (l : list A) :
  0 <= eos <= Z.of_nat (List.length l) ->
  py_slice_from1 (py_slice_to (eos - 1) l) = inner (candidate eos l).
Proof.
  intros Hrange. unfold py_slice_from1, py_slice_to, candidate, inner.
  rewrite skipn_1_tl. f_equal.
  destruct (Z.eqb_spec eos 0) as [->|Hne].
  - simpl. rewrite removelast_firstn_len. f_equal. lia.
  - destruct (Z.ltb_spec (eos - 1) 0) as [Hlt|_]; [lia|].
    replace (Z.to_nat eos) with (S (Z.to_nat (eos - 1))) by lia.
    rewrite removelast_firstn by lia. reflexivity.
Qed.

Lemma inner_length (l : list A) : List.length (inner l) = (List.length l - 2)%nat.
Proof.
  unfold inner. destruct l as [|x l] using rev_ind; [reflexivity|].
  rewrite removelast_last, length_app. cbn [List.length].
  destruct l; cbn [tl List.length]; lia.
Qed.

Lemma inner_nth_error (l : list A) (p : nat) :
  (1 <= p)%nat -> (p + 1 < List.length l)%nat ->
  nth_error (inner l) (p - 1) = nth_error l p.
Proof.
  intros Hp Hlen. unfold inner. destruct l as [|x l] using rev_ind;
    [cbn [List.length] in Hlen; lia|].
  rewrite removelast_last. rewrite length_app in Hlen. cbn [List.length] in Hlen.
  rewrite nth_error_app1 by lia.
  destruct l as [|y l]; [cbn [List.length] in Hlen; lia|].
  cbn [tl]. destruct p as [|p]; [lia|]. cbn [nth_error].
  now replace (S p - 1)%nat with p by lia.
Qed.
End Span.

(** C3.  Take a row made of a true content [body], without the pad id,
    followed by [k] pads, and the word vectors of the document, one per
    position.  With a pad id other than 1 and a true content that ends with
    the id 1 (Flaubert), both paths of [forward_and_pool] pool the document,
    whatever the sentence pooling method, over its true content without its
    first and its last position: 3 positions for a true length of 5.  With
    the pad id 1 (Camembert) a padded row is pooled over all the positions
    of the row but the first and the last: the span holds the position of
    the trailing marker and those of the pads but one. *)
Theorem sentence_pooling_span_of_padded_row
    (pad : Z) (input_ids_tensor : list (list Z)) (cfg : config)
    (counter idx c : nat) (body : list Z) (k : nat) (vectors : list (list fl))
    (Hrow : py_index input_ids_tensor idx = OK (body ++ repeat pad k))
    (Hbody : ~ In pad body)
    (Hvectors : List.length vectors = (List.length body + k)%nat) :
  (pad <> 1 -> py_last body = OK 1 ->
   pooled_over pad input_ids_tensor cfg counter idx c vectors
               (inner (firstn (List.length body) vectors)) /\
   List.length (inner (firstn (List.length body) vectors))
   = (List.length body - 2)%nat /\
   (List.length body = 5%nat ->
    List.length (inner (firstn (List.length body) vectors)) = 3%nat)) /\
  (pad = 1 -> (0 < k)%nat ->
   pooled_over pad input_ids_tensor cfg counter idx c vectors (inner vectors) /\
   List.length (inner vectors) = (List.length body + k - 2)%nat /\
   forall p, (1 <= p)%nat -> (p + 1 < List.length body + k)%nat ->
             nth_error (inner vectors) (p - 1) = nth_error vectors p).
Proof.
  assert (Hpooled : forall eos,
            eos_pos pad (body ++ repeat pad k) = OK eos ->
            0 <= eos <= Z.of_nat (List.length vectors) ->
            pooled_over pad input_ids_tensor cfg counter idx c vectors
                        (inner (candidate eos vectors))).
  { intros eos Heos Hrange. split.
    - intros words_vector Hdoc. unfold pool_document_scalar.
      rewrite Hrow. cbn [rbind]. rewrite Heos. cbn [rbind]. rewrite Hdoc.
      cbn [rbind span words_slice cols rows]. unfold span_rows.
      now rewrite slice_is_inner.
    - intros enc layers Hwv. unfold pool_document_list.
      rewrite Hrow. cbn [rbind]. rewrite Heos. cbn [rbind]. rewrite Hwv.
      cbn [rbind span words_slice cols rows]. unfold span_rows.
      now rewrite slice_is_inner. }
  split.
  - intros Hpad Hlast.
    assert (Hlen : List.length (inner (firstn (List.length body) vectors))
                   = (List.length body - 2)%nat).
    { rewrite inner_length, firstn_length_le by lia. reflexivity. }
    split; [|split; [exact Hlen|intros H5; rewrite Hlen, H5; reflexivity]].
    destruct k as [|k].
    + cbn [repeat] in Hrow, Hpooled. rewrite app_nil_r in Hrow, Hpooled.
      assert (Heos : eos_pos pad body = OK 0).
      { unfold eos_pos. rewrite Hlast. reflexivity. }
      specialize (Hpooled 0 Heos ltac:(lia)). unfold candidate in Hpooled.
      cbn [Z.eqb] in Hpooled.
      rewrite firstn_all2 by lia. exact Hpooled.
    + assert (Heos : eos_pos pad (body ++ repeat pad (S k))
                     = OK (Z.of_nat (List.length body))).
      { apply (eos_pos_search pad _ pad).
        - apply py_last_padded. lia.
        - exact Hpad.
        - cbn [repeat]. now apply first_occurrence_after. }
      specialize (Hpooled _ Heos ltac:(lia)). unfold candidate in Hpooled.
      assert (Hbody_len : (0 < List.length body)%nat).
      { destruct body; [discriminate Hlast|cbn [List.length]; lia]. }
      destruct (Z.eqb_spec (Z.of_nat (List.length body)) 0) as [Hz|_]; [lia|].
      now rewrite Nat2Z.id in Hpooled.
  - intros Hpad Hk.
    assert (Heos : eos_pos pad (body ++ repeat pad k) = OK 0).
    { unfold eos_pos. rewrite (py_last_padded body pad k Hk). subst pad. reflexivity. }
    specialize (Hpooled 0 Heos ltac:(lia)). unfold candidate in Hpooled.
    cbn [Z.eqb] in Hpooled. split; [exact Hpooled|]. split.
    + now rewrite inner_length, Hvectors.
    + intros p Hp Hlt. apply inner_nth_error; lia.
Qed.

Lemma sentence_pooling_span_of_padded_row_witness :
  List.length (inner (map (fun x => [Fin (inject_Z x)]) [10; 11; 12; 13; 14]))
  = (List.length [5; 121; 6] + 2 - 2)%nat.
Proof.
  refine (proj1 (proj2 (proj2 (sentence_pooling_span_of_padded_row
            (pad_id Camembert) [[5; 121; 6; 1; 1]]
            (Config "average" "average" (inl 11%nat) 2%nat None)
            0 0 1 [5; 121; 6] 2
            (map (fun x => [Fin (inject_Z x)]) [10; 11; 12; 13; 14])
            eq_refl _ eq_refl) eq_refl _))).
  - simpl. lia.
  - lia.
Defined.

(** ** Sentence pooling with [max] (C4) *)

Lemma fl_replaces_max (a b : fl) :
  (if fl_replaces a b then b else a) = fl_max a b.
Proof.
  destruct a as [x|], b as [y|]; simpl; try reflexivity.
  destruct (Qlt_le_dec x y); reflexivity.
Qed.

Lemma max_scan_fst (xs : list fl) :
  forall best besti i, fst (max_scan best besti i xs) = fold_left fl_max xs best.
Proof.
  induction xs as [|x xs IH]; intros best besti i; simpl; [reflexivity|].
  rewrite <- fl_replaces_max. destruct (fl_replaces best x); apply IH.
Qed.

Lemma column_max_fst (c : list fl) : fst (column_max c) = column_maximum c.
Proof. destruct c as [|x xs]; [reflexivity|]. apply max_scan_fst. Qed.

Lemma max_rows_values (m : matrix) :
  rows m <> [] ->
  max_rows m =
  OK (map (fun j => column_maximum (column j (rows m))) (seq 0 (cols m)),
      map (fun j => snd (column_max (column j (rows m)))) (seq 0 (cols m))).
Proof.
  intros Hne. unfold max_rows. destruct (rows m) as [|r rs] eqn:Hrows; [congruence|].
  rewrite !map_map. do 2 f_equal.
  apply map_ext. intros j. apply column_max_fst.
Qed.

(** The values of sentence pooling with [max] on at least one row. *)
Lemma sentence_pooling_max_values (m : matrix) :
  rows m <> [] ->
  exists indices,
    sentence_pooling (Words m) "max" =
    OK (MaxResult (map (fun j => column_maximum (column j (rows m))) (seq 0 (cols m)))
                  indices) /\
    List.length indices = cols m.
Proof.
  intros Hne.
  exists (map (fun j => snd (column_max (column j (rows m)))) (seq 0 (cols m))).
  split.
  - unfold sentence_pooling. simpl. rewrite (max_rows_values m Hne). reflexivity.
  - rewrite length_map, length_seq. reflexivity.
Qed.

(** C4.  On a sequence with at least one word vector, sentence pooling with
    [max] computes the elementwise maximum of every coordinate across the
    positions, but what it returns is the pair (values, indices) that
    [torch.max] yields along an axis, not the vector of maxima alone. *)
Theorem sentence_pooling_max_returns_pair (m : matrix) (Hne : rows m <> []) :
  exists indices,
    sentence_pooling (Words m) "max" =
    OK (MaxResult (map (fun j => column_maximum (column j (rows m))) (seq 0 (cols m)))
                  indices) /\
    List.length indices = cols m /\
    forall v, sentence_pooling (Words m) "max" <> OK (Tensor1 v).
Proof.
  exists (map (fun j => snd (column_max (column j (rows m)))) (seq 0 (cols m))).
  assert (Heq : sentence_pooling (Words m) "max" =
    OK (MaxResult (map (fun j => column_maximum (column j (rows m))) (seq 0 (cols m)))
                  (map (fun j => snd (column_max (column j (rows m)))) (seq 0 (cols m))))).
  { unfold sentence_pooling. simpl. rewrite (max_rows_values m Hne). reflexivity. }
  split; [exact Heq|]. split.
  - rewrite length_map, length_seq. reflexivity.
  - intros v. rewrite Heq. discriminate.
Qed.

Lemma sentence_pooling_max_returns_pair_witness :
  exists indices,
    sentence_pooling (Words (Mat 2 [[Fin 1; Fin 5]; [Fin 3; Fin 2]])) "max" =
    OK (MaxResult [Fin 3; Fin 5] indices).
Proof.
  destruct (sentence_pooling_max_returns_pair
              (Mat 2 [[Fin 1; Fin 5]; [Fin 3; Fin 2]]) ltac:(discriminate))
    as [indices [Heq _]].
  exists indices. exact Heq.
Defined.

(** ** Shapes and broadcasting *)

Lemma has_shape_spec (r c : nat) (m : matrix) :
  has_shape r c m = true <-> well_shaped r c m.
Proof.
  unfold has_shape, well_shaped.
  rewrite !andb_true_iff, !Nat.eqb_eq, forallb_forall, Forall_forall.
  split.
  - intros [[Hc Hr] Hrows]. repeat split; try assumption.
    intros x Hx. apply Nat.eqb_eq. now apply Hrows.
  - intros [Hc [Hr Hrows]]. repeat split; try assumption.
    intros x Hx. apply Nat.eqb_eq. now apply Hrows.
Qed.

Section Broadcast.
Context {A : Type}.

Lemma expand_length (n : nat) (l : list A) :
  List.length l = n \/ List.length l = 1%nat -> List.length (expand n l) = n.
Proof.
  intros H. destruct l as [|x [|y l]]; simpl in *.
  - destruct H as [H|H]; [exact H|discriminate].
  - apply repeat_length.
  - destruct H as [H|H]; [exact H|discriminate].
Qed.

Lemma expand_same (n : nat) (l : list A) :
  List.length l = n -> expand n l = l.
Proof.
  intros H. destruct l as [|x [|y l]]; simpl in *; try reflexivity.
  subst n. reflexivity.
Qed.

Lemma expand_In (n : nat) (l : list A) (x : A) :
  In x (expand n l) -> In x l.
Proof.
  destruct l as [|y [|z l]]; simpl; try tauto.
  intros H. apply repeat_spec in H. now left.
Qed.
End Broadcast.

Lemma broadcast_dim_OK (a b r : nat) :
  broadcast_dim a b = OK r -> (a = r \/ a = 1%nat) /\ (b = r \/ b = 1%nat).
Proof.
  unfold broadcast_dim.
  destruct (Nat.eqb_spec a b) as [->|Hab].
  - intros H; inversion H; subst. tauto.
  - destruct (Nat.eqb_spec a 1) as [->|Ha].
    + intros H; inversion H; subst. tauto.
    + destruct (Nat.eqb_spec b 1) as [->|Hb]; [|discriminate].
      intros H; inversion H; subst. tauto.
Qed.

Lemma zip_with_length {A B C} (f : A -> B -> C) (la : list A) (lb : list B) :
  List.length (zip_with f la lb) = Nat.min (List.length la) (List.length lb).
Proof. unfold zip_with. now rewrite length_map, length_combine. Qed.

Lemma zip_with_In {A B C} (f : A -> B -> C) (la : list A) (lb : list B) (z : C) :
  In z (zip_with f la lb) -> exists x y, In x la /\ In y lb /\ z = f x y.
Proof.
  unfold zip_with. rewrite in_map_iff. intros [[x y] [Hz Hin]].
  exists x, y. repeat split.
  - eapply in_combine_l; eassumption.
  - eapply in_combine_r; eassumption.
  - now subst.
Qed.

Lemma zip_with_nth {A B C} (f : A -> B -> C) (la : list A) (lb : list B)
    (da : A) (db : B) (dc : C) :
  forall i, (i < List.length la)%nat -> (i < List.length lb)%nat ->
  nth i (zip_with f la lb) dc = f (nth i la da) (nth i lb db).
Proof.
  revert lb. induction la as [|a la IH]; intros [|b lb] i Ha Hb; simpl in *;
    try lia.
  destruct i as [|i]; [reflexivity|]. apply IH; lia.
Qed.

Lemma elementwise_shape (f : fl -> fl -> fl) (a b : matrix) (ra ca rb cb r c : nat) :
  well_shaped ra ca a -> well_shaped rb cb b ->
  broadcast_dim ra rb = OK r -> broadcast_dim ca cb = OK c ->
  exists m, elementwise f a b = OK m /\ well_shaped r c m.
Proof.
  intros [Hca [Hra Hrowsa]] [Hcb [Hrb Hrowsb]] Hr Hc.
  unfold elementwise. rewrite Hra, Hrb, Hr, Hca, Hcb, Hc. simpl.
  eexists. split; [reflexivity|].
  apply broadcast_dim_OK in Hr, Hc. destruct Hr as [Hr1 Hr2], Hc as [Hc1 Hc2].
  unfold well_shaped; simpl. split; [reflexivity|]. split.
  - rewrite zip_with_length, !expand_length by lia. lia.
  - rewrite Forall_forall in *. intros row Hrow.
    apply zip_with_In in Hrow. destruct Hrow as [x [y [Hx [Hy ->]]]].
    apply expand_In in Hx, Hy.
    rewrite zip_with_length, !expand_length.
    + lia.
    + rewrite (Hrowsb y Hy). lia.
    + rewrite (Hrowsa x Hx). lia.
Qed.

Lemma elementwise_rows_mismatch (f : fl -> fl -> fl) (a b : matrix) :
  broadcast_dim (List.length (rows a)) (List.length (rows b)) = Raise RuntimeError ->
  elementwise f a b = Raise RuntimeError.
Proof. intros H. unfold elementwise. rewrite H. reflexivity. Qed.

Lemma broadcast_dim_same (n : nat) : broadcast_dim n n = OK n.
Proof. unfold broadcast_dim. now rewrite Nat.eqb_refl. Qed.

Lemma zip_with_ext_in {A B C} (f g : A -> B -> C) (la : list A) (lb : list B) :
  (forall x y, In x la -> In y lb -> f x y = g x y) ->
  zip_with f la lb = zip_with g la lb.
Proof.
  intros H. unfold zip_with. apply map_ext_in. intros [x y] Hin. simpl.
  apply H; [eapply in_combine_l|eapply in_combine_r]; eassumption.
Qed.

(** Without broadcasting the operation is applied entry by entry. *)
Lemma elementwise_same_shape (f : fl -> fl -> fl) (a b : matrix) (r c : nat) :
  well_shaped r c a -> well_shaped r c b ->
  elementwise f a b = OK (Mat c (zip_with (zip_with f) (rows a) (rows b))).
Proof.
  intros [Hca [Hra Hrowsa]] [Hcb [Hrb Hrowsb]].
  unfold elementwise. rewrite Hra, Hrb, Hca, Hcb, !broadcast_dim_same. simpl.
  rewrite !expand_same by assumption. do 2 f_equal.
  apply zip_with_ext_in. intros x y Hx Hy.
  rewrite Forall_forall in Hrowsa, Hrowsb.
  rewrite !expand_same; [reflexivity| |]; auto.
Qed.

Lemma entry_zip_with (f : fl -> fl -> fl) (a b : matrix) (r c p j : nat) :
  well_shaped r c a -> well_shaped r c b -> (p < r)%nat -> (j < c)%nat ->
  entry (Mat c (zip_with (zip_with f) (rows a) (rows b))) p j =
  f (entry a p j) (entry b p j).
Proof.
  intros [Hca [Hra Hrowsa]] [Hcb [Hrb Hrowsb]] Hp Hj. unfold entry. simpl.
  rewrite (zip_with_nth (zip_with f) (rows a) (rows b) [] [] []) by lia.
  rewrite Forall_forall in Hrowsa, Hrowsb.
  apply zip_with_nth.
  - rewrite Hrowsa; [exact Hj|]. apply nth_In. lia.
  - rewrite Hrowsb; [exact Hj|]. apply nth_In. lia.
Qed.

Lemma placeholder_shape (x : fl) : well_shaped PLACEHOLDER_ROWS HIDDEN (placeholder x).
Proof.
  unfold well_shaped, placeholder. cbn [cols rows].
  split; [reflexivity|]. split; [apply repeat_length|].
  apply Forall_forall. intros row Hrow. apply repeat_spec in Hrow. subst.
  apply repeat_length.
Qed.

Lemma placeholder_entry (x : fl) (p j : nat) :
  (p < PLACEHOLDER_ROWS)%nat -> (j < HIDDEN)%nat -> entry (placeholder x) p j = x.
Proof.
  intros Hp Hj. unfold entry, placeholder. cbn [rows].
  rewrite nth_repeat_lt by exact Hp. apply nth_repeat_lt. exact Hj.
Qed.

Lemma divide_by_shape (n r c : nat) (m : matrix) :
  well_shaped r c m -> well_shaped r c (divide_by n m).
Proof.
  intros [Hc [Hr Hrows]]. unfold well_shaped, divide_by. simpl.
  split; [exact Hc|]. split; [now rewrite length_map|].
  rewrite Forall_forall in *. intros row Hrow. apply in_map_iff in Hrow.
  destruct Hrow as [row' [<- Hin]]. rewrite length_map. now apply Hrows.
Qed.

Lemma layers_shaped_cons enc layer rest idx n c :
  layers_shaped enc (layer :: rest) idx n c = true ->
  (exists m, layer_doc enc layer idx = OK m /\ well_shaped n c m) /\
  layers_shaped enc rest idx n c = true.
Proof.
  unfold layers_shaped. simpl. rewrite andb_true_iff. intros [H Hrest].
  split; [|exact Hrest].
  destruct (layer_doc enc layer idx) as [m|e]; [|discriminate].
  exists m. split; [reflexivity|]. now apply has_shape_spec.
Qed.

(** ** Word pooling over a layer list (C9, C10) *)

Lemma pool_accumulate_broadcast (f : fl -> fl -> fl) (enc : hidden_states)
    (idx n : nat) :
  n = PLACEHOLDER_ROWS \/ n = 1%nat ->
  forall layers acc,
    well_shaped PLACEHOLDER_ROWS HIDDEN acc ->
    layers_shaped enc layers idx n HIDDEN = true ->
    exists m, pool_accumulate f enc layers idx acc = OK m /\
              well_shaped PLACEHOLDER_ROWS HIDDEN m.
Proof.
  intros Hn. induction layers as [|layer rest IH]; intros acc Hacc Hdocs.
  - exists acc. split; [reflexivity|exact Hacc].
  - apply layers_shaped_cons in Hdocs. destruct Hdocs as [[d [Hd Hshape]] Hrest].
    cbn [pool_accumulate]. rewrite Hd. cbn [rbind].
    destruct (elementwise_shape f acc d PLACEHOLDER_ROWS HIDDEN n HIDDEN
                PLACEHOLDER_ROWS HIDDEN Hacc Hshape) as [m [Hm Hmshape]].
    + destruct Hn as [-> | ->]; reflexivity.
    + apply broadcast_dim_same.
    + rewrite Hm. cbn [rbind]. apply IH; assumption.
Qed.

Lemma pool_accumulate_mismatch (f : fl -> fl -> fl) (enc : hidden_states)
    (idx n : nat) (layers : list nat) (acc : matrix) :
  n <> PLACEHOLDER_ROWS -> n <> 1%nat -> layers <> [] ->
  well_shaped PLACEHOLDER_ROWS HIDDEN acc ->
  layers_shaped enc layers idx n HIDDEN = true ->
  pool_accumulate f enc layers idx acc = Raise RuntimeError.
Proof.
  intros Hn256 Hn1 Hne Hacc Hdocs. destruct layers as [|layer rest]; [congruence|].
  apply layers_shaped_cons in Hdocs. destruct Hdocs as [[d [Hd Hshape]] _].
  cbn [pool_accumulate]. rewrite Hd. cbn [rbind].
  rewrite elementwise_rows_mismatch; [reflexivity|].
  destruct Hacc as [_ [-> _]], Hshape as [_ [-> _]].
  unfold broadcast_dim.
  destruct (Nat.eqb_spec PLACEHOLDER_ROWS n) as [Heq|_]; [congruence|].
  destruct (Nat.eqb_spec PLACEHOLDER_ROWS 1) as [Heq|_]; [discriminate Heq|].
  destruct (Nat.eqb_spec n 1) as [Heq|_]; [congruence|reflexivity].
Qed.

(** A tensor of [r] rows against one of [r] rows or of a single row. *)
Lemma elementwise_broadcast_rows (f : fl -> fl -> fl) (a b : matrix) (r c n : nat) :
  well_shaped r c a -> well_shaped n c b -> n = r \/ n = 1%nat ->
  elementwise f a b = OK (Mat c (zip_with (zip_with f) (rows a) (expand r (rows b)))) /\
  well_shaped r c (Mat c (expand r (rows b))) /\
  forall p j, (p < r)%nat ->
    entry (Mat c (expand r (rows b))) p j
    = entry b (if (n =? 1)%nat then 0%nat else p) j.
Proof.
  intros [Hca [Hra Hrowsa]] [Hcb [Hrb Hrowsb]] Hn.
  assert (Hrows : Forall (fun row => List.length row = c) (expand r (rows b))).
  { apply Forall_forall. intros row Hrow. apply expand_In in Hrow.
    rewrite Forall_forall in Hrowsb. now apply Hrowsb. }
  split; [|split].
  - unfold elementwise. rewrite Hra, Hrb, Hca, Hcb, broadcast_dim_same.
    assert (Hdim : broadcast_dim r n = OK r).
    { destruct Hn as [-> | ->]; [apply broadcast_dim_same|].
      unfold broadcast_dim. destruct (Nat.eqb_spec r 1) as [->|_]; [reflexivity|].
      reflexivity. }
    rewrite Hdim. cbn [rbind]. rewrite (expand_same r (rows a)) by exact Hra.
    do 2 f_equal. apply zip_with_ext_in. intros x y Hx Hy.
    rewrite Forall_forall in Hrowsa, Hrows.
    rewrite !expand_same; [reflexivity| |]; auto.
  - unfold well_shaped. cbn [cols rows]. split; [reflexivity|].
    split; [|exact Hrows]. apply expand_length. rewrite Hrb. exact Hn.
  - intros p j Hp. unfold entry. cbn [rows].
    destruct (Nat.eqb_spec n 1) as [->|Hne].
    + destruct (rows b) as [|row0 [|row1 rest]]; try discriminate Hrb.
      cbn [expand]. rewrite nth_repeat_lt by exact Hp. reflexivity.
    + destruct Hn as [-> | ->]; [|congruence].
      rewrite expand_same by exact Hrb. reflexivity.
Qed.

Lemma pool_accumulate_entries (f : fl -> fl -> fl) (enc : hidden_states)
    (idx n : nat) :
  n = PLACEHOLDER_ROWS \/ n = 1%nat ->
  forall layers acc,
    well_shaped PLACEHOLDER_ROWS HIDDEN acc ->
    layers_shaped enc layers idx n HIDDEN = true ->
    exists m, pool_accumulate f enc layers idx acc = OK m /\
              well_shaped PLACEHOLDER_ROWS HIDDEN m /\
              forall p j, (p < PLACEHOLDER_ROWS)%nat -> (j < HIDDEN)%nat ->
                entry m p j =
                fold_left f (map (fun layer => layer_entry enc layer idx p j) layers)
                          (entry acc p j).
Proof.
  intros Hn. induction layers as [|layer rest IH]; intros acc Hacc Hdocs.
  - exists acc. repeat split; try assumption; apply Hacc.
  - apply layers_shaped_cons in Hdocs. destruct Hdocs as [[d [Hd Hshape]] Hrest].
    cbn [pool_accumulate]. rewrite Hd. cbn [rbind].
    destruct (elementwise_broadcast_rows f acc d _ _ _ Hacc Hshape Hn)
      as [Hstep [Hwide Hread]].
    rewrite Hstep. cbn [rbind].
    assert (Hnext : well_shaped PLACEHOLDER_ROWS HIDDEN
                      (Mat HIDDEN (zip_with (zip_with f) (rows acc)
                                            (expand PLACEHOLDER_ROWS (rows d))))).
    { destruct (elementwise_shape f acc _ _ _ _ _ _ _ Hacc Hwide
                  (broadcast_dim_same _) (broadcast_dim_same _)) as [m [Hm Hms]].
      rewrite (elementwise_same_shape f acc _ _ _ Hacc Hwide) in Hm.
      cbn [rows] in Hm. inversion Hm; subst. exact Hms. }
    destruct (IH _ Hnext Hrest) as [m [Hm [Hmshape Hentries]]].
    exists m. split; [exact Hm|]. split; [exact Hmshape|].
    intros p j Hp Hj. rewrite (Hentries p j Hp Hj). cbn [map fold_left].
    pose proof (entry_zip_with f acc (Mat HIDDEN (expand PLACEHOLDER_ROWS (rows d)))
                  _ _ p j Hacc Hwide Hp Hj) as Hzip.
    cbn [rows] in Hzip. rewrite Hzip, (Hread p j Hp).
    replace (layer_entry enc layer idx p j)
      with (entry d (if (n =? 1)%nat then 0%nat else p) j).
    + reflexivity.
    + unfold layer_entry. rewrite Hd. destruct Hshape as [_ [-> _]]. reflexivity.
Qed.

(** The running maximum of numbers from a number: a number that none of
    them exceeds and that is one of them. *)
Lemma fold_max_finite (xs : list fl) :
  Forall finite xs ->
  forall a, exists r,
    fold_left fl_max xs (Fin a) = Fin r /\
    (a <= r)%Q /\
    (forall v, In v xs -> fl_le v (Fin r)) /\
    In (Fin r) (Fin a :: xs).
Proof.
  induction 1 as [|x xs [q ->] _ IH]; intros a.
  - exists a. split; [reflexivity|]. split; [apply Qle_refl|].
    split; [intros v []|now left].
  - cbn [fold_left fl_max]. destruct (Qlt_le_dec a q) as [Hlt|Hle].
    + destruct (IH q) as [r [Hr [Hqr [Hall Hin]]]].
      exists r. split; [exact Hr|]. split.
      * apply Qle_trans with q; [now apply Qlt_le_weak|exact Hqr].
      * split.
        -- intros v [<-|Hv]; [exact Hqr|now apply Hall].
        -- right. exact Hin.
    + destruct (IH a) as [r [Hr [Har [Hall Hin]]]].
      exists r. split; [exact Hr|]. split; [exact Har|]. split.
      * intros v [<-|Hv]; [|now apply Hall].
        cbn [fl_le]. now apply Qle_trans with a.
      * destruct Hin as [Hin|Hin]; [now left|right; now right].
Qed.

Lemma fold_max_NaN (xs : list fl) : fold_left fl_max xs NaN = NaN.
Proof. induction xs as [|x xs IH]; [reflexivity|exact IH]. Qed.

(** A NaN among the values makes the running maximum NaN. *)
Lemma fold_max_not_finite (xs : list fl) :
  ~ Forall finite xs -> forall a, fold_left fl_max xs a = NaN.
Proof.
  induction xs as [|x xs IH]; intros Hnot a.
  - exfalso. apply Hnot. constructor.
  - cbn [fold_left]. destruct x as [q|].
    + destruct a as [b|]; [|apply fold_max_NaN].
      apply IH. intros Hfin. apply Hnot. constructor; [now exists q|exact Hfin].
    + replace (fl_max a NaN) with NaN by (destruct a; reflexivity).
      apply fold_max_NaN.
Qed.

(** C10.  Over a layer list whose documents have a shape the placeholder
    accepts (256 positions, or a single one that is broadcast; width 768),
    word pooling with [max] gives at every position and coordinate the
    maximum of the selected layers' values and of the sentinel -100 the
    placeholder is filled with.  When these values are numbers, the pooled
    value is at least -100 and at least every one of them, and it is -100
    or one of them; a NaN among them makes it NaN.  Where every selected
    layer is below -100 the pooled value is -100, not the maximum of the
    layers. *)
Theorem word_pooling_max_clamped (enc : hidden_states) (layers : list nat)
    (idx n : nat)
    (Hn : n = PLACEHOLDER_ROWS \/ n = 1%nat)
    (Hdocs : layers_shaped enc layers idx n HIDDEN = true) :
  exists m,
    word_pooling enc layers idx "max" = OK (Words m) /\
    forall p j, (p < PLACEHOLDER_ROWS)%nat -> (j < HIDDEN)%nat ->
      let values := map (fun layer => layer_entry enc layer idx p j) layers in
      entry m p j = fold_left fl_max values (Fin (-100)) /\
      (Forall finite values ->
       fl_le (Fin (-100)) (entry m p j) /\
       (forall v, In v values -> fl_le v (entry m p j)) /\
       In (entry m p j) (Fin (-100) :: values)) /\
      (~ Forall finite values -> entry m p j = NaN) /\
      ((forall layer, In layer layers ->
          exists q, layer_entry enc layer idx p j = Fin q /\ (q < -100)%Q) ->
       entry m p j = Fin (-100)).
Proof.
  destruct (pool_accumulate_entries fl_max enc idx n Hn layers
              (placeholder (Fin (-100))) (placeholder_shape _) Hdocs)
    as [m [Hm [_ Hentries]]].
  exists m. split.
  - dispatch_word_pooling.
    rewrite Hm. reflexivity.
  - intros p j Hp Hj. cbv zeta.
    rewrite (Hentries p j Hp Hj), placeholder_entry by assumption.
    split; [reflexivity|]. split; [|split].
    + intros Hfin.
      destruct (fold_max_finite _ Hfin (-100)%Q) as [r [-> [Hlow [Hall Hin]]]].
      split; [exact Hlow|]. split; [exact Hall|exact Hin].
    + intros Hnot. now apply fold_max_not_finite.
    + intros Hbelow. clear Hentries Hm Hdocs.
      induction layers as [|layer rest IH]; [reflexivity|].
      cbn [map fold_left].
      destruct (Hbelow layer (or_introl eq_refl)) as [q [-> Hq]].
      cbn [fl_max]. destruct (Qlt_le_dec (-100) q) as [Hlt|_].
      * exfalso. apply (Qlt_irrefl q). now apply Qlt_trans with (-100)%Q.
      * apply IH. intros layer' Hin. apply Hbelow. now right.
Qed.

Lemma word_pooling_max_clamped_witness :
  exists m,
    word_pooling (constant_states 256 1 (Fin (-200))) [11%nat; 12%nat] 0 "max"
    = OK (Words m) /\
    entry m 0 0 = Fin (-100).
Proof.
  destruct (word_pooling_max_clamped (constant_states 256 1 (Fin (-200)))
              [11%nat; 12%nat] 0%nat 256%nat (or_introl eq_refl)
              ltac:(vm_compute; reflexivity))
    as [m [Hm Hentries]].
  exists m. split; [exact Hm|].
  apply (Hentries 0%nat 0%nat); [unfold PLACEHOLDER_ROWS; lia|unfold HIDDEN; lia|].
  intros layer [<-|[<-|[]]]; exists (-200)%Q; split; reflexivity.
Defined.

(** C9 (amended).  Over a non-empty layer list whose documents all have [n] positions
    of width 768, word pooling with [average] or [max] accumulates into the
    256 x 768 placeholder: it succeeds, with a result of that shape, when [n]
    is 256 and also when [n] is 1 (the single row is broadcast), and the
    elementwise operation fails for every other [n]. *)
Theorem word_pooling_placeholder_rows (enc : hidden_states) (layers : list nat)
    (idx n : nat) (method : string)
    (Hmethod : method = "average"%string \/ method = "max"%string)
    (Hlayers : layers <> [])
    (Hdocs : layers_shaped enc layers idx n HIDDEN = true) :
  (n = PLACEHOLDER_ROWS \/ n = 1%nat ->
     exists m, word_pooling enc layers idx method = OK (Words m) /\
               well_shaped PLACEHOLDER_ROWS HIDDEN m) /\
  (n <> PLACEHOLDER_ROWS -> n <> 1%nat ->
     word_pooling enc layers idx method = Raise RuntimeError).
Proof.
  split.
  - intros Hn. destruct Hmethod as [-> | ->].
    + destruct (pool_accumulate_broadcast fl_add enc idx n Hn layers
                  (placeholder (Fin 0)) (placeholder_shape _) Hdocs) as [m [Hm Hshape]].
      exists (divide_by (List.length layers) m). split.
      * dispatch_word_pooling.
        rewrite Hm. reflexivity.
      * now apply divide_by_shape.
    + destruct (pool_accumulate_broadcast fl_max enc idx n Hn layers
                  (placeholder (Fin (-100))) (placeholder_shape _) Hdocs)
        as [m [Hm Hshape]].
      exists m. split; [|exact Hshape].
      dispatch_word_pooling.
      rewrite Hm. reflexivity.
  - intros Hn256 Hn1. destruct Hmethod as [-> | ->];
      dispatch_word_pooling;
      rewrite (pool_accumulate_mismatch _ enc idx n)
        by (assumption || apply placeholder_shape); reflexivity.
Qed.

Lemma word_pooling_placeholder_rows_witness :
  word_pooling (constant_states 8 1 (Fin 3)) [11%nat] 0 "average"
  = Raise RuntimeError.
Proof.
  apply (proj2 (word_pooling_placeholder_rows (constant_states 8 1 (Fin 3))
                  [11%nat] 0%nat 8%nat "average" (or_introl eq_refl)
                  ltac:(discriminate) ltac:(vm_compute; reflexivity)));
    unfold PLACEHOLDER_ROWS; lia.
Defined.

(** Hidden states of a single position are accepted by the placeholder. *)
Lemma word_pooling_one_position_succeeds :
  layers_shaped (constant_states 1 1 (Fin 3)) [11%nat] 0 1 HIDDEN = true /\
  1%nat <> PLACEHOLDER_ROWS /\
  is_OK (word_pooling (constant_states 1 1 (Fin 3)) [11%nat] 0 "average") = true /\
  is_OK (word_pooling (constant_states 1 1 (Fin 3)) [11%nat] 0 "max") = true.
Proof.
  split; [vm_compute; reflexivity|]. split; [discriminate|].
  split; vm_compute; reflexivity.
Qed.

(** ** Argument checks (C6, C8) *)

Lemma check_choice_raises (x : pyval) (options : list string) (e : exn) :
  check_choice x options = Raise e -> ValidationError e.
Proof.
  unfold check_choice. destruct x; try (intros H; inversion H; now right).
  destruct (existsb _ _); intros H; inversion H. now right.
Qed.

Lemma check_batch_size_raises (x : pyval) (e : exn) :
  check_batch_size x = Raise e -> ValidationError e.
Proof.
  unfold check_batch_size. destruct x; try (intros H; inversion H; now left).
  destruct (z <=? 0); intros H; inversion H. now right.
Qed.

Lemma check_batch_size_OK (x : pyval) :
  is_OK (check_batch_size x) = true <-> positive_int x.
Proof.
  unfold check_batch_size, positive_int. split.
  - destruct x; try discriminate.
    destruct (Z.leb_spec z 0); [discriminate|]. intros _. exists z. split; [reflexivity|lia].
  - intros [z [-> Hz]]. destruct (Z.leb_spec z 0); [lia|reflexivity].
Qed.

Lemma check_path_raises (x : pyval) (e : exn) :
  check_path x = Raise e -> ValidationError e.
Proof. unfold check_path. destruct x; intros H; inversion H; now left. Qed.

Lemma check_layer_list_raises (l : list pyval) (e : exn) :
  check_layer_list l = Raise e -> ValidationError e.
Proof.
  induction l as [|x l IH]; [discriminate|].
  cbn [check_layer_list].
  destruct x; try (intros H; inversion H; now left).
  destruct (orb (12 <? z) (z <? 1)); [intros H; inversion H; now right|].
  destruct (check_layer_list l) as [ls|e']; [discriminate|].
  intros H; inversion H; subst. now apply IH.
Qed.

Lemma check_layer_list_OK (l : list pyval) :
  is_OK (check_layer_list l) = true <-> Forall layer_in_range l.
Proof.
  induction l as [|x l IH]; [split; [constructor|reflexivity]|].
  cbn [check_layer_list]. split.
  - destruct x; try discriminate.
    destruct (Z.ltb_spec 12 z); [discriminate|].
    destruct (Z.ltb_spec z 1); [discriminate|]. cbn [orb].
    destruct (check_layer_list l) as [ls|e]; [|discriminate].
    intros _. constructor.
    + exists z. split; [reflexivity|lia].
    + now apply IH.
  - intros H. inversion H as [|? ? [z [-> Hz]] Hl]; subst.
    destruct (Z.ltb_spec 12 z); [lia|]. destruct (Z.ltb_spec z 1); [lia|].
    cbn [orb]. apply IH in Hl.
    destruct (check_layer_list l); [reflexivity|discriminate].
Qed.

Lemma check_layers_raises (x : pyval) (e : exn) :
  check_layers x = Raise e -> ValidationError e.
Proof.
  unfold check_layers. destruct x; try (intros H; inversion H; now left).
  - destruct (orb (12 <? z) (z <? 1)); intros H; inversion H. now right.
  - destruct (check_layer_list l) as [ls|e'] eqn:Hl; [discriminate|].
    intros H; inversion H; subst. now apply check_layer_list_raises in Hl.
Qed.

Lemma check_layers_OK (x : pyval) :
  is_OK (check_layers x) = true <-> accepted_layers x.
Proof.
  unfold check_layers, accepted_layers, layer_in_range. split.
  - destruct x; try discriminate.
    + destruct (Z.ltb_spec 12 z); [discriminate|].
      destruct (Z.ltb_spec z 1); [discriminate|].
      intros _. left. exists z. split; [reflexivity|lia].
    + intros H. right. exists l. split; [reflexivity|].
      apply check_layer_list_OK.
      destruct (check_layer_list l); [reflexivity|discriminate].
  - intros [[z [-> Hz]] | [l [-> Hl]]].
    + destruct (Z.ltb_spec 12 z); [lia|]. destruct (Z.ltb_spec z 1); [lia|].
      reflexivity.
    + apply check_layer_list_OK in Hl.
      destruct (check_layer_list l); [reflexivity|discriminate].
Qed.

Lemma validate_raises (s w ls n p : pyval) (e : exn) :
  validate s w ls n p = Raise e -> ValidationError e.
Proof.
  unfold validate.
  destruct (check_choice s _) eqn:Hs;
    [|intros H; failed_check H check_choice_raises Hs].
  destruct (check_choice w _) eqn:Hw;
    [|intros H; failed_check H check_choice_raises Hw].
  destruct (check_batch_size n) eqn:Hn;
    [|intros H; failed_check H check_batch_size_raises Hn].
  destruct (check_path p) eqn:Hp;
    [|intros H; failed_check H check_path_raises Hp].
  destruct (check_layers ls) eqn:Hl;
    [|intros H; failed_check H check_layers_raises Hl].
  discriminate.
Qed.

(** [validate] succeeds only when each of the five checks does. *)
Lemma validate_OK (s w ls n p : pyval) :
  is_OK (validate s w ls n p) = true ->
  is_OK (check_batch_size n) = true /\ is_OK (check_layers ls) = true.
Proof.
  unfold validate.
  destruct (check_choice s _); [|discriminate].
  destruct (check_choice w _); [|discriminate].
  destruct (check_batch_size n); [|discriminate].
  destruct (check_path p); [|discriminate].
  destruct (check_layers ls); [|discriminate].
  split; reflexivity.
Qed.

(** A failed validation ends [forward_and_pool] with the world untouched. *)
Lemma forward_and_pool_invalid model pad ids masks (s w ls n p : pyval) (wd : world) :
  is_OK (validate s w ls n p) = false ->
  exists e, forward_and_pool model pad ids masks s w ls n p wd = (Raise e, wd) /\
            ValidationError e.
Proof.
  intros H. unfold forward_and_pool, bind, lift.
  destruct (validate s w ls n p) as [cfg|e] eqn:Hv; [discriminate|].
  exists e. split; [reflexivity|]. eapply validate_raises; eassumption.
Qed.

(** C8.  A [batch_size] that is not a positive int (zero, negative, or of
    another type) makes [forward_and_pool] raise TypeError or ValueError and
    leaves the world as it found it: no call of the encoder is made. *)
Theorem invalid_batch_size_fails_before_inference
    (model : list (list Z) -> list (list Z) -> result hidden_states) (pad : Z)
    (input_ids_tensor masks_tensor : list (list Z))
    (sentence_pooling_method word_pooling_method layers batch_size path_to_save : pyval)
    (w : world)
    (Hbad : ~ positive_int batch_size) :
  let run := forward_and_pool model pad input_ids_tensor masks_tensor
                              sentence_pooling_method word_pooling_method layers
                              batch_size path_to_save w in
  (exists e, fst run = Raise e /\ ValidationError e) /\
  inference_calls (snd run) = inference_calls w /\
  saved (snd run) = saved w.
Proof.
  destruct (forward_and_pool_invalid model pad input_ids_tensor masks_tensor
              sentence_pooling_method word_pooling_method layers batch_size
              path_to_save w) as [e [He Hval]].
  - destruct (is_OK (validate _ _ _ _ _)) eqn:Hv; [|reflexivity].
    apply validate_OK in Hv. destruct Hv as [Hn _].
    apply check_batch_size_OK in Hn. contradiction.
  - cbv zeta. rewrite He. cbn [fst snd]. split; [|split; reflexivity].
    exists e. split; [reflexivity|exact Hval].
Qed.

Lemma invalid_batch_size_fails_before_inference_witness :
  let run := forward_and_pool (fun ids _ => OK (constant_states 8 (List.length ids) (Fin 3)))
                              2 [[0; 20; 1; 2; 2; 2; 2; 2]] [[1; 1; 1; 0; 0; 0; 0; 0]]
                              (PyStr "average") (PyStr "average") (PyInt 11)
                              (PyInt 0) PyNone initial_world in
  (exists e, fst run = Raise e /\ ValidationError e) /\
  inference_calls (snd run) = 0%nat /\
  saved (snd run) = [].
Proof.
  apply (invalid_batch_size_fails_before_inference
           (fun ids _ => OK (constant_states 8 (List.length ids) (Fin 3)))
           2 [[0; 20; 1; 2; 2; 2; 2; 2]] [[1; 1; 1; 0; 0; 0; 0; 0]]
           (PyStr "average") (PyStr "average") (PyInt 11) (PyInt 0) PyNone
           initial_world).
  intros [z [Hz Hpos]]. inversion Hz; subst. lia.
Defined.

(** The empty list passes the checks: the run goes on to the encoder and
    returns one vector (of 0/0 entries) for the document. *)
Lemma empty_layer_list_accepted :
  forward_and_pool constant_model 2 [[0; 20; 1; 2; 2; 2; 2; 2]]
                   [[1; 1; 1; 0; 0; 0; 0; 0]]
                   (PyStr "average") (PyStr "average") (PyList []) (PyInt 2) PyNone
                   initial_world
  = (OK [Tensor1 (repeat NaN HIDDEN)], World 1 []).
Proof. vm_compute. reflexivity. Qed.

(** C6 (amended).  The check of [layers] lets through exactly an int of
    [1, 12] or a list, empty or not, of ints of [1, 12]; for every other
    argument [forward_and_pool] raises TypeError or ValueError before any
    call of the encoder. *)
Theorem invalid_layers_rejected
    (model : list (list Z) -> list (list Z) -> result hidden_states) (pad : Z)
    (input_ids_tensor masks_tensor : list (list Z))
    (sentence_pooling_method word_pooling_method layers batch_size path_to_save : pyval)
    (w : world) :
  let run := forward_and_pool model pad input_ids_tensor masks_tensor
                              sentence_pooling_method word_pooling_method layers
                              batch_size path_to_save w in
  (is_OK (check_layers layers) = true <-> accepted_layers layers) /\
  (~ accepted_layers layers ->
   (exists e, fst run = Raise e /\ ValidationError e) /\
   inference_calls (snd run) = inference_calls w).
Proof.
  cbv zeta. split; [apply check_layers_OK|].
  intros Hbad.
  destruct (forward_and_pool_invalid model pad input_ids_tensor masks_tensor
              sentence_pooling_method word_pooling_method layers batch_size
              path_to_save w) as [e [He Hval]].
  - destruct (is_OK (validate _ _ _ _ _)) eqn:Hv; [|reflexivity].
    apply validate_OK in Hv. destruct Hv as [_ Hl].
    apply check_layers_OK in Hl. contradiction.
  - rewrite He. cbn [fst snd]. split; [|reflexivity].
    exists e. split; [reflexivity|exact Hval].
Qed.

Lemma invalid_layers_rejected_witness :
  exists e,
    fst (forward_and_pool constant_model 2 [[0; 20; 1; 2; 2; 2; 2; 2]]
                          [[1; 1; 1; 0; 0; 0; 0; 0]]
                          (PyStr "average") (PyStr "average")
                          (PyList [PyInt 11; PyInt 13]) (PyInt 2) PyNone initial_world)
    = Raise e /\ ValidationError e.
Proof.
  refine (proj1 (proj2 (invalid_layers_rejected constant_model 2
            [[0; 20; 1; 2; 2; 2; 2; 2]] [[1; 1; 1; 0; 0; 0; 0; 0]]
            (PyStr "average") (PyStr "average") (PyList [PyInt 11; PyInt 13])
            (PyInt 2) PyNone initial_world) _)).
  intros [[z [Hz _]] | [l [Hl Hall]]]; [discriminate Hz|].
  inversion Hl; subst l.
  inversion Hall as [|? ? _ Hrest]; subst.
  inversion Hrest as [|? ? [z [Hz Hrange]] _]; subst.
  inversion Hz; subst. lia.
Defined.

(** ** Tokenization (C7) *)

Lemma encode_all_Forall2 (tokenizer_encode : string -> Z -> result (list Z))
    (data : list string) (MAX_LEN : Z) (ids : list (list Z)) :
  encode_all tokenizer_encode data MAX_LEN = OK ids <->
  Forall2 (fun text row => tokenizer_encode text MAX_LEN = OK row) data ids.
Proof.
  revert ids. induction data as [|text data IH]; intros ids; cbn [encode_all].
  - split; intros H; inversion H; [constructor|reflexivity].
  - split.
    + intros H. apply rbind_OK in H. destruct H as [row [Hrow H]].
      apply rbind_OK in H. destruct H as [others [Hothers H]]. inversion H; subst.
      constructor; [exact Hrow|now apply IH].
    + intros H. inversion H as [|? row ? others Hrow Hothers]; subst.
      rewrite Hrow. cbn [rbind]. apply IH in Hothers. now rewrite Hothers.
Qed.

Lemma encode_all_raises (tokenizer_encode : string -> Z -> result (list Z))
    (data : list string) (MAX_LEN : Z) (e : exn) :
  encode_all tokenizer_encode data MAX_LEN = Raise e ->
  exists text, In text data /\ tokenizer_encode text MAX_LEN = Raise e.
Proof.
  induction data as [|text data IH]; cbn [encode_all]; [discriminate|].
  destruct (tokenizer_encode text MAX_LEN) as [row|e'] eqn:Hrow; cbn [rbind].
  - destruct (encode_all tokenizer_encode data MAX_LEN) as [others|e'']; cbn [rbind];
      [discriminate|].
    intros H. destruct (IH H) as [text' [Hin Hraise]].
    exists text'. split; [now right|exact Hraise].
  - intros H. inversion H; subst. exists text. split; [now left|exact Hrow].
Qed.

Lemma encode_all_ext (tokenizer_encode : string -> Z -> result (list Z))
    (data : list string) (MAX_LEN MAX_LEN' : Z) :
  (forall text, In text data ->
     tokenizer_encode text MAX_LEN = tokenizer_encode text MAX_LEN') ->
  encode_all tokenizer_encode data MAX_LEN = encode_all tokenizer_encode data MAX_LEN'.
Proof.
  induction data as [|text data IH]; intros Hsame; [reflexivity|].
  cbn [encode_all]. rewrite (Hsame text (or_introl eq_refl)).
  rewrite IH; [reflexivity|]. intros text' Hin. apply Hsame. now right.
Qed.

Lemma np_array_rectangular {A : Type} (numpy : numpy_release) (t : list (list A)) :
  rectangular t = true -> np_array numpy t = OK t.
Proof. intros H. unfold np_array. now rewrite H. Qed.

Lemma np_array_OK {A : Type} (numpy : numpy_release) (t t' : list (list A)) :
  np_array numpy t = OK t' ->
  t' = t /\ (numpy = RaggedRefused -> rectangular t = true).
Proof.
  unfold np_array. destruct (rectangular t); [intros H; inversion H; now split|].
  destruct numpy; intros H; inversion H. split; [reflexivity|discriminate].
Qed.

Lemma np_array_raises {A : Type} (numpy : numpy_release) (t : list (list A)) (e : exn) :
  np_array numpy t = Raise e ->
  numpy = RaggedRefused /\ rectangular t = false /\ e = ValueError.
Proof.
  unfold np_array. destruct (rectangular t); [discriminate|].
  destruct numpy; intros H; inversion H. now repeat split.
Qed.

(** What a successful [tokenize] went through. *)
Lemma tokenize_OK (pad : Z) (tokenizer_tokenize : string -> list string)
    (tokenizer_encode : string -> Z -> result (list Z)) (numpy : numpy_release)
    (data : list string) (MAX_LEN : Z)
    (tokenized_texts : list (list string)) (input_ids masks : list (list Z)) :
  tokenize pad tokenizer_tokenize tokenizer_encode numpy data MAX_LEN
  = OK (tokenized_texts, input_ids, masks) ->
  tokenized_texts = map tokenizer_tokenize data /\
  encode_all tokenizer_encode data MAX_LEN = OK input_ids /\
  masks = map (seq_mask pad) input_ids /\
  rectangular input_ids = true /\
  (numpy = RaggedRefused -> rectangular (map tokenizer_tokenize data) = true).
Proof.
  unfold tokenize. intros H.
  apply rbind_OK in H. destruct H as [toks [Htoks H]].
  apply rbind_OK in H. destruct H as [encoded [Henc H]].
  apply rbind_OK in H. destruct H as [ids [Hids H]].
  apply rbind_OK in H. destruct H as [tensor [Htensor H]].
  apply np_array_OK in Htoks. destruct Htoks as [-> Htoks].
  apply np_array_OK in Hids. destruct Hids as [-> _].
  unfold torch_tensor in Htensor.
  destruct (rectangular encoded) eqn:Hrect; [|discriminate].
  inversion Htensor; subst tensor. inversion H; subst.
  repeat split; try reflexivity; assumption.
Qed.

(** Whatever the tokenizer, the pad id and the release of numpy, [tokenize]
    returns for [MAX_LEN] 0: on no document, without any call of the
    tokenizer, and on one document as soon as the tokenizer gives it a row. *)
Lemma tokenize_returns_for_max_len_zero :
  exists MAX_LEN : Z,
    MAX_LEN <= 0 /\
    (forall pad tokenizer_tokenize tokenizer_encode numpy,
        tokenize pad tokenizer_tokenize tokenizer_encode numpy [] MAX_LEN
        = OK ([], [], [])) /\
    (forall pad tokenizer_tokenize tokenizer_encode numpy text row,
        tokenizer_encode text MAX_LEN = OK row ->
        tokenize pad tokenizer_tokenize tokenizer_encode numpy [text] MAX_LEN
        = OK ([tokenizer_tokenize text], [row], [seq_mask pad row])).
Proof.
  exists 0. split; [lia|]. split.
  - intros pad tt te numpy. reflexivity.
  - intros pad tt te numpy text row Hrow. unfold tokenize. cbn [map encode_all].
    rewrite Hrow. reflexivity.
Qed.

(** C7 (amended).  [tokenize] makes no check of [MAX_LEN], whatever its
    sign, and raises nothing of its own.  It returns the token lists, the
    rows the tokenizer encodes the documents to and their masks whenever
    these rows have one length and the token lists have one length or numpy
    takes lists of unequal lengths.  When it fails, the token lists have
    unequal lengths and numpy refuses them (ValueError), or the tokenizer
    fails to encode a document (its exception), or the rows have unequal
    lengths (ValueError from [np.array], or TypeError from [torch.tensor]
    under the older numpy).  Two values of [MAX_LEN] that the tokenizer
    treats alike on the documents give the same outcome, and without
    documents [tokenize] returns empty arrays for every [MAX_LEN]. *)
Theorem tokenize_makes_no_max_len_check
    (pad : Z) (tokenizer_tokenize : string -> list string)
    (tokenizer_encode : string -> Z -> result (list Z)) (numpy : numpy_release)
    (data : list string) (MAX_LEN : Z) :
  (forall ids,
      Forall2 (fun text row => tokenizer_encode text MAX_LEN = OK row) data ids ->
      rectangular ids = true ->
      (numpy = RaggedRefused -> rectangular (map tokenizer_tokenize data) = true) ->
      tokenize pad tokenizer_tokenize tokenizer_encode numpy data MAX_LEN
      = OK (map tokenizer_tokenize data, ids, map (seq_mask pad) ids)) /\
  (forall e,
      tokenize pad tokenizer_tokenize tokenizer_encode numpy data MAX_LEN = Raise e ->
      (numpy = RaggedRefused /\ rectangular (map tokenizer_tokenize data) = false /\
       e = ValueError) \/
      (exists text, In text data /\ tokenizer_encode text MAX_LEN = Raise e) \/
      (exists ids,
          Forall2 (fun text row => tokenizer_encode text MAX_LEN = OK row) data ids /\
          rectangular ids = false /\
          e = match numpy with
              | RaggedRefused => ValueError
              | RaggedAsObjects => TypeError
              end)) /\
  (forall MAX_LEN',
      (forall text, In text data ->
         tokenizer_encode text MAX_LEN = tokenizer_encode text MAX_LEN') ->
      tokenize pad tokenizer_tokenize tokenizer_encode numpy data MAX_LEN
      = tokenize pad tokenizer_tokenize tokenizer_encode numpy data MAX_LEN') /\
  (data = [] ->
   tokenize pad tokenizer_tokenize tokenizer_encode numpy data MAX_LEN
   = OK ([], [], [])).
Proof.
  split; [|split; [|split]].
  - intros ids Hids Hrect Htoks. unfold tokenize.
    assert (Harray : np_array numpy (map tokenizer_tokenize data)
                     = OK (map tokenizer_tokenize data)).
    { unfold np_array. destruct (rectangular (map tokenizer_tokenize data)) eqn:Hr;
        [reflexivity|]. destruct numpy; [reflexivity|].
      specialize (Htoks eq_refl). discriminate. }
    rewrite Harray. cbn [rbind]. apply encode_all_Forall2 in Hids. rewrite Hids.
    cbn [rbind]. rewrite (np_array_rectangular numpy ids Hrect). cbn [rbind].
    unfold torch_tensor. rewrite Hrect. reflexivity.
  - intros e. unfold tokenize.
    destruct (np_array numpy (map tokenizer_tokenize data)) as [toks|e1] eqn:Htoks;
      cbn [rbind].
    + destruct (encode_all tokenizer_encode data MAX_LEN) as [encoded|e2] eqn:Henc;
        cbn [rbind].
      * apply encode_all_Forall2 in Henc.
        destruct (np_array numpy encoded) as [ids|e3] eqn:Hids; cbn [rbind].
        -- apply np_array_OK in Hids. destruct Hids as [-> Hnp].
           unfold torch_tensor. destruct (rectangular encoded) eqn:Hrect; cbn [rbind];
             [discriminate|].
           intros H. inversion H; subst e. right. right. exists encoded.
           split; [exact Henc|]. split; [exact Hrect|].
           destruct numpy; [reflexivity|]. specialize (Hnp eq_refl). discriminate.
        -- intros H. inversion H; subst e3.
           apply np_array_raises in Hids. destruct Hids as [-> [Hrect ->]].
           right. right. exists encoded. now repeat split.
      * intros H. inversion H; subst e2. right. left.
        now apply encode_all_raises.
    + intros H. inversion H; subst e1. left. now apply np_array_raises.
  - intros MAX_LEN' Hsame. unfold tokenize.
    now rewrite (encode_all_ext tokenizer_encode data MAX_LEN MAX_LEN' Hsame).
  - intros ->. reflexivity.
Qed.

Lemma tokenize_makes_no_max_len_check_witness :
  tokenize 2 sample_tokenize sample_encode RaggedAsObjects
           ["bonjour"; "le chat mange"]%string 6
  = OK (map sample_tokenize ["bonjour"; "le chat mange"]%string,
        [[0; 2338; 1; 2; 2; 2]; [0; 20; 130; 1547; 1; 2]],
        map (seq_mask 2) [[0; 2338; 1; 2; 2; 2]; [0; 20; 130; 1547; 1; 2]]).
Proof.
  apply (proj1 (tokenize_makes_no_max_len_check 2 sample_tokenize sample_encode
                  RaggedAsObjects ["bonjour"; "le chat mange"]%string 6)).
  - repeat constructor.
  - reflexivity.
  - discriminate.
Defined.

(** The mask of a row marks exactly the ids other than the pad. *)
Lemma seq_mask_spec (pad : Z) (row : list Z) (i : nat) (x : Z) :
  nth_error row i = Some x ->
  nth_error (seq_mask pad row) i = Some (if x =? pad then 0 else 1).
Proof. intros H. unfold seq_mask. now rewrite nth_error_map, H. Qed.

(** ** The scenario of three documents (C1) *)

Lemma scenario_tokenized :
  tokenize 2 sample_tokenize sample_encode RaggedAsObjects scenario_documents 8
  = OK (map sample_tokenize scenario_documents,
        [[0; 20; 130; 1547; 1; 2; 2; 2];
         [0; 20; 436; 2810; 1023; 1; 2; 2];
         [0; 2338; 1; 2; 2; 2; 2; 2]],
        [[1; 1; 1; 1; 1; 0; 0; 0];
         [1; 1; 1; 1; 1; 1; 0; 0];
         [1; 1; 1; 0; 0; 0; 0; 0]]).
Proof. reflexivity. Qed.

(** C1.  In the scenario (three documents, [MAX_LEN] 8, batches of 2, both
    poolings [average], [layers] the int 11) [vectorize] does not return
    three vectors of width 768: the loop of lines 259-260 appends the 768
    coordinates of each pooled vector one by one, so that the result is a
    flat list of 3 x 768 0-d tensors, document after document.  This is
    with the numpy of the date of the source; from numpy 1.24 on the run
    does not get that far, the token lists of the three documents having
    unequal lengths: line 86 raises ValueError before any call of the
    encoder. *)
Theorem vectorize_scenario_flattened :
  let run := vectorize embedding_model 2 sample_tokenize sample_encode RaggedAsObjects
                       scenario_documents 8
                       (PyStr "average") (PyStr "average") (PyInt 11) (PyInt 2)
                       PyNone initial_world in
  fst run = OK (repeat (Tensor0 (Fin (1697 # 3))) HIDDEN ++
                repeat (Tensor0 (Fin (4289 # 4))) HIDDEN ++
                repeat (Tensor0 (Fin (2338 # 1))) HIDDEN) /\
  (forall items, fst run = OK items -> List.length items = 2304%nat) /\
  inference_calls (snd run) = 2%nat /\
  vectorize embedding_model 2 sample_tokenize sample_encode RaggedRefused
            scenario_documents 8
            (PyStr "average") (PyStr "average") (PyInt 11) (PyInt 2)
            PyNone initial_world
  = (Raise ValueError, initial_world).
Proof.
  cbv zeta.
  assert (Hrun : fst (vectorize embedding_model 2 sample_tokenize sample_encode
                        RaggedAsObjects scenario_documents 8
                        (PyStr "average") (PyStr "average") (PyInt 11) (PyInt 2)
                        PyNone initial_world)
                 = OK (repeat (Tensor0 (Fin (1697 # 3))) HIDDEN ++
                       repeat (Tensor0 (Fin (4289 # 4))) HIDDEN ++
                       repeat (Tensor0 (Fin (2338 # 1))) HIDDEN)).
  { vm_compute. reflexivity. }
  split; [exact Hrun|]. split.
  - intros items Hitems. rewrite Hrun in Hitems.
    apply (f_equal (fun r => match r with
                             | OK l => List.length l
                             | Raise _ => 0%nat
                             end)) in Hitems.
    cbv beta iota in Hitems.
    rewrite <- Hitems, !length_app, !repeat_length. reflexivity.
  - split; vm_compute; reflexivity.
Qed.

(** ** Numerical equality of tensors *)

Lemma fl_eq_refl (a : fl) : fl_eq a a.
Proof. destruct a; simpl; [reflexivity|exact I]. Qed.

Section Forall2Facts.
Context {A B : Type} (R : A -> B -> Prop).

Lemma Forall2_nth (l : list A) (l' : list B) (d : A) (d' : B) :
  Forall2 R l l' -> R d d' -> forall j, R (nth j l d) (nth j l' d').
Proof.
  intros H Hd. induction H as [|x y l l' Hxy _ IH]; intros [|j]; simpl; auto.
Qed.

Lemma Forall2_firstn (l : list A) (l' : list B) (n : nat) :
  Forall2 R l l' -> Forall2 R (firstn n l) (firstn n l').
Proof.
  intros H. revert n. induction H as [|x y l l' Hxy _ IH]; intros [|n]; simpl;
    constructor; auto.
Qed.

Lemma Forall2_skipn (l : list A) (l' : list B) (n : nat) :
  Forall2 R l l' -> Forall2 R (skipn n l) (skipn n l').
Proof.
  intros H. revert n. induction H as [|x y l l' Hxy H IH]; intros [|n]; simpl;
    try constructor; auto.
Qed.

Lemma Forall2_map_same {C : Type} (f : C -> A) (g : C -> B) (l : list C) :
  (forall x, In x l -> R (f x) (g x)) -> Forall2 R (map f l) (map g l).
Proof.
  induction l as [|x l IH]; intros H; simpl; constructor.
  - apply H. now left.
  - apply IH. intros y Hy. apply H. now right.
Qed.
End Forall2Facts.

Lemma rows_eq_refl (rs : list (list fl)) : rows_eq rs rs.
Proof.
  unfold rows_eq. rewrite <- (map_id rs) at 2. rewrite <- (map_id rs) at 1.
  apply Forall2_map_same. intros row _.
  rewrite <- (map_id row) at 2. rewrite <- (map_id row) at 1.
  apply Forall2_map_same. intros x _. apply fl_eq_refl.
Qed.

(** *** The operations respect numerical equality *)

Lemma fl_add_eq (a a' b b' : fl) :
  fl_eq a a' -> fl_eq b b' -> fl_eq (fl_add a b) (fl_add a' b').
Proof.
  destruct a, a', b, b'; simpl; try tauto.
  intros H1 H2. now rewrite H1, H2.
Qed.

Lemma fl_sum_eq (l l' : list fl) :
  Forall2 fl_eq l l' -> fl_eq (fl_sum l) (fl_sum l').
Proof.
  unfold fl_sum. generalize (fl_eq_refl (Fin 0)). generalize (Fin 0) at 1 3.
  generalize (Fin 0). intros acc' acc Hacc H. revert acc acc' Hacc.
  induction H as [|x y l l' Hxy _ IH]; intros acc acc' Hacc; simpl; [exact Hacc|].
  apply IH. now apply fl_add_eq.
Qed.

Lemma fl_div_count_eq (a a' : fl) (n : nat) :
  fl_eq a a' -> fl_eq (fl_div_count a n) (fl_div_count a' n).
Proof.
  destruct a, a', n; simpl; try tauto.
  intros H. now rewrite H.
Qed.

Lemma fl_replaces_eq (a a' b b' : fl) :
  fl_eq a a' -> fl_eq b b' -> fl_replaces a b = fl_replaces a' b'.
Proof.
  destruct a as [x|], a' as [x'|], b as [y|], b' as [y'|]; simpl; try tauto.
  intros Hx Hy.
  destruct (Qlt_le_dec x y) as [Hlt|Hle], (Qlt_le_dec x' y') as [Hlt'|Hle'];
    try reflexivity; exfalso.
  - rewrite Hx, Hy in Hlt. exact (Qlt_not_le _ _ Hlt Hle').
  - rewrite Hx, Hy in Hle. exact (Qlt_not_le _ _ Hlt' Hle).
Qed.

Lemma max_scan_eq (xs xs' : list fl) :
  Forall2 fl_eq xs xs' ->
  forall best best' besti i,
    fl_eq best best' ->
    fl_eq (fst (max_scan best besti i xs)) (fst (max_scan best' besti i xs')) /\
    snd (max_scan best besti i xs) = snd (max_scan best' besti i xs').
Proof.
  induction 1 as [|x y xs xs' Hxy _ IH]; intros best best' besti i Hbest; simpl.
  - split; [exact Hbest|reflexivity].
  - rewrite (fl_replaces_eq best best' x y Hbest Hxy).
    destruct (fl_replaces best' y); now apply IH.
Qed.

Lemma column_max_eq (c c' : list fl) :
  Forall2 fl_eq c c' ->
  fl_eq (fst (column_max c)) (fst (column_max c')) /\
  snd (column_max c) = snd (column_max c').
Proof.
  intros H. destruct H as [|x y xs xs' Hxy H]; simpl.
  - split; [exact I|reflexivity].
  - now apply max_scan_eq.
Qed.

Lemma column_eq (j : nat) (rs rs' : list (list fl)) :
  rows_eq rs rs' -> Forall2 fl_eq (column j rs) (column j rs').
Proof.
  intros H. unfold column. induction H as [|r r' rs rs' Hr _ IH]; simpl;
    constructor; [|exact IH].
  apply Forall2_nth; [exact Hr|exact I].
Qed.

Lemma mean_rows_eq (m m' : matrix) :
  cols m = cols m' -> rows_eq (rows m) (rows m') ->
  Forall2 fl_eq (mean_rows m) (mean_rows m').
Proof.
  intros Hc Hr. unfold mean_rows. rewrite <- Hc, <- (Forall2_length Hr).
  apply Forall2_map_same. intros j _.
  apply fl_div_count_eq, fl_sum_eq, column_eq, Hr.
Qed.

Lemma sentence_pooling_eq (w w' : words) (method : string) :
  words_eq w w' ->
  result_eq (sentence_pooling w method) (sentence_pooling w' method).
Proof.
  intros H. unfold sentence_pooling.
  destruct (lower method =? "average")%string.
  - destruct w as [|m], w' as [|m']; simpl in *; try tauto.
    destruct H as [Hc Hr]. now apply mean_rows_eq.
  - destruct (lower method =? "max")%string; [|simpl; constructor].
    destruct w as [|m], w' as [|m']; simpl in *; try tauto.
    destruct H as [Hc Hr]. unfold max_rows. rewrite <- Hc.
    destruct Hr as [|r r' rs rs' Hrr Hrs]; simpl; [reflexivity|].
    assert (Hrows : rows_eq (r :: rs) (r' :: rs')) by now constructor.
    rewrite !map_map. split.
    + apply Forall2_map_same. intros j _.
      apply (column_max_eq (column j (r :: rs)) (column j (r' :: rs'))).
      now apply column_eq.
    + apply map_ext. intros j.
      apply (column_max_eq (column j (r :: rs)) (column j (r' :: rs'))).
      now apply column_eq.
Qed.

Lemma span_eq (eos : Z) (w w' : words) :
  words_eq w w' -> words_eq (span eos w) (span eos w').
Proof.
  destruct w as [|m], w' as [|m']; simpl; try tauto.
  intros [Hc Hr]. split; [exact Hc|].
  unfold span_rows, py_slice_from1, py_slice_to, rows_eq.
  rewrite (Forall2_length Hr).
  apply Forall2_skipn. destruct (eos - 1 <? 0); now apply Forall2_firstn.
Qed.

(** ** One layer given as a list or as an int (C5) *)

Lemma zip_with_repeat_l {A B C} (f : A -> B -> C) (x : A) (l : list B) :
  forall n, List.length l = n -> zip_with f (repeat x n) l = map (f x) l.
Proof.
  induction l as [|y l IH]; intros n Hn; subst n; [reflexivity|].
  simpl. unfold zip_with in *. simpl. f_equal. now apply IH.
Qed.

Lemma rows_eq_map (g : fl -> fl) (P : fl -> Prop) (rs : list (list fl)) :
  Forall (Forall P) rs -> (forall y, P y -> fl_eq (g y) y) ->
  rows_eq (map (map g) rs) rs.
Proof.
  intros Hrs Hg. induction Hrs as [|r rs Hr _ IH]; simpl; constructor; [|exact IH].
  induction Hr as [|y r Hy _ IHr]; simpl; constructor; [now apply Hg|exact IHr].
Qed.

(** Accumulating one layer into a placeholder filled with [x]. *)
Lemma pool_accumulate_single (f : fl -> fl -> fl) (enc : hidden_states)
    (L i : nat) (doc : matrix) (x : fl) :
  layer_doc enc L i = OK doc ->
  well_shaped PLACEHOLDER_ROWS HIDDEN doc ->
  pool_accumulate f enc [L] i (placeholder x)
  = OK (Mat HIDDEN (map (map (f x)) (rows doc))).
Proof.
  intros Hd Hshape. cbn [pool_accumulate]. rewrite Hd. cbn [rbind].
  rewrite (elementwise_same_shape f _ doc _ _ (placeholder_shape x) Hshape).
  cbn [rbind]. do 2 f_equal. unfold placeholder. cbn [rows].
  destruct Hshape as [_ [Hr Hrows]].
  rewrite zip_with_repeat_l by exact Hr.
  apply map_ext_in. intros row Hrow. rewrite Forall_forall in Hrows.
  apply zip_with_repeat_l. now apply Hrows.
Qed.

Lemma average_of_one (y : fl) : fl_eq (fl_div_count (fl_add (Fin 0) y) 1) y.
Proof.
  destruct y as [q|]; simpl; [|exact I].
  change (inject_Z 1) with 1%Q. field.
Qed.

Lemma max_with_sentinel (y : fl) :
  above_sentinel y = true -> fl_eq (fl_max (Fin (-100)) y) y.
Proof.
  destruct y as [q|]; simpl; [|intros _; exact I].
  intros Hle. apply Qle_bool_iff in Hle.
  destruct (Qlt_le_dec (-100) q) as [_|Hge]; simpl; [reflexivity|].
  now apply Qle_antisym.
Qed.

Lemma floor_ok_spec (doc : matrix) :
  floor_ok doc = true ->
  Forall (Forall (fun y => above_sentinel y = true)) (rows doc).
Proof.
  unfold floor_ok. rewrite forallb_forall, Forall_forall. intros H row Hrow.
  apply Forall_forall. apply forallb_forall. now apply H.
Qed.

Lemma Forall_Forall_True (rs : list (list fl)) : Forall (Forall (fun _ => True)) rs.
Proof. apply Forall_forall. intros row _. apply Forall_forall. auto. Qed.

Lemma rows_eq_map_map (g h : fl -> fl) (rs : list (list fl)) :
  map (map g) (map (map h) rs) = map (map (fun y => g (h y))) rs.
Proof.
  rewrite map_map. apply map_ext. intros row. apply map_map.
Qed.

(** For a document whose hidden states at layer [L] have the shape of the
    placeholder (256 positions of width 768), word pooling with [average]
    over the list [[L]] gives word vectors numerically equal to the vectors
    of layer [L] that the int [L] selects, and so does word pooling with
    [max] provided no entry of the layer is below -100; the vector then
    pooled for the document is numerically the same on both paths. *)
Lemma single_layer_list_agrees
    (pad : Z) (input_ids_tensor : list (list Z)) (enc : hidden_states)
    (cfg : config) (L counter idx : nat) (words_vector : list matrix) (doc : matrix)
    (Hmethod : cfg_word cfg = "average"%string \/ cfg_word cfg = "max"%string)
    (Hlayer : py_index enc L = OK words_vector)
    (Hdoc : py_index words_vector (idx - counter) = OK doc)
    (Hshape : has_shape PLACEHOLDER_ROWS HIDDEN doc = true)
    (Hfloor : cfg_word cfg = "max"%string -> floor_ok doc = true) :
  (exists w, word_pooling enc [L] (idx - counter) (cfg_word cfg) = OK w /\
             words_eq w (Words doc)) /\
  result_eq (pool_document_list pad input_ids_tensor enc cfg [L] counter idx)
            (pool_document_scalar pad input_ids_tensor words_vector cfg counter idx).
Proof.
  apply has_shape_spec in Hshape.
  assert (Hld : layer_doc enc L (idx - counter) = OK doc).
  { unfold layer_doc. rewrite Hlayer. exact Hdoc. }
  assert (Hw : exists w, word_pooling enc [L] (idx - counter) (cfg_word cfg) = OK w /\
                         words_eq w (Words doc)).
  { destruct Hmethod as [Hm|Hm]; rewrite Hm.
    - eexists. split.
      + dispatch_word_pooling.
        rewrite (pool_accumulate_single fl_add enc L _ doc (Fin 0) Hld Hshape).
        cbn [rbind]. reflexivity.
      + unfold words_eq, divide_by. cbn [cols rows List.length].
        split; [symmetry; apply Hshape|].
        rewrite rows_eq_map_map.
        apply (rows_eq_map _ (fun _ => True)); [apply Forall_Forall_True|].
        intros y _. apply average_of_one.
    - eexists. split.
      + dispatch_word_pooling.
        rewrite (pool_accumulate_single fl_max enc L _ doc (Fin (-100)) Hld Hshape).
        cbn [rbind]. reflexivity.
      + unfold words_eq. cbn [cols rows]. split; [symmetry; apply Hshape|].
        apply (rows_eq_map _ (fun y => above_sentinel y = true)).
        * apply floor_ok_spec, Hfloor, Hm.
        * apply max_with_sentinel. }
  split; [exact Hw|].
  destruct Hw as [w [Hw Heq]].
  unfold pool_document_list, pool_document_scalar.
  destruct (py_index input_ids_tensor idx) as [row|e]; cbn [rbind]; [|reflexivity].
  destruct (eos_pos pad row) as [eos|e]; cbn [rbind]; [|reflexivity].
  rewrite Hw, Hdoc. cbn [rbind].
  apply sentence_pooling_eq, span_eq, Heq.
Qed.

(** The list [[11]] and the int 11 do not give equivalent outputs: with 8
    positions the list fails where the int returns, and with 256 positions
    of entries -200 the list pools -100 under [max] where the int pools
    -200. *)
Lemma single_layer_list_run_differs :
  fst (forward_and_pool constant_model 2 [[0; 20; 1; 2; 2; 2; 2; 2]]
                        [[1; 1; 1; 0; 0; 0; 0; 0]]
                        (PyStr "average") (PyStr "average") (PyList [PyInt 11])
                        (PyInt 2) PyNone initial_world)
  = Raise RuntimeError /\
  fst (forward_and_pool constant_model 2 [[0; 20; 1; 2; 2; 2; 2; 2]]
                        [[1; 1; 1; 0; 0; 0; 0; 0]]
                        (PyStr "average") (PyStr "average") (PyInt 11)
                        (PyInt 2) PyNone initial_world)
  = OK (repeat (Tensor0 (Fin (3 # 1))) HIDDEN) /\
  fst (forward_and_pool (constant_model_256 (Fin (-200))) 2 [long_row]
                        [seq_mask 2 long_row]
                        (PyStr "average") (PyStr "max") (PyList [PyInt 11])
                        (PyInt 2) PyNone initial_world)
  = OK [Tensor1 (repeat (Fin (-200 # 2)) HIDDEN)] /\
  fst (forward_and_pool (constant_model_256 (Fin (-200))) 2 [long_row]
                        [seq_mask 2 long_row]
                        (PyStr "average") (PyStr "max") (PyInt 11)
                        (PyInt 2) PyNone initial_world)
  = OK (repeat (Tensor0 (Fin (-400 # 2))) HIDDEN).
Proof. repeat split; vm_compute; reflexivity. Qed.

Lemma sentence_pooling_no_RuntimeError (vectors : words) (method : string) :
  sentence_pooling vectors method <> Raise RuntimeError.
Proof.
  unfold sentence_pooling.
  destruct (lower method =? "average")%string; [destruct vectors; discriminate|].
  destruct (lower method =? "max")%string; [|discriminate].
  destruct vectors as [|m]; [discriminate|].
  unfold max_rows. destruct (rows m); discriminate.
Qed.

Lemma entry_map_map (g : fl -> fl) (c : nat) (rs : list (list fl)) (p j : nat) :
  g NaN = NaN ->
  entry (Mat c (map (map g) rs)) p j = g (entry (Mat c rs) p j).
Proof.
  intros Hg. unfold entry. cbn [rows].
  change (@nil fl) with (map g []) at 1. rewrite map_nth.
  rewrite <- Hg at 1. apply map_nth.
Qed.

(** C5.  The list [[L]] and the int [L] are not interchangeable.  Take a
    document with a true length, whose hidden states at layer [L] have [n]
    positions of width 768, and the word pooling method average or max.
    When [n] is neither 256 nor 1 the path of the list raises RuntimeError
    (the 256-row placeholder of [__word_pooling] does not take the layer)
    where the path of the int pools the layer.  When [n] is 256 the two
    paths pool numerically equal vectors, for max provided no entry of the
    layer is below -100: with max the word vectors of the list are the
    entries of the layer raised to the sentinel -100. *)
Theorem single_layer_list_against_scalar
    (pad : Z) (input_ids_tensor : list (list Z)) (enc : hidden_states)
    (cfg : config) (L counter idx n : nat) (words_vector : list matrix) (doc : matrix)
    (row : list Z) (eos : Z)
    (Hmethod : cfg_word cfg = "average"%string \/ cfg_word cfg = "max"%string)
    (Hlayer : py_index enc L = OK words_vector)
    (Hdoc : py_index words_vector (idx - counter) = OK doc)
    (Hrow : py_index input_ids_tensor idx = OK row)
    (Heos : eos_pos pad row = OK eos)
    (Hshape : has_shape n HIDDEN doc = true) :
  let list_path := pool_document_list pad input_ids_tensor enc cfg [L] counter idx in
  let int_path :=
    pool_document_scalar pad input_ids_tensor words_vector cfg counter idx in
  (n <> PLACEHOLDER_ROWS -> n <> 1%nat ->
   list_path = Raise RuntimeError /\
   int_path = sentence_pooling (span eos (Words doc)) (cfg_sentence cfg) /\
   int_path <> Raise RuntimeError /\
   ~ result_eq list_path int_path) /\
  (n = PLACEHOLDER_ROWS ->
   (cfg_word cfg = "max"%string -> floor_ok doc = true) ->
   result_eq list_path int_path) /\
  (n = PLACEHOLDER_ROWS -> cfg_word cfg = "max"%string ->
   exists w,
     word_pooling enc [L] (idx - counter) (cfg_word cfg) = OK (Words w) /\
     forall p j, entry w p j = fl_max (Fin (-100)) (entry doc p j)).
Proof.
  cbv zeta.
  assert (Hld : layer_doc enc L (idx - counter) = OK doc).
  { unfold layer_doc. rewrite Hlayer. exact Hdoc. }
  assert (Hint : pool_document_scalar pad input_ids_tensor words_vector cfg counter idx
                 = sentence_pooling (span eos (Words doc)) (cfg_sentence cfg)).
  { unfold pool_document_scalar. rewrite Hrow. cbn [rbind]. rewrite Heos. cbn [rbind].
    rewrite Hdoc. reflexivity. }
  split; [|split].
  - intros Hn256 Hn1.
    assert (Hlist : pool_document_list pad input_ids_tensor enc cfg [L] counter idx
                    = Raise RuntimeError).
    { unfold pool_document_list. rewrite Hrow. cbn [rbind]. rewrite Heos. cbn [rbind].
      assert (Hdocs : layers_shaped enc [L] (idx - counter) n HIDDEN = true).
      { unfold layers_shaped. cbn [forallb]. rewrite Hld, Hshape. reflexivity. }
      destruct Hmethod as [-> | ->]; dispatch_word_pooling;
        rewrite (pool_accumulate_mismatch _ enc (idx - counter) n [L] _ Hn256 Hn1
                   ltac:(discriminate) (placeholder_shape _) Hdocs);
        reflexivity. }
    split; [exact Hlist|]. split; [exact Hint|].
    assert (Hno : pool_document_scalar pad input_ids_tensor words_vector cfg counter idx
                  <> Raise RuntimeError).
    { rewrite Hint. apply sentence_pooling_no_RuntimeError. }
    split; [exact Hno|].
    rewrite Hlist. intros Heq.
    destruct (pool_document_scalar pad input_ids_tensor words_vector cfg counter idx)
      as [v|e]; [exact Heq|].
    cbn [result_eq] in Heq. apply Hno. now rewrite <- Heq.
  - intros -> Hfloor.
    exact (proj2 (single_layer_list_agrees pad input_ids_tensor enc cfg L counter idx
                    words_vector doc Hmethod Hlayer Hdoc Hshape Hfloor)).
  - intros -> Hmax. apply has_shape_spec in Hshape. rewrite Hmax.
    exists (Mat HIDDEN (map (map (fl_max (Fin (-100)))) (rows doc))). split.
    + dispatch_word_pooling.
      rewrite (pool_accumulate_single fl_max enc L _ doc (Fin (-100)) Hld Hshape).
      reflexivity.
    + intros p j. rewrite entry_map_map by reflexivity. reflexivity.
Qed.

Lemma single_layer_list_against_scalar_witness :
  pool_document_list 2 [[0; 20; 1; 2; 2; 2; 2; 2]] (constant_states 8 1 (Fin 3))
                     (Config "average" "average" (inr [11%nat]) 2 None) [11%nat] 0 0
  = Raise RuntimeError.
Proof.
  refine (proj1 (proj1 (single_layer_list_against_scalar 2
            [[0; 20; 1; 2; 2; 2; 2; 2]] (constant_states 8 1 (Fin 3))
            (Config "average" "average" (inr [11%nat]) 2 None) 11 0 0 8
            [Mat HIDDEN (repeat (repeat (Fin 3) HIDDEN) 8)]
            (Mat HIDDEN (repeat (repeat (Fin 3) HIDDEN) 8))
            [0; 20; 1; 2; 2; 2; 2; 2] 3
            (or_introl eq_refl) _ _ eq_refl eq_refl _) _ _)).
  - vm_compute. reflexivity.
  - vm_compute. reflexivity.
  - vm_compute. reflexivity.
  - unfold PLACEHOLDER_ROWS. lia.
  - lia.
Defined.

(** ** The int path appends coordinates, not vectors *)

(** Whatever the encoder returns, a document pooled with [average] on the
    path of an int [layers] contributes one 0-d tensor per coordinate to
    [texts_vectors]. *)
Lemma scalar_path_appends_coordinates
    (pad : Z) (input_ids_tensor : list (list Z)) (words_vector : list matrix)
    (cfg : config) (counter idx : nat) (pooled : pyobj) :
  cfg_sentence cfg = "average"%string ->
  pool_document_scalar pad input_ids_tensor words_vector cfg counter idx = OK pooled ->
  exists doc v,
    py_index words_vector (idx - counter) = OK doc /\
    pooled = Tensor1 v /\ List.length v = cols doc /\
    py_iter pooled = OK (map Tensor0 v).
Proof.
  intros Hs. unfold pool_document_scalar. rewrite Hs.
  intros H. apply rbind_OK in H. destruct H as [row [_ H]].
  apply rbind_OK in H. destruct H as [eos [_ H]].
  apply rbind_OK in H. destruct H as [doc [Hdoc H]].
  unfold sentence_pooling in H. cbn [lower lower_ascii] in H.
  simpl String.eqb in H. cbn [span words_slice] in H.
  inversion H; subst. eexists doc, _. split; [exact Hdoc|].
  split; [reflexivity|]. split; [|reflexivity].
  unfold mean_rows. cbn [cols]. now rewrite length_map, length_seq.
Qed.
(** * Further properties *)

(** ** The batches of [__batch] *)

Lemma batch_as_nth_batch (l n : nat) :
  batch l n = map (nth_batch l n) (seq 0 (batch_count l n)).
Proof. unfold batch, range_step, batch_count, nth_batch. now rewrite map_map. Qed.

Lemma nth_batch_concat (l n : nat) :
  forall m k0,
    List.concat (map (nth_batch l n) (seq k0 m))
    = seq (Nat.min (k0 * n) l) (Nat.min ((k0 + m) * n) l - Nat.min (k0 * n) l).
Proof.
  induction m as [|m IH]; intros k0.
  - simpl. replace (k0 + 0)%nat with k0 by lia. now rewrite Nat.sub_diag.
  - cbn [seq map List.concat]. rewrite IH. unfold nth_batch.
    destruct (Nat.le_gt_cases (k0 * n) l) as [Hle|Hgt].
    + replace (Nat.min (k0 * n) l) with (k0 * n)%nat by lia.
      replace (Nat.min (S k0 * n) l) with (k0 * n + (Nat.min (k0 * n + n) l - k0 * n))%nat
        by lia.
      rewrite <- seq_app. f_equal. lia.
    + replace (Nat.min (k0 * n + n) l - k0 * n)%nat with 0%nat by lia.
      cbn [seq app]. f_equal; lia.
Qed.

Lemma batch_count_covers (l n : nat) :
  (0 < n)%nat -> (l <= batch_count l n * n)%nat /\ (batch_count l n * n < l + n)%nat.
Proof.
  intros Hn. unfold batch_count.
  pose proof (Nat.div_mod_eq (l + n - 1) n) as Hdiv.
  pose proof (Nat.mod_upper_bound (l + n - 1) n ltac:(lia)) as Hmod.
  nia.
Qed.

(** X1.  For a positive batch size [n], the slices that [__batch] yields over
    [range(0, l)], put end to end, are [0, ..., l - 1] in order; no slice is
    empty or longer than [n], and every slice but the last has exactly [n]
    elements. *)
Theorem batch_partitions_range (l n : nat) (Hn : (0 < n)%nat) :
  List.concat (batch l n) = seq 0 l /\
  Forall (fun b => (0 < List.length b <= n)%nat) (batch l n) /\
  (forall k, (S k < List.length (batch l n))%nat ->
             List.length (nth k (batch l n) []) = n).
Proof.
  pose proof (batch_count_covers l n Hn) as [Hlow Hhigh].
  rewrite batch_as_nth_batch. split; [|split].
  - rewrite nth_batch_concat. cbn [Nat.mul Nat.add]. rewrite Nat.min_0_l, Nat.sub_0_r.
    f_equal. lia.
  - apply Forall_forall. intros b Hb. apply in_map_iff in Hb.
    destruct Hb as [k [<- Hk]]. apply in_seq in Hk.
    unfold nth_batch. rewrite length_seq. nia.
  - intros k Hk. rewrite length_map, length_seq in Hk.
    rewrite (nth_indep _ [] (nth_batch l n 0)) by (rewrite length_map, length_seq; lia).
    rewrite map_nth, seq_nth by lia. unfold nth_batch. rewrite length_seq.
    cbn [Nat.add]. nia.
Qed.

Lemma batch_partitions_range_witness :
  List.concat (batch 7 3) = seq 0 7.
Proof. apply (batch_partitions_range 7 3). lia. Defined.

(** ** Outcomes of the true-length computation *)

(** X2.  The true length of a row, when it is found, is a position of the
    row.  The only exception the computation raises is IndexError, and it
    raises it exactly on an empty row and on a row that neither ends with
    the end marker nor holds the pad id. *)
Theorem eos_pos_outcomes (pad : Z) (row : list Z) :
  (forall eos, eos_pos pad row = OK eos -> 0 <= eos < Z.of_nat (List.length row)) /\
  (forall e, eos_pos pad row = Raise e -> e = IndexError) /\
  (is_OK (eos_pos pad row) = false <->
   row = [] \/ (py_last row <> OK EOS_ID /\ ~ In pad row)).
Proof.
  destruct row as [|x row'] using rev_ind.
  - split; [discriminate|]. split.
    + intros e H. now inversion H.
    + split; [now left|reflexivity].
  - clear IHrow'. pose proof (py_last_app row' x) as Hlast.
    destruct (Z.eq_dec x EOS_ID) as [Heq|Hne].
    + assert (Hzero : eos_pos pad (row' ++ [x]) = OK 0).
      { unfold eos_pos. rewrite Hlast. cbn [rbind]. subst x. reflexivity. }
      rewrite Hzero. split; [|split].
      * intros eos H. inversion H; subst. rewrite length_app. simpl. lia.
      * discriminate.
      * split; [discriminate|].
        intros [Hnil | [Hl _]].
        -- destruct row'; discriminate.
        -- exfalso. apply Hl. rewrite Hlast. now subst.
    + destruct (in_dec Z.eq_dec pad (row' ++ [x])) as [Hin|Hnot].
      * destruct (first_occurrence_exists pad _ Hin) as [k Hk].
        rewrite (eos_pos_search pad _ x k Hlast Hne Hk).
        apply first_occurrence_bound in Hk. split; [|split].
        -- intros eos H. inversion H; subst. lia.
        -- discriminate.
        -- split; [discriminate|]. intros [Hnil | [_ Hn]].
           ++ destruct row'; discriminate.
           ++ contradiction.
      * rewrite (eos_pos_no_pad pad _ x Hlast Hne Hnot). split; [discriminate|]. split.
        -- intros e H. now inversion H.
        -- split; [|reflexivity]. intros _. right. split; [|exact Hnot].
           rewrite Hlast. intros H. inversion H. contradiction.
Qed.

(** X3.  Take a row made of a body without the pad id followed by [k] pads,
    the pad id not being the end marker (the case of Flaubert).  With at
    least one pad the true length is the length of the body.  Without pad it
    is 0 when the body ends with the end marker, and IndexError is raised
    otherwise. *)
Theorem eos_pos_right_padded (pad : Z) (body : list Z) (k : nat)
    (Hpad : pad <> EOS_ID) (Hbody : ~ In pad body) :
  ((0 < k)%nat ->
   eos_pos pad (body ++ repeat pad k) = OK (Z.of_nat (List.length body))) /\
  (py_last body = OK EOS_ID -> eos_pos pad body = OK 0) /\
  (forall last, py_last body = OK last -> last <> EOS_ID ->
                eos_pos pad body = Raise IndexError).
Proof.
  split; [|split].
  - intros Hk. apply (eos_pos_search pad _ pad).
    + now apply py_last_padded.
    + exact Hpad.
    + destruct k as [|k]; [lia|]. cbn [repeat]. now apply first_occurrence_after.
  - intros Hlast. unfold eos_pos. rewrite Hlast. reflexivity.
  - intros last Hlast Hne. now apply (eos_pos_no_pad pad body last).
Qed.

Lemma eos_pos_right_padded_witness :
  eos_pos (pad_id Flaubert) ([0; 20; 130; 1] ++ repeat (pad_id Flaubert) 4) = OK 4.
Proof.
  apply (proj1 (eos_pos_right_padded (pad_id Flaubert) [0; 20; 130; 1] 4
                  ltac:(discriminate) ltac:(simpl; lia))).
  lia.
Defined.

(** X4.  The pad id of Camembert is the literal the last id of a row is
    compared with.  A right-padded row of Camembert therefore never gets its
    true length: with padding the result is 0, without padding IndexError is
    raised. *)
Theorem eos_pos_camembert_never_true_length (body : list Z) (k : nat)
    (Hne : body <> []) (Hbody : ~ In (pad_id Camembert) body) :
  ((0 < k)%nat ->
   eos_pos (pad_id Camembert) (body ++ repeat (pad_id Camembert) k) = OK 0) /\
  eos_pos (pad_id Camembert) body = Raise IndexError /\
  eos_pos (pad_id Camembert) (body ++ repeat (pad_id Camembert) k)
  <> OK (Z.of_nat (List.length body)).
Proof.
  assert (Hpadded : (0 < k)%nat ->
            eos_pos (pad_id Camembert) (body ++ repeat (pad_id Camembert) k) = OK 0).
  { intros Hk. unfold eos_pos. rewrite py_last_padded by exact Hk. reflexivity. }
  assert (Hfull : eos_pos (pad_id Camembert) body = Raise IndexError).
  { destruct body as [|x body'] using rev_ind; [congruence|].
    apply (eos_pos_no_pad _ _ x); [apply py_last_app| |exact Hbody].
    intros Hx. apply Hbody. apply in_or_app. right. left. exact Hx. }
  split; [exact Hpadded|]. split; [exact Hfull|].
  destruct k as [|k].
  - cbn [repeat]. rewrite app_nil_r, Hfull. discriminate.
  - rewrite Hpadded by lia. intros H. inversion H.
    destruct body; [congruence|]. simpl in *. lia.
Qed.

Lemma eos_pos_camembert_never_true_length_witness :
  eos_pos (pad_id Camembert) ([5; 121; 6] ++ repeat (pad_id Camembert) 3) = OK 0.
Proof.
  apply (proj1 (eos_pos_camembert_never_true_length [5; 121; 6] 3
                  ltac:(discriminate) ltac:(simpl; lia))).
  lia.
Defined.

(** ** What the argument checks accept *)

Lemma check_choice_OK (x : pyval) (options : list string) :
  is_OK (check_choice x options) = true <-> valid_choice x options.
Proof.
  unfold check_choice, valid_choice. split.
  - destruct x; try discriminate.
    destruct (existsb (String.eqb s) options) eqn:Hex; [|discriminate].
    intros _. apply existsb_exists in Hex. destruct Hex as [o [Hin Heq]].
    apply String.eqb_eq in Heq. subst o. now exists s.
  - intros [s [-> Hin]].
    assert (Hex : existsb (String.eqb s) options = true).
    { apply existsb_exists. exists s. split; [exact Hin|apply String.eqb_refl]. }
    now rewrite Hex.
Qed.

Lemma check_choice_class (x : pyval) (options : list string) :
  ~ valid_choice x options -> check_choice x options = Raise ValueError.
Proof.
  intros Hnot. pose proof (check_choice_OK x options) as Hiff.
  unfold check_choice in *. destruct x; try reflexivity.
  destruct (existsb (String.eqb s) options); [|reflexivity].
  exfalso. apply Hnot, Hiff. reflexivity.
Qed.

Lemma check_path_OK (x : pyval) : is_OK (check_path x) = true <-> valid_path x.
Proof.
  unfold check_path, valid_path. split.
  - destruct x; try discriminate; intros _; [right; now exists s|now left].
  - intros [-> | [s ->]]; reflexivity.
Qed.

(** X5.  The checks of [forward_and_pool] pass exactly when the sentence
    method is the string average or max, the word method is the string
    average, max or concat, [batch_size] is a positive int, [path_to_save]
    is None or a string, and [layers] is an int of [1, 12] or a list of such
    ints. *)
Theorem validate_accepts_iff
    (sentence_pooling_method word_pooling_method layers batch_size path_to_save : pyval) :
  is_OK (validate sentence_pooling_method word_pooling_method layers batch_size
                  path_to_save) = true <->
  valid_choice sentence_pooling_method ["average"; "max"]%string /\
  valid_choice word_pooling_method ["average"; "max"; "concat"]%string /\
  positive_int batch_size /\
  valid_path path_to_save /\
  accepted_layers layers.
Proof.
  rewrite <- !check_choice_OK, <- check_batch_size_OK, <- check_path_OK, <- check_layers_OK.
  unfold validate.
  destruct (check_choice sentence_pooling_method _); cbn [rbind is_OK];
    [|split; [discriminate|intros [H _]; discriminate]].
  destruct (check_choice word_pooling_method _); cbn [rbind is_OK];
    [|split; [discriminate|intros [_ [H _]]; discriminate]].
  destruct (check_batch_size batch_size); cbn [rbind is_OK];
    [|split; [discriminate|intros [_ [_ [H _]]]; discriminate]].
  destruct (check_path path_to_save); cbn [rbind is_OK];
    [|split; [discriminate|intros [_ [_ [_ [H _]]]]; discriminate]].
  destruct (check_layers layers); cbn [rbind is_OK];
    [|split; [discriminate|intros [_ [_ [_ [_ H]]]]; discriminate]].
  tauto.
Qed.

(** ** Letter case of the method names *)

Lemma lower_ascii_idempotent (c : ascii) : lower_ascii (lower_ascii c) = lower_ascii c.
Proof. destruct c as [[] [] [] [] [] [] [] []]; reflexivity. Qed.

Lemma lower_idempotent (s : string) : lower (lower s) = lower s.
Proof.
  induction s as [|c s IH]; [reflexivity|].
  cbn [lower]. now rewrite lower_ascii_idempotent, IH.
Qed.

(** X6.  [forward_and_pool] compares the sentence pooling method with the
    lowercase literals: any other string, [Average] for one, raises
    ValueError and leaves the world untouched, although both pooling helpers
    lower-case the name they receive and so treat a name and its lowercase
    form alike. *)
Theorem method_case_checked_not_pooled
    (model : list (list Z) -> list (list Z) -> result hidden_states) (pad : Z)
    (input_ids_tensor masks_tensor : list (list Z))
    (word_pooling_method layers batch_size path_to_save : pyval)
    (w : world) (name : string)
    (Hname : ~ In name ["average"; "max"]%string) :
  forward_and_pool model pad input_ids_tensor masks_tensor (PyStr name)
                   word_pooling_method layers batch_size path_to_save w
  = (Raise ValueError, w) /\
  (forall vectors, sentence_pooling vectors name = sentence_pooling vectors (lower name)) /\
  (forall enc ls idx, word_pooling enc ls idx name = word_pooling enc ls idx (lower name)).
Proof.
  split; [|split].
  - unfold forward_and_pool, bind, lift, validate.
    rewrite (check_choice_class (PyStr name)); [reflexivity|].
    intros [s [Hs Hin]]. inversion Hs; subst. contradiction.
  - intros vectors. unfold sentence_pooling. now rewrite lower_idempotent.
  - intros enc ls idx. unfold word_pooling. now rewrite lower_idempotent.
Qed.

Lemma method_case_checked_not_pooled_witness :
  forward_and_pool constant_model 2 [[0; 20; 1; 2]] [[1; 1; 1; 0]] (PyStr "Average")
                   (PyStr "average") (PyInt 11) (PyInt 2) PyNone initial_world
  = (Raise ValueError, initial_world) /\
  sentence_pooling (Words (Mat 1 [[Fin 2]; [Fin 4]])) "Average"
  = sentence_pooling (Words (Mat 1 [[Fin 2]; [Fin 4]])) (lower "Average").
Proof.
  destruct (method_case_checked_not_pooled constant_model 2 [[0; 20; 1; 2]]
              [[1; 1; 1; 0]] (PyStr "average") (PyInt 11) (PyInt 2) PyNone
              initial_world "Average") as [Hrun [Hs _]].
  - simpl. intros [H|[H|[]]]; discriminate.
  - split; [exact Hrun|apply Hs].
Defined.

(** ** The loops of [forward_and_pool] as traversals *)

Section Traverse.
Context {A B : Type} (f : A -> result B).

Lemma traverse_app (l1 l2 : list A) :
  traverse f (l1 ++ l2)
  = (ys1 <- traverse f l1 ;; ys2 <- traverse f l2 ;; OK (ys1 ++ ys2))%py.
Proof.
  induction l1 as [|x l1 IH]; cbn [app traverse].
  - cbn [rbind]. destruct (traverse f l2); reflexivity.
  - destruct (f x) as [y|e]; cbn [rbind]; [|reflexivity].
    rewrite IH. destruct (traverse f l1) as [ys1|e]; cbn [rbind]; [|reflexivity].
    destruct (traverse f l2); reflexivity.
Qed.

Lemma traverse_Forall2 (l : list A) (ys : list B) :
  traverse f l = OK ys <-> Forall2 (fun x y => f x = OK y) l ys.
Proof.
  revert ys. induction l as [|x l IH]; intros ys; cbn [traverse].
  - split.
    + intros H; inversion H; constructor.
    + intros H; inversion H; reflexivity.
  - split.
    + intros H. apply rbind_OK in H. destruct H as [y [Hy H]].
      apply rbind_OK in H. destruct H as [ys' [Hys H]]. inversion H; subst.
      constructor; [exact Hy|]. now apply IH.
    + intros H. inversion H as [|? y ? ys' Hy Hrest]; subst.
      rewrite Hy. cbn [rbind]. apply IH in Hrest. rewrite Hrest. reflexivity.
Qed.

Lemma traverse_ext_in (g : A -> result B) (l : list A) :
  (forall x, In x l -> f x = g x) -> traverse f l = traverse g l.
Proof.
  induction l as [|x l IH]; intros H; [reflexivity|].
  cbn [traverse]. rewrite (H x (or_introl eq_refl)), IH; [reflexivity|].
  intros y Hy. apply H. now right.
Qed.
End Traverse.

Lemma traverse_concat {A B C : Type} (f : A -> result B) (g : C -> list A)
    (ks : list C) :
  (parts <- traverse (fun k => traverse f (g k)) ks ;; OK (List.concat parts))%py
  = traverse f (List.concat (map g ks)).
Proof.
  induction ks as [|k ks IH]; [reflexivity|].
  cbn [traverse map List.concat]. rewrite traverse_app, <- IH.
  destruct (traverse f (g k)) as [ys|e]; cbn [rbind]; [|reflexivity].
  destruct (traverse (fun k0 => traverse f (g k0)) ks) as [parts|e]; reflexivity.
Qed.

Lemma select_traverse {A : Type} (t : list A) (b : list nat) :
  select t b = traverse (py_index t) b.
Proof. induction b as [|i b IH]; [reflexivity|]. cbn [select traverse]. now rewrite IH. Qed.

Lemma Forall2_nth_error_both {A B : Type} (R : A -> B -> Prop) (l : list A) (l' : list B) :
  Forall2 R l l' ->
  forall i x y, nth_error l i = Some x -> nth_error l' i = Some y -> R x y.
Proof.
  induction 1 as [|a b l l' Hab _ IH]; intros [|i] x y Hx Hy; simpl in *;
    try discriminate.
  - inversion Hx; inversion Hy; subst. exact Hab.
  - eapply IH; eassumption.
Qed.

Lemma Forall2_concat {A B : Type} (R : A -> B -> Prop) (ls : list (list A))
    (ls' : list (list B)) :
  Forall2 (Forall2 R) ls ls' -> Forall2 R (List.concat ls) (List.concat ls').
Proof.
  induction 1 as [|l l' ls ls' Hl _ IH]; [constructor|].
  cbn [List.concat]. now apply Forall2_app.
Qed.

Lemma loop_list_traverse (pad : Z) (ids : list (list Z)) (enc : hidden_states)
    (cfg : config) (layers : list nat) (counter : nat) :
  forall b acc,
    loop_list pad ids enc cfg layers counter b acc
    = (vs <- traverse (pool_document_list pad ids enc cfg layers counter) b ;;
       OK (acc ++ vs))%py.
Proof.
  induction b as [|idx b IH]; intros acc; cbn [loop_list traverse rbind].
  - now rewrite app_nil_r.
  - destruct (pool_document_list pad ids enc cfg layers counter idx) as [v|e];
      cbn [rbind]; [|reflexivity].
    rewrite IH.
    destruct (traverse (pool_document_list pad ids enc cfg layers counter) b);
      cbn [rbind]; [|reflexivity].
    now rewrite <- app_assoc.
Qed.

Lemma loop_scalar_traverse (pad : Z) (ids : list (list Z)) (wv : list matrix)
    (cfg : config) (counter : nat) :
  forall b acc,
    loop_scalar pad ids wv cfg counter b acc
    = (parts <- traverse (document_items_scalar pad ids wv cfg counter) b ;;
       OK (acc ++ List.concat parts))%py.
Proof.
  induction b as [|idx b IH]; intros acc; cbn [loop_scalar traverse rbind].
  - now rewrite app_nil_r.
  - unfold document_items_scalar at 1.
    destruct (pool_document_scalar pad ids wv cfg counter idx) as [p|e];
      cbn [rbind]; [|reflexivity].
    destruct (py_iter p) as [items|e]; cbn [rbind]; [|reflexivity].
    rewrite IH.
    destruct (traverse (document_items_scalar pad ids wv cfg counter) b);
      cbn [rbind List.concat]; [|reflexivity].
    now rewrite <- app_assoc.
Qed.

(** One turn of the loop over the batches: its result, and what it does to
    the world. *)
Lemma process_batch_spec model pad ids masks cfg counter b acc (w : world) :
  let run := process_batch model pad ids masks cfg counter b acc w in
  fst run = (vs <- batch_items model pad ids masks cfg counter b ;; OK (acc ++ vs))%py /\
  (saved (snd run) = saved w /\ save_error (snd run) = save_error w) /\
  (inference_calls w <= inference_calls (snd run) <= S (inference_calls w))%nat /\
  (is_OK (fst run) = true -> inference_calls (snd run) = S (inference_calls w)).
Proof.
  cbv zeta. unfold process_batch, batch_items, bind, lift, call_model.
  destruct (select ids b) as [ids_b|e]; cbn [rbind fst snd];
    [|repeat split; try lia; discriminate].
  destruct (select masks b) as [masks_b|e]; cbn [rbind fst snd];
    [|repeat split; try lia; discriminate].
  destruct (model ids_b masks_b) as [enc|e];
    cbn [rbind fst snd inference_calls saved save_error];
    [|repeat split; try lia; discriminate].
  destruct (cfg_layers cfg) as [L|layers];
    cbn [fst snd inference_calls saved save_error].
  - repeat split; try lia.
    destruct (py_index enc L) as [wv|e]; cbn [rbind]; [|reflexivity].
    rewrite loop_scalar_traverse.
    destruct (traverse _ b); reflexivity.
  - repeat split; try lia. apply loop_list_traverse.
Qed.

Lemma loop_batches_spec model pad ids masks (cfg : config) (N : nat) :
  forall m k0 acc (w : world),
    let n := cfg_batch_size cfg in
    let run := loop_batches model pad ids masks cfg (k0 * n)
                            (map (nth_batch N n) (seq k0 m)) acc w in
    fst run
    = (parts <- traverse (fun k => batch_items model pad ids masks cfg (k * n)
                                               (nth_batch N n k)) (seq k0 m) ;;
       OK (acc ++ List.concat parts))%py /\
    (saved (snd run) = saved w /\ save_error (snd run) = save_error w) /\
    (inference_calls w <= inference_calls (snd run) <= inference_calls w + m)%nat /\
    (is_OK (fst run) = true -> inference_calls (snd run) = (inference_calls w + m)%nat).
Proof.
  cbv zeta. induction m as [|m IH]; intros k0 acc w.
  - cbn [seq map loop_batches traverse rbind List.concat]. unfold ret. cbn [fst snd].
    rewrite app_nil_r. repeat split; lia.
  - cbn [seq map loop_batches traverse]. unfold bind.
    pose proof (process_batch_spec model pad ids masks cfg (k0 * cfg_batch_size cfg)
                  (nth_batch N (cfg_batch_size cfg) k0) acc w) as Hstep.
    cbv zeta in Hstep.
    destruct (process_batch model pad ids masks cfg (k0 * cfg_batch_size cfg)
                (nth_batch N (cfg_batch_size cfg) k0) acc w) as [r w1].
    cbn [fst snd] in Hstep. destruct Hstep as [Hr [[Hsaved Hstore] [Hcalls Hexact]]].
    destruct (batch_items model pad ids masks cfg (k0 * cfg_batch_size cfg)
                (nth_batch N (cfg_batch_size cfg) k0)) as [vs|e];
      cbn [rbind] in Hr |- *; subst r.
    + replace (k0 * cfg_batch_size cfg + cfg_batch_size cfg)%nat
        with (S k0 * cfg_batch_size cfg)%nat by lia.
      specialize (IH (S k0) (acc ++ vs) w1).
      destruct IH as [Hr' [[Hsaved' Hstore'] [Hcalls' Hexact']]].
      rewrite Hr'. specialize (Hexact eq_refl).
      split; [|split; [split; congruence|split; [lia|]]].
      * destruct (traverse _ (seq (S k0) m)) as [parts|e]; cbn [rbind List.concat];
          [|reflexivity].
        now rewrite app_assoc.
      * intros Hok. rewrite Hr' in Hexact'. rewrite Hexact' by exact Hok. lia.
    + cbn [fst snd]. repeat split; try lia; try assumption. discriminate.
Qed.

(** The result and the effects of a run whose arguments pass the checks:
    what the batches pool, then the save, which may fail. *)
Lemma forward_and_pool_spec model pad ids masks (s wm ls bs p : pyval)
    (cfg : config) (w : world) :
  validate s wm ls bs p = OK cfg ->
  let n := cfg_batch_size cfg in
  let N := List.length ids in
  let run := forward_and_pool model pad ids masks s wm ls bs p w in
  fst run
  = (parts <- traverse (fun k => batch_items model pad ids masks cfg (k * n)
                                             (nth_batch N n k))
                       (seq 0 (batch_count N n)) ;;
     match cfg_path cfg with
     | Some path =>
         match save_error w (path ++ "text_vectors") (List.concat parts) with
         | Some e => Raise e
         | None => OK (List.concat parts)
         end
     | None => OK (List.concat parts)
     end)%py /\
  saved (snd run)
  = match fst run, cfg_path cfg with
    | OK items, Some path => saved w ++ [((path ++ "text_vectors")%string, items)]
    | _, _ => saved w
    end /\
  (inference_calls w <= inference_calls (snd run)
                     <= inference_calls w + batch_count N n)%nat /\
  (is_OK (fst run) = true ->
   inference_calls (snd run) = (inference_calls w + batch_count N n)%nat).
Proof.
  intros Hv. cbv zeta. unfold forward_and_pool, bind, lift. rewrite Hv.
  rewrite batch_as_nth_batch.
  pose proof (loop_batches_spec model pad ids masks cfg (List.length ids)
                (batch_count (List.length ids) (cfg_batch_size cfg)) 0 [] w) as Hloop.
  cbv zeta in Hloop. cbn [Nat.mul] in Hloop.
  destruct (loop_batches model pad ids masks cfg 0 _ [] w) as [r w1].
  cbn [fst snd app] in Hloop. destruct Hloop as [Hr [[Hsaved Hstore] [Hcalls Hexact]]].
  destruct (traverse _ (seq 0 (batch_count (List.length ids) (cfg_batch_size cfg))))
    as [parts|e]; cbn [rbind] in Hr |- *; subst r.
  - specialize (Hexact eq_refl).
    destruct (cfg_path cfg) as [path|]; unfold torch_save, ret.
    + rewrite Hstore.
      destruct (save_error w (path ++ "text_vectors") (List.concat parts)) as [e|];
        cbn [fst snd inference_calls saved]; rewrite ?Hsaved;
        repeat split; try reflexivity; try lia; try discriminate.
    + cbn [fst snd]. rewrite Hsaved. repeat split; try reflexivity; lia.
  - cbn [fst snd]. split; [reflexivity|]. split.
    + destruct (cfg_path cfg); exact Hsaved.
    + split; [lia|discriminate].
Qed.

(** A run that returns went through all its batches. *)
Lemma run_OK_items model pad ids masks (s wm ls bs p : pyval) (cfg : config)
    (w : world) (items : list pyobj) :
  validate s wm ls bs p = OK cfg ->
  fst (forward_and_pool model pad ids masks s wm ls bs p w) = OK items ->
  (parts <- traverse (fun k => batch_items model pad ids masks cfg
                                           (k * cfg_batch_size cfg)
                                           (nth_batch (List.length ids)
                                                      (cfg_batch_size cfg) k))
                     (seq 0 (batch_count (List.length ids) (cfg_batch_size cfg))) ;;
   OK (List.concat parts))%py = OK items.
Proof.
  intros Hv Hrun.
  destruct (forward_and_pool_spec model pad ids masks s wm ls bs p cfg w Hv)
    as [Hfst _]. cbv zeta in Hfst. rewrite Hrun in Hfst.
  destruct (traverse _ _) as [parts|e]; cbn [rbind] in Hfst |- *; [|discriminate].
  destruct (cfg_path cfg) as [path|]; [|now symmetry].
  destruct (save_error w _ _); [discriminate|now symmetry].
Qed.

(** ** What a run returns, document by document *)

Lemma validate_config (s wm ls bs p : pyval) (cfg : config) :
  validate s wm ls bs p = OK cfg ->
  s = PyStr (cfg_sentence cfg) /\ wm = PyStr (cfg_word cfg) /\
  check_layers ls = OK (cfg_layers cfg) /\
  check_batch_size bs = OK (cfg_batch_size cfg) /\
  check_path p = OK (cfg_path cfg).
Proof.
  unfold validate. intros H.
  apply rbind_OK in H. destruct H as [s' [Hs H]].
  apply rbind_OK in H. destruct H as [w' [Hw H]].
  apply rbind_OK in H. destruct H as [n [Hn H]].
  apply rbind_OK in H. destruct H as [p' [Hp H]].
  apply rbind_OK in H. destruct H as [ls' [Hls H]].
  inversion H; subst; cbn [cfg_sentence cfg_word cfg_layers cfg_batch_size cfg_path].
  repeat split; try assumption.
  - unfold check_choice in Hs. destruct s; try discriminate.
    destruct (existsb _ _); inversion Hs; reflexivity.
  - unfold check_choice in Hw. destruct wm; try discriminate.
    destruct (existsb _ _); inversion Hw; reflexivity.
Qed.

Lemma check_batch_size_int (z : Z) (n : nat) :
  check_batch_size (PyInt z) = OK n -> n = Z.to_nat z /\ (0 < n)%nat.
Proof.
  unfold check_batch_size. destruct (Z.leb_spec z 0) as [|Hpos]; [discriminate|].
  intros Heq; inversion Heq. lia.
Qed.

Lemma run_OK_validated model pad ids masks (s wm ls bs p : pyval) (w : world) :
  is_OK (fst (forward_and_pool model pad ids masks s wm ls bs p w)) = true ->
  exists cfg, validate s wm ls bs p = OK cfg.
Proof.
  unfold forward_and_pool, bind, lift.
  destruct (validate s wm ls bs p) as [cfg|e]; [now exists cfg|discriminate].
Qed.

Lemma nth_batch_div (N n k idx : nat) :
  In idx (nth_batch N n k) -> (idx / n = k)%nat /\ (0 < n)%nat.
Proof.
  unfold nth_batch. rewrite in_seq. intros Hin.
  assert (Hn : (0 < n)%nat) by lia. split; [|exact Hn].
  symmetry. apply (Nat.div_unique idx n k (idx - k * n)); lia.
Qed.

Lemma Forall2_map_l {A B C : Type} (R : B -> C -> Prop) (g : A -> B) (l : list A)
    (l' : list C) :
  Forall2 (fun x y => R (g x) y) l l' -> Forall2 R (map g l) l'.
Proof. induction 1; cbn [map]; constructor; assumption. Qed.

Lemma Forall2_impl_in {A B : Type} (R R' : A -> B -> Prop) (l : list A) (l' : list B) :
  (forall x y, In x l -> R x y -> R' x y) -> Forall2 R l l' -> Forall2 R' l l'.
Proof.
  intros Himp HF. induction HF as [|x y l l' Hxy _ IH]; constructor.
  - apply Himp; [now left|exact Hxy].
  - apply IH. intros a b Ha. apply Himp. now right.
Qed.

Lemma concat_map_concat {A : Type} (ls : list (list (list A))) :
  List.concat (map (@List.concat A) ls) = List.concat (List.concat ls).
Proof.
  induction ls as [|l ls IH]; [reflexivity|].
  cbn [map List.concat]. now rewrite concat_app, IH.
Qed.

Lemma batches_cover (N n : nat) :
  (0 < n)%nat -> List.concat (map (nth_batch N n) (seq 0 (batch_count N n))) = seq 0 N.
Proof.
  intros Hn. pose proof (batch_count_covers N n Hn) as [Hlow _].
  rewrite nth_batch_concat. cbn [Nat.mul Nat.add]. rewrite Nat.min_0_l, Nat.sub_0_r.
  f_equal. lia.
Qed.

(** A successful run on the path of a layer list, document by document. *)
Lemma list_path_documents model pad ids masks (s wm ls bs p : pyval) (cfg : config)
    (layers : list nat) (w : world) (items : list pyobj) :
  validate s wm ls bs p = OK cfg -> cfg_layers cfg = inr layers ->
  fst (forward_and_pool model pad ids masks s wm ls bs p w) = OK items ->
  Forall2 (pooled_in_batch_list model pad ids masks cfg layers (cfg_batch_size cfg))
          (seq 0 (List.length ids)) items.
Proof.
  intros Hv Hlayers Hrun.
  pose proof (run_OK_items model pad ids masks s wm ls bs p cfg w items Hv Hrun)
    as Hfst.
  apply rbind_OK in Hfst. destruct Hfst as [parts [Hparts Hitems]].
  inversion Hitems; subst items. apply traverse_Forall2 in Hparts.
  assert (Hn : (0 < cfg_batch_size cfg)%nat).
  { apply validate_config in Hv. destruct Hv as [_ [_ [_ [Hb _]]]].
    unfold check_batch_size in Hb. destruct bs; try discriminate.
    destruct (Z.leb_spec z 0) as [|Hpos]; [discriminate|]. inversion Hb. lia. }
  rewrite <- (batches_cover (List.length ids) (cfg_batch_size cfg) Hn).
  apply Forall2_concat, Forall2_map_l.
  eapply Forall2_impl_in; [|exact Hparts]. cbv beta.
  intros k part _ Hk. unfold batch_items in Hk. rewrite Hlayers in Hk.
  apply rbind_OK in Hk. destruct Hk as [ids_b [Hids Hk]].
  apply rbind_OK in Hk. destruct Hk as [masks_b [Hmasks Hk]].
  apply rbind_OK in Hk. destruct Hk as [enc [Henc Hk]].
  apply traverse_Forall2 in Hk.
  eapply Forall2_impl_in; [|exact Hk]. cbv beta.
  intros idx v Hidx Hv'. apply nth_batch_div in Hidx. destruct Hidx as [Hdiv _].
  unfold pooled_in_batch_list. rewrite Hdiv. now exists ids_b, masks_b, enc.
Qed.

(** A successful run on the path of an int, document by document. *)
Lemma scalar_path_documents model pad ids masks (s wm ls bs p : pyval) (cfg : config)
    (layer : nat) (w : world) (items : list pyobj) :
  validate s wm ls bs p = OK cfg -> cfg_layers cfg = inl layer ->
  fst (forward_and_pool model pad ids masks s wm ls bs p w) = OK items ->
  exists parts,
    items = List.concat parts /\
    Forall2 (appended_in_batch_scalar model pad ids masks cfg layer (cfg_batch_size cfg))
            (seq 0 (List.length ids)) parts.
Proof.
  intros Hv Hlayers Hrun.
  pose proof (run_OK_items model pad ids masks s wm ls bs p cfg w items Hv Hrun)
    as Hfst.
  apply rbind_OK in Hfst. destruct Hfst as [bparts [Hparts Hitems]].
  inversion Hitems; subst items. apply traverse_Forall2 in Hparts.
  assert (Hn : (0 < cfg_batch_size cfg)%nat).
  { apply validate_config in Hv. destruct Hv as [_ [_ [_ [Hb _]]]].
    unfold check_batch_size in Hb. destruct bs; try discriminate.
    destruct (Z.leb_spec z 0) as [|Hpos]; [discriminate|]. inversion Hb. lia. }
  assert (Hsplit : forall ks bparts',
            Forall2 (fun k bpart =>
                       batch_items model pad ids masks cfg (k * cfg_batch_size cfg)
                         (nth_batch (List.length ids) (cfg_batch_size cfg) k) = OK bpart)
                    ks bparts' ->
            exists dparts,
              bparts' = map (@List.concat pyobj) dparts /\
              Forall2 (Forall2 (appended_in_batch_scalar model pad ids masks cfg layer
                                                         (cfg_batch_size cfg)))
                      (map (nth_batch (List.length ids) (cfg_batch_size cfg)) ks)
                      dparts).
  { clear Hparts Hrun Hitems bparts.
    intros ks bparts' Hparts. induction Hparts as [|k bpart ks bparts' Hk _ IH].
    - exists []. split; [reflexivity|constructor].
    - destruct IH as [dparts [-> HF]].
      unfold batch_items in Hk. rewrite Hlayers in Hk.
      apply rbind_OK in Hk. destruct Hk as [ids_b [Hids Hk]].
      apply rbind_OK in Hk. destruct Hk as [masks_b [Hmasks Hk]].
      apply rbind_OK in Hk. destruct Hk as [enc [Henc Hk]].
      apply rbind_OK in Hk. destruct Hk as [wv [Hwv Hk]].
      apply rbind_OK in Hk. destruct Hk as [dpart [Hd Hk]].
      inversion Hk; subst bpart. apply traverse_Forall2 in Hd.
      exists (dpart :: dparts). split; [reflexivity|].
      cbn [map]. constructor; [|exact HF].
      eapply Forall2_impl_in; [|exact Hd]. cbv beta.
      intros idx part Hidx Hpart. apply nth_batch_div in Hidx.
      destruct Hidx as [Hdiv _]. unfold document_items_scalar in Hpart.
      apply rbind_OK in Hpart. destruct Hpart as [pooled [Hpooled Hiter]].
      unfold appended_in_batch_scalar. rewrite Hdiv.
      now exists ids_b, masks_b, enc, wv, pooled. }
  destruct (Hsplit _ _ Hparts) as [dparts [Hb HF]]. subst bparts.
  exists (List.concat dparts). split; [apply concat_map_concat|].
  rewrite <- (batches_cover (List.length ids) (cfg_batch_size cfg) Hn).
  now apply Forall2_concat.
Qed.

Lemma nth_error_seq0 (N i : nat) : (i < N)%nat -> nth_error (seq 0 N) i = Some i.
Proof.
  intros Hi. rewrite (nth_error_nth' _ 0%nat) by (rewrite length_seq; exact Hi).
  now rewrite seq_nth.
Qed.

Lemma Forall2_exists_map {A B C : Type} (R : A -> B -> Prop) (g : C -> B)
    (P : C -> Prop) (l : list A) (parts : list B) :
  Forall2 R l parts ->
  (forall x y, R x y -> exists c, y = g c /\ P c) ->
  exists cs, parts = map g cs /\ Forall P cs.
Proof.
  intros HF Hstep. induction HF as [|x y l parts Hxy _ IH].
  - exists []. split; [reflexivity|constructor].
  - destruct IH as [cs [-> HP]]. destruct (Hstep x y Hxy) as [c [-> Hc]].
    exists (c :: cs). split; [reflexivity|now constructor].
Qed.

Lemma length_concat_uniform {A : Type} (c : nat) (ls : list (list A)) :
  Forall (fun l => List.length l = c) ls ->
  List.length (List.concat ls) = (List.length ls * c)%nat.
Proof.
  induction 1 as [|l ls Hl _ IH]; [reflexivity|].
  cbn [List.concat List.length]. rewrite length_app, IH, Hl. lia.
Qed.

(** X7.  [forward_and_pool] calls the encoder at most once per batch, that
    is at most ceil(N / batch_size) times for N documents, and exactly that
    many times when it returns; on an empty input a run that returns gives
    the empty list without any call. *)
Theorem encoder_called_once_per_batch
    (model : list (list Z) -> list (list Z) -> result hidden_states) (pad : Z)
    (input_ids_tensor masks_tensor : list (list Z))
    (sentence_pooling_method word_pooling_method layers path_to_save : pyval)
    (z : Z) (w : world) :
  let run := forward_and_pool model pad input_ids_tensor masks_tensor
                              sentence_pooling_method word_pooling_method layers
                              (PyInt z) path_to_save w in
  let batches := batch_count (List.length input_ids_tensor) (Z.to_nat z) in
  (inference_calls w <= inference_calls (snd run) <= inference_calls w + batches)%nat /\
  (is_OK (fst run) = true ->
   inference_calls (snd run) = (inference_calls w + batches)%nat) /\
  (input_ids_tensor = [] -> is_OK (fst run) = true ->
   fst run = OK [] /\ inference_calls (snd run) = inference_calls w).
Proof.
  cbv zeta.
  destruct (validate sentence_pooling_method word_pooling_method layers (PyInt z)
                     path_to_save) as [cfg|e] eqn:Hv.
  - pose proof (forward_and_pool_spec model pad input_ids_tensor masks_tensor _ _ _ _ _
                  cfg w Hv) as Hspec. cbv zeta in Hspec.
    destruct Hspec as [Hfst [_ [Hcalls Hexact]]].
    apply validate_config in Hv. destruct Hv as [_ [_ [_ [Hb _]]]].
    apply check_batch_size_int in Hb. destruct Hb as [Hn Hpos]. rewrite Hn in *.
    split; [exact Hcalls|]. split; [exact Hexact|].
    intros -> Hok. cbn [List.length] in *.
    assert (Hzero : batch_count 0 (Z.to_nat z) = 0%nat).
    { unfold batch_count. apply Nat.div_small. lia. }
    rewrite Hzero in *. split; [|rewrite (Hexact Hok); lia].
    rewrite Hfst in Hok |- *. cbn [seq traverse rbind List.concat] in Hok |- *.
    destruct (cfg_path cfg) as [path|]; [|reflexivity].
    destruct (save_error w _ _); [discriminate|reflexivity].
  - assert (Hrun : forward_and_pool model pad input_ids_tensor masks_tensor
                     sentence_pooling_method word_pooling_method layers (PyInt z)
                     path_to_save w = (Raise e, w)).
    { unfold forward_and_pool, bind, lift. now rewrite Hv. }
    rewrite Hrun. cbn [fst snd is_OK]. repeat split; try lia; discriminate.
Qed.

(** The batches do not read [path_to_save]. *)
Lemma batch_items_same_pooling model pad ids masks (cfg cfg' : config)
    (counter : nat) (b : list nat) :
  cfg_sentence cfg = cfg_sentence cfg' -> cfg_word cfg = cfg_word cfg' ->
  cfg_layers cfg = cfg_layers cfg' ->
  batch_items model pad ids masks cfg counter b
  = batch_items model pad ids masks cfg' counter b.
Proof.
  intros Hs Hw Hl. unfold batch_items. rewrite Hl.
  destruct (select ids b) as [ids_b|e]; cbn [rbind]; [|reflexivity].
  destruct (select masks b) as [masks_b|e]; cbn [rbind]; [|reflexivity].
  destruct (model ids_b masks_b) as [enc|e]; cbn [rbind]; [|reflexivity].
  destruct (cfg_layers cfg') as [L|layers].
  - destruct (py_index enc L) as [wv|e]; cbn [rbind]; [|reflexivity].
    f_equal. apply traverse_ext_in. intros idx _.
    unfold document_items_scalar, pool_document_scalar. now rewrite Hs.
  - apply traverse_ext_in. intros idx _.
    unfold pool_document_list. now rewrite Hs, Hw.
Qed.

Lemma validate_with_path (s wm ls bs : pyval) (path : string) (cfg : config) :
  validate s wm ls bs PyNone = OK cfg ->
  validate s wm ls bs (PyStr path)
  = OK (Config (cfg_sentence cfg) (cfg_word cfg) (cfg_layers cfg)
               (cfg_batch_size cfg) (Some path)).
Proof.
  unfold validate.
  destruct (check_choice s _); cbn [rbind]; [|discriminate].
  destruct (check_choice wm _); cbn [rbind]; [|discriminate].
  destruct (check_batch_size bs); cbn [rbind]; [|discriminate].
  destruct (check_layers ls); cbn [rbind]; [|discriminate].
  intros H. inversion H. reflexivity.
Qed.

(** The encoder has been called for every batch as soon as the batches have
    all been pooled, whatever the save does. *)
Lemma pooled_run_calls model pad ids masks (s wm ls bs p : pyval) (cfg : config)
    (w : world) :
  validate s wm ls bs p = OK cfg ->
  is_OK (traverse (fun k => batch_items model pad ids masks cfg
                                        (k * cfg_batch_size cfg)
                                        (nth_batch (List.length ids)
                                                   (cfg_batch_size cfg) k))
                  (seq 0 (batch_count (List.length ids) (cfg_batch_size cfg))))
  = true ->
  inference_calls (snd (forward_and_pool model pad ids masks s wm ls bs p w))
  = (inference_calls w + batch_count (List.length ids) (cfg_batch_size cfg))%nat.
Proof.
  intros Hv Hok. unfold forward_and_pool, bind, lift. rewrite Hv.
  rewrite batch_as_nth_batch.
  pose proof (loop_batches_spec model pad ids masks cfg (List.length ids)
                (batch_count (List.length ids) (cfg_batch_size cfg)) 0 [] w) as Hloop.
  cbv zeta in Hloop. cbn [Nat.mul] in Hloop.
  destruct (loop_batches model pad ids masks cfg 0 _ [] w) as [r w1].
  cbn [fst snd app] in Hloop. destruct Hloop as [Hr [[_ Hstore] [_ Hexact]]].
  destruct (traverse _ (seq 0 (batch_count (List.length ids) (cfg_batch_size cfg))))
    as [parts|e]; [|discriminate].
  cbn [rbind] in Hr. subst r. specialize (Hexact eq_refl).
  destruct (cfg_path cfg) as [path|]; unfold torch_save, ret; [|exact Hexact].
  destruct (save_error w1 _ _); exact Hexact.
Qed.

(** X8.  The vectors are saved only on success.  When the run returns and
    [path_to_save] is a string, the file system has taken the save, and one
    artifact holding the returned list is added under
    [path_to_save + "text_vectors"].  When [path_to_save] is None, or when
    the run raises, nothing is saved.  The save is not guarded: where the
    run without a path returns a list that the file system refuses to save
    under the path, the run with the path raises what [torch.save] raises,
    after the same calls of the encoder. *)
Theorem vectors_saved_only_on_success
    (model : list (list Z) -> list (list Z) -> result hidden_states) (pad : Z)
    (input_ids_tensor masks_tensor : list (list Z))
    (sentence_pooling_method word_pooling_method layers batch_size path_to_save : pyval)
    (w : world) :
  let run := forward_and_pool model pad input_ids_tensor masks_tensor
                              sentence_pooling_method word_pooling_method layers
                              batch_size path_to_save w in
  let run_without_path :=
    forward_and_pool model pad input_ids_tensor masks_tensor
                     sentence_pooling_method word_pooling_method layers
                     batch_size PyNone w in
  (forall items path,
      fst run = OK items -> path_to_save = PyStr path ->
      save_error w (path ++ "text_vectors") items = None /\
      saved (snd run) = saved w ++ [((path ++ "text_vectors")%string, items)]) /\
  (path_to_save = PyNone -> saved (snd run) = saved w) /\
  (is_OK (fst run) = false -> saved (snd run) = saved w) /\
  (forall items path e,
      path_to_save = PyStr path ->
      fst run_without_path = OK items ->
      save_error w (path ++ "text_vectors") items = Some e ->
      fst run = Raise e /\
      inference_calls (snd run) = inference_calls (snd run_without_path)).
Proof.
  cbv zeta. split; [|split; [|split]].
  - intros items path Hrun ->.
    destruct (run_OK_validated model pad input_ids_tensor masks_tensor
                sentence_pooling_method word_pooling_method layers batch_size
                (PyStr path) w) as [cfg Hv]; [now rewrite Hrun|].
    pose proof (forward_and_pool_spec model pad input_ids_tensor masks_tensor _ _ _ _ _
                  cfg w Hv) as Hspec. cbv zeta in Hspec.
    destruct Hspec as [Hfst [Hsaved _]].
    apply validate_config in Hv. destruct Hv as [_ [_ [_ [_ Hp]]]].
    cbn [check_path] in Hp. inversion Hp as [Hpath].
    rewrite <- Hpath in Hfst, Hsaved. rewrite Hrun in Hfst, Hsaved.
    split; [|exact Hsaved].
    destruct (traverse _ _) as [parts|e]; cbn [rbind] in Hfst; [|discriminate].
    destruct (save_error w (path ++ "text_vectors") (List.concat parts)) eqn:Hsave;
      [discriminate|].
    inversion Hfst; subst items. exact Hsave.
  - intros ->.
    destruct (validate sentence_pooling_method word_pooling_method layers batch_size
                       PyNone) as [cfg|e] eqn:Hv.
    + pose proof (forward_and_pool_spec model pad input_ids_tensor masks_tensor
                    _ _ _ _ _ cfg w Hv) as Hspec. cbv zeta in Hspec.
      destruct Hspec as [_ [Hsaved _]]. rewrite Hsaved.
      apply validate_config in Hv. destruct Hv as [_ [_ [_ [_ Hp]]]].
      cbn [check_path] in Hp. inversion Hp. destruct (fst _); reflexivity.
    + unfold forward_and_pool, bind, lift. now rewrite Hv.
  - intros Hfail.
    destruct (validate sentence_pooling_method word_pooling_method layers batch_size
                       path_to_save) as [cfg|e] eqn:Hv.
    + pose proof (forward_and_pool_spec model pad input_ids_tensor masks_tensor
                    _ _ _ _ _ cfg w Hv) as Hspec. cbv zeta in Hspec.
      destruct Hspec as [_ [Hsaved _]]. rewrite Hsaved.
      destruct (fst _); [discriminate|reflexivity].
    + unfold forward_and_pool, bind, lift. now rewrite Hv.
  - intros items path e -> Hrun Hsave.
    destruct (run_OK_validated model pad input_ids_tensor masks_tensor
                sentence_pooling_method word_pooling_method layers batch_size
                PyNone w) as [cfg Hv]; [now rewrite Hrun|].
    pose proof (validate_with_path _ _ _ _ path cfg Hv) as Hv'.
    set (cfg' := Config (cfg_sentence cfg) (cfg_word cfg) (cfg_layers cfg)
                        (cfg_batch_size cfg) (Some path)) in Hv'.
    pose proof (run_OK_items model pad input_ids_tensor masks_tensor _ _ _ _ _
                  cfg w items Hv Hrun) as Hitems.
    assert (Hsame : traverse (fun k => batch_items model pad input_ids_tensor
                                masks_tensor cfg' (k * cfg_batch_size cfg')
                                (nth_batch (List.length input_ids_tensor)
                                           (cfg_batch_size cfg') k))
                             (seq 0 (batch_count (List.length input_ids_tensor)
                                                 (cfg_batch_size cfg')))
                    = traverse (fun k => batch_items model pad input_ids_tensor
                                  masks_tensor cfg (k * cfg_batch_size cfg)
                                  (nth_batch (List.length input_ids_tensor)
                                             (cfg_batch_size cfg) k))
                               (seq 0 (batch_count (List.length input_ids_tensor)
                                                   (cfg_batch_size cfg)))).
    { cbn [cfg' cfg_batch_size]. apply traverse_ext_in. intros k _.
      now apply batch_items_same_pooling. }
    destruct (traverse (fun k => batch_items model pad input_ids_tensor
                          masks_tensor cfg (k * cfg_batch_size cfg)
                          (nth_batch (List.length input_ids_tensor)
                                     (cfg_batch_size cfg) k))
                       (seq 0 (batch_count (List.length input_ids_tensor)
                                           (cfg_batch_size cfg))))
      as [parts|e'] eqn:Hparts; cbn [rbind] in Hitems; [|discriminate].
    inversion Hitems as [Hcat]. split.
    + pose proof (forward_and_pool_spec model pad input_ids_tensor masks_tensor
                    _ _ _ _ _ cfg' w Hv') as Hspec. cbv zeta in Hspec.
      destruct Hspec as [Hfst _]. rewrite Hfst, Hsame. cbn [rbind cfg' cfg_path].
      now rewrite Hcat, Hsave.
    + rewrite (pooled_run_calls model pad input_ids_tensor masks_tensor _ _ _ _ _
                 cfg' w Hv') by (now rewrite Hsame).
      rewrite (pooled_run_calls model pad input_ids_tensor masks_tensor _ _ _ _ _
                 cfg w Hv) by (now rewrite Hparts).
      reflexivity.
Qed.

Lemma vectors_saved_only_on_success_witness :
  let refusing := MkWorld 0 [] (fun _ _ => Some RuntimeError) in
  fst (forward_and_pool constant_model 2 [[0; 20; 1; 2; 2; 2; 2; 2]]
                        [[1; 1; 1; 0; 0; 0; 0; 0]]
                        (PyStr "average") (PyStr "average") (PyInt 11) (PyInt 2)
                        (PyStr "/no/such/dir/") refusing)
  = Raise RuntimeError.
Proof.
  cbv zeta.
  refine (proj1 (proj2 (proj2 (proj2 (vectors_saved_only_on_success constant_model 2
            [[0; 20; 1; 2; 2; 2; 2; 2]] [[1; 1; 1; 0; 0; 0; 0; 0]]
            (PyStr "average") (PyStr "average") (PyInt 11) (PyInt 2)
            (PyStr "/no/such/dir/") (MkWorld 0 [] (fun _ _ => Some RuntimeError)))))
            (repeat (Tensor0 (Fin (3 # 1))) HIDDEN) "/no/such/dir/"%string
            RuntimeError eq_refl _ eq_refl)).
  vm_compute. reflexivity.
Defined.

(** X9.  When [layers] is a list and the run returns, the result has exactly
    one entry per document, in the order of the documents: entry [i] is the
    vector pooled for document [i] from the hidden states of the batch that
    holds it (the batch of index [i / batch_size]), read at the offset of
    [i] in that batch. *)
Theorem list_path_one_vector_per_document
    (model : list (list Z) -> list (list Z) -> result hidden_states) (pad : Z)
    (input_ids_tensor masks_tensor : list (list Z))
    (sentence_pooling_method word_pooling_method path_to_save : pyval)
    (layers : list pyval) (z : Z) (w : world) (items : list pyobj)
    (Hrun : fst (forward_and_pool model pad input_ids_tensor masks_tensor
                                  sentence_pooling_method word_pooling_method
                                  (PyList layers) (PyInt z) path_to_save w)
            = OK items) :
  List.length items = List.length input_ids_tensor /\
  exists cfg ls,
    validate sentence_pooling_method word_pooling_method (PyList layers) (PyInt z)
             path_to_save = OK cfg /\
    check_layer_list layers = OK ls /\
    forall i v, nth_error items i = Some v ->
      pooled_in_batch_list model pad input_ids_tensor masks_tensor cfg ls
                           (Z.to_nat z) i v.
Proof.
  destruct (run_OK_validated model pad input_ids_tensor masks_tensor
              sentence_pooling_method word_pooling_method (PyList layers) (PyInt z)
              path_to_save w) as [cfg Hv]; [now rewrite Hrun|].
  pose proof (validate_config _ _ _ _ _ cfg Hv) as [_ [_ [Hl [Hb _]]]].
  apply check_batch_size_int in Hb. destruct Hb as [Hn _].
  cbn [check_layers] in Hl. destruct (check_layer_list layers) as [ls|e] eqn:Hls;
    [|discriminate]. cbn [rbind] in Hl. inversion Hl as [Hcfg]. symmetry in Hcfg.
  pose proof (list_path_documents model pad input_ids_tensor masks_tensor _ _ _ _ _
                cfg ls w items Hv Hcfg Hrun) as HF. rewrite Hn in HF.
  pose proof (Forall2_length HF) as Hlen. rewrite length_seq in Hlen.
  split; [now symmetry|]. exists cfg, ls. split; [exact Hv|]. split; [reflexivity|].
  intros i v Hi.
  assert (Hlt : (i < List.length input_ids_tensor)%nat).
  { rewrite Hlen. apply nth_error_Some. congruence. }
  exact (Forall2_nth_error_both _ _ _ HF i i v (nth_error_seq0 _ _ Hlt) Hi).
Qed.

Lemma list_path_one_vector_per_document_witness :
  List.length [Tensor1 (repeat (Fin (6 # 2)) HIDDEN)] = List.length [long_row].
Proof.
  apply (list_path_one_vector_per_document (constant_model_256 (Fin 3)) 2 [long_row]
           [seq_mask 2 long_row] (PyStr "average") (PyStr "average") PyNone
           [PyInt 11] 2 initial_world [Tensor1 (repeat (Fin (6 # 2)) HIDDEN)]).
  vm_compute. reflexivity.
Defined.

(** On the path of an int with average, the result is made of the
    coordinates of one vector per document. *)
Lemma int_path_average_vectors
    (model : list (list Z) -> list (list Z) -> result hidden_states) (pad : Z)
    (input_ids_tensor masks_tensor : list (list Z))
    (word_pooling_method path_to_save : pyval) (layer z : Z) (w : world)
    (items : list pyobj) (c : nat) :
  uniform_width model c ->
  fst (forward_and_pool model pad input_ids_tensor masks_tensor
                        (PyStr "average") word_pooling_method
                        (PyInt layer) (PyInt z) path_to_save w)
  = OK items ->
  exists vectors,
    List.length vectors = List.length input_ids_tensor /\
    Forall (fun v => List.length v = c) vectors /\
    items = List.concat (map (map Tensor0) vectors).
Proof.
  intros Hwidth Hrun.
  destruct (run_OK_validated model pad input_ids_tensor masks_tensor
              (PyStr "average") word_pooling_method (PyInt layer) (PyInt z)
              path_to_save w) as [cfg Hv]; [now rewrite Hrun|].
  pose proof (validate_config _ _ _ _ _ cfg Hv) as [Hs [_ [Hl _]]].
  inversion Hs as [Hsent]. symmetry in Hsent.
  cbn [check_layers] in Hl.
  destruct (orb (12 <? layer) (layer <? 1)); [discriminate|].
  inversion Hl as [Hcfg]. symmetry in Hcfg.
  destruct (scalar_path_documents model pad input_ids_tensor masks_tensor _ _ _ _ _
              cfg (Z.to_nat layer) w items Hv Hcfg Hrun) as [parts [-> HF]].
  pose proof (Forall2_length HF) as Hlen. rewrite length_seq in Hlen.
  destruct (Forall2_exists_map _ (map Tensor0) (fun v => List.length v = c) _ _ HF)
    as [vectors [-> Hvec]].
  - intros i part [ids_b [masks_b [enc [wv [pooled [_ [_ [Henc [Hwv [Hp Hiter]]]]]]]]]].
    destruct (scalar_path_appends_coordinates pad input_ids_tensor wv cfg _ i pooled
                Hsent Hp) as [doc [v [Hdoc [-> [Hcols Hiter']]]]].
    rewrite Hiter' in Hiter. inversion Hiter; subst part.
    exists v. split; [reflexivity|]. rewrite Hcols.
    apply (Hwidth ids_b masks_b enc wv doc Henc).
    + apply py_index_OK in Hwv. eapply nth_error_In. exact Hwv.
    + apply py_index_OK in Hdoc. eapply nth_error_In. exact Hdoc.
  - rewrite length_map in Hlen. exists vectors. repeat split; [now symmetry|exact Hvec].
Qed.

Lemma length_flattened (c : nat) (vectors : list (list fl)) :
  Forall (fun v => List.length v = c) vectors ->
  List.length (List.concat (map (map Tensor0) vectors)) = (List.length vectors * c)%nat.
Proof.
  intros Hvec. rewrite (length_concat_uniform c).
  - now rewrite length_map.
  - apply Forall_forall. intros part Hpart. apply in_map_iff in Hpart.
    destruct Hpart as [v [<- Hin]]. rewrite length_map.
    rewrite Forall_forall in Hvec. now apply Hvec.
Qed.

Lemma Forall2_refine {A B C : Type} (R : A -> B -> Prop) (g : C -> B)
    (R' : A -> C -> Prop) (l : list A) (parts : list B) :
  Forall2 R l parts ->
  (forall x y, R x y -> exists c, y = g c /\ R' x c) ->
  exists cs, parts = map g cs /\ Forall2 R' l cs.
Proof.
  intros HF Hstep. induction HF as [|x y l parts Hxy _ IH].
  - exists []. split; [reflexivity|constructor].
  - destruct IH as [cs [-> HR]]. destruct (Hstep x y Hxy) as [c [-> Hc]].
    exists (c :: cs). split; [reflexivity|now constructor].
Qed.

Lemma Forall2_Forall_r {A B : Type} (R : A -> B -> Prop) (P : B -> Prop)
    (l : list A) (l' : list B) :
  Forall2 R l l' -> (forall x y, R x y -> P y) -> Forall P l'.
Proof.
  intros HF Himp. induction HF as [|x y l l' Hxy _ IH]; constructor;
    [now apply (Himp x)|exact IH].
Qed.

Lemma nth_error_concat_uniform {A : Type} (c : nat) (ls : list (list A)) :
  Forall (fun l => List.length l = c) ls ->
  forall i j l, nth_error ls i = Some l -> (j < c)%nat ->
    nth_error (List.concat ls) (i * c + j) = nth_error l j.
Proof.
  induction 1 as [|l0 ls Hl0 _ IH]; intros i j l Hi Hj.
  - destruct i; discriminate.
  - cbn [List.concat]. destruct i as [|i].
    + cbn [nth_error] in Hi. inversion Hi; subst l0. cbn [Nat.mul Nat.add].
      apply nth_error_app1. lia.
    + cbn [nth_error] in Hi. rewrite nth_error_app2 by (rewrite Hl0; lia).
      rewrite Hl0. replace (S i * c + j - c)%nat with (i * c + j)%nat by lia.
      now apply IH.
Qed.

(** What a document appends on the path of an int [layers]: the entries of
    what sentence pooling returns on its span. *)
Lemma appended_is_pooled_span model pad ids masks (cfg : config) (layer n i : nat)
    (part : list pyobj) :
  appended_in_batch_scalar model pad ids masks cfg layer n i part ->
  exists m pooled,
    span_in_batch_scalar model pad ids masks layer n i m /\
    sentence_pooling (Words m) (cfg_sentence cfg) = OK pooled /\
    py_iter pooled = OK part.
Proof.
  intros [ids_b [masks_b [enc [wv [pooled [Hids [Hmasks [Henc [Hwv [Hp Hiter]]]]]]]]]].
  unfold pool_document_scalar in Hp.
  apply rbind_OK in Hp. destruct Hp as [row [Hrow Hp]].
  apply rbind_OK in Hp. destruct Hp as [eos [Heos Hp]].
  apply rbind_OK in Hp. destruct Hp as [doc [Hdoc Hp]].
  exists (Mat (cols doc) (span_rows eos (rows doc))), pooled.
  split; [|split; [exact Hp|exact Hiter]].
  now exists ids_b, masks_b, enc, wv, row, eos, doc.
Qed.

Lemma span_width model pad ids masks (layer n i c : nat) (m : matrix) :
  uniform_width model c ->
  span_in_batch_scalar model pad ids masks layer n i m -> cols m = c.
Proof.
  intros Hwidth [ids_b [masks_b [enc [wv [row [eos [doc H]]]]]]].
  destruct H as [_ [_ [Henc [Hwv [_ [_ [Hdoc ->]]]]]]]. cbn [cols].
  apply (Hwidth ids_b masks_b enc wv doc Henc).
  - apply py_index_OK in Hwv. eapply nth_error_In. exact Hwv.
  - apply py_index_OK in Hdoc. eapply nth_error_In. exact Hdoc.
Qed.

Lemma sentence_pooling_average (m : matrix) (pooled : pyobj) :
  sentence_pooling (Words m) "average" = OK pooled ->
  exists v, pooled = Tensor1 v /\ List.length v = cols m.
Proof.
  unfold sentence_pooling. cbn [lower lower_ascii]. simpl String.eqb.
  intros H. inversion H. eexists. split; [reflexivity|].
  unfold mean_rows. now rewrite length_map, length_seq.
Qed.

Lemma sentence_pooling_max (m : matrix) (pooled : pyobj) :
  sentence_pooling (Words m) "max" = OK pooled ->
  exists values indices, pooled = MaxResult values indices.
Proof.
  unfold sentence_pooling. cbn [lower lower_ascii]. simpl String.eqb.
  intros H. apply rbind_OK in H. destruct H as [vi [_ H]]. inversion H.
  now exists (fst vi), (snd vi).
Qed.

(** X10.  When [layers] is an int, the sentence method is average and every
    tensor the encoder returns has width [c], a run that returns gives
    N x c entries for N documents.  They are the coordinates, as 0-d
    tensors and document after document, of the vectors that sentence
    pooling returns on the spans of the documents: entry [i * c + j] is
    coordinate [j] of the vector of document [i]. *)
Theorem int_path_average_returns_coordinates
    (model : list (list Z) -> list (list Z) -> result hidden_states) (pad : Z)
    (input_ids_tensor masks_tensor : list (list Z))
    (word_pooling_method path_to_save : pyval) (layer z : Z) (w : world)
    (items : list pyobj) (c : nat)
    (Hwidth : uniform_width model c)
    (Hrun : fst (forward_and_pool model pad input_ids_tensor masks_tensor
                                  (PyStr "average") word_pooling_method
                                  (PyInt layer) (PyInt z) path_to_save w)
            = OK items) :
  List.length items = (List.length input_ids_tensor * c)%nat /\
  exists vectors,
    Forall2 (fun i v =>
               List.length v = c /\
               exists m,
                 span_in_batch_scalar model pad input_ids_tensor masks_tensor
                                      (Z.to_nat layer) (Z.to_nat z) i m /\
                 sentence_pooling (Words m) "average" = OK (Tensor1 v))
            (seq 0 (List.length input_ids_tensor)) vectors /\
    items = List.concat (map (map Tensor0) vectors) /\
    forall i j v, nth_error vectors i = Some v -> (j < c)%nat ->
      nth_error items (i * c + j) = Some (Tensor0 (nth j v NaN)).
Proof.
  destruct (run_OK_validated model pad input_ids_tensor masks_tensor
              (PyStr "average") word_pooling_method (PyInt layer) (PyInt z)
              path_to_save w) as [cfg Hv]; [now rewrite Hrun|].
  pose proof (validate_config _ _ _ _ _ cfg Hv) as [Hs [_ [Hl [Hb _]]]].
  inversion Hs as [Hsent]. symmetry in Hsent.
  apply check_batch_size_int in Hb. destruct Hb as [Hn _].
  cbn [check_layers] in Hl.
  destruct (orb (12 <? layer) (layer <? 1)); [discriminate|].
  inversion Hl as [Hcfg]. symmetry in Hcfg.
  destruct (scalar_path_documents model pad input_ids_tensor masks_tensor _ _ _ _ _
              cfg (Z.to_nat layer) w items Hv Hcfg Hrun) as [parts [-> HF]].
  rewrite Hn in HF.
  destruct (Forall2_refine _ (map Tensor0)
              (fun i v =>
                 List.length v = c /\
                 exists m,
                   span_in_batch_scalar model pad input_ids_tensor masks_tensor
                                        (Z.to_nat layer) (Z.to_nat z) i m /\
                   sentence_pooling (Words m) "average" = OK (Tensor1 v))
              _ _ HF) as [vectors [-> Hvectors]].
  { intros i part Hpart.
    destruct (appended_is_pooled_span _ _ _ _ _ _ _ _ _ Hpart)
      as [m [pooled [Hspan [Hpool Hiter]]]].
    rewrite Hsent in Hpool.
    destruct (sentence_pooling_average m pooled Hpool) as [v [-> Hlen]].
    cbn [py_iter] in Hiter. inversion Hiter; subst part.
    exists v. split; [reflexivity|]. split.
    - rewrite Hlen. exact (span_width _ _ _ _ _ _ _ _ _ Hwidth Hspan).
    - now exists m. }
  pose proof (Forall2_length Hvectors) as Hlen. rewrite length_seq in Hlen.
  assert (Hwide : Forall (fun v => List.length v = c) vectors).
  { apply (Forall2_Forall_r _ _ _ _ Hvectors). now intros i v [Hv' _]. }
  split; [now rewrite (length_flattened c vectors Hwide), Hlen|].
  exists vectors. split; [exact Hvectors|]. split; [reflexivity|].
  intros i j v Hi Hj.
  rewrite (nth_error_concat_uniform c _) with (l := map Tensor0 v).
  - rewrite nth_error_map.
    rewrite (nth_error_nth' v NaN) by (rewrite Forall_forall in Hwide;
      rewrite (Hwide v (nth_error_In _ _ Hi)); exact Hj).
    reflexivity.
  - apply Forall_forall. intros part Hin. apply in_map_iff in Hin.
    destruct Hin as [v' [<- Hv']]. rewrite length_map.
    rewrite Forall_forall in Hwide. now apply Hwide.
  - now rewrite nth_error_map, Hi.
  - exact Hj.
Qed.

(** X11.  When [layers] is an int and the sentence method is max, a run
    that returns gives two entries per document, in document order: entry
    [2 i] is the tensor of the values and entry [2 i + 1] the tensor of the
    indices that sentence pooling with max returns on the span of document
    [i], that is the maxima of the coordinates and their positions. *)
Theorem int_path_max_returns_values_and_indices
    (model : list (list Z) -> list (list Z) -> result hidden_states) (pad : Z)
    (input_ids_tensor masks_tensor : list (list Z))
    (word_pooling_method path_to_save : pyval) (layer z : Z) (w : world)
    (items : list pyobj)
    (Hrun : fst (forward_and_pool model pad input_ids_tensor masks_tensor
                                  (PyStr "max") word_pooling_method
                                  (PyInt layer) (PyInt z) path_to_save w)
            = OK items) :
  List.length items = (List.length input_ids_tensor * 2)%nat /\
  exists pairs : list (list fl * list nat),
    Forall2 (fun i vi =>
               exists m,
                 span_in_batch_scalar model pad input_ids_tensor masks_tensor
                                      (Z.to_nat layer) (Z.to_nat z) i m /\
                 sentence_pooling (Words m) "max" = OK (MaxResult (fst vi) (snd vi)) /\
                 fst vi = map (fun j => column_maximum (column j (rows m)))
                              (seq 0 (cols m)) /\
                 List.length (snd vi) = cols m)
            (seq 0 (List.length input_ids_tensor)) pairs /\
    items = List.concat (map (fun vi => [Tensor1 (fst vi); ITensor1 (snd vi)]) pairs) /\
    forall i vi, nth_error pairs i = Some vi ->
      nth_error items (i * 2) = Some (Tensor1 (fst vi)) /\
      nth_error items (i * 2 + 1) = Some (ITensor1 (snd vi)).
Proof.
  destruct (run_OK_validated model pad input_ids_tensor masks_tensor
              (PyStr "max") word_pooling_method (PyInt layer) (PyInt z)
              path_to_save w) as [cfg Hv]; [now rewrite Hrun|].
  pose proof (validate_config _ _ _ _ _ cfg Hv) as [Hs [_ [Hl [Hb _]]]].
  inversion Hs as [Hsent]. symmetry in Hsent.
  apply check_batch_size_int in Hb. destruct Hb as [Hn _].
  cbn [check_layers] in Hl.
  destruct (orb (12 <? layer) (layer <? 1)); [discriminate|].
  inversion Hl as [Hcfg]. symmetry in Hcfg.
  destruct (scalar_path_documents model pad input_ids_tensor masks_tensor _ _ _ _ _
              cfg (Z.to_nat layer) w items Hv Hcfg Hrun) as [parts [-> HF]].
  rewrite Hn in HF.
  destruct (Forall2_refine _ (fun vi : list fl * list nat =>
                                [Tensor1 (fst vi); ITensor1 (snd vi)])
              (fun i vi =>
                 exists m,
                   span_in_batch_scalar model pad input_ids_tensor masks_tensor
                                        (Z.to_nat layer) (Z.to_nat z) i m /\
                   sentence_pooling (Words m) "max"
                   = OK (MaxResult (fst vi) (snd vi)) /\
                   fst vi = map (fun j => column_maximum (column j (rows m)))
                                (seq 0 (cols m)) /\
                   List.length (snd vi) = cols m)
              _ _ HF) as [pairs [-> Hpairs]].
  { intros i part Hpart.
    destruct (appended_is_pooled_span _ _ _ _ _ _ _ _ _ Hpart)
      as [m [pooled [Hspan [Hpool Hiter]]]].
    rewrite Hsent in Hpool.
    destruct (sentence_pooling_max m pooled Hpool) as [values [indices ->]].
    cbn [py_iter] in Hiter. inversion Hiter; subst part.
    exists (values, indices). split; [reflexivity|].
    exists m. cbn [fst snd]. split; [exact Hspan|]. split; [exact Hpool|].
    assert (Hne : rows m <> []).
    { intros Hnil. unfold sentence_pooling in Hpool.
      cbn [lower lower_ascii] in Hpool. simpl String.eqb in Hpool.
      unfold max_rows in Hpool. rewrite Hnil in Hpool. discriminate. }
    destruct (sentence_pooling_max_values m Hne) as [indices' [Heq Hlen]].
    rewrite Heq in Hpool. inversion Hpool. split; [reflexivity|].
    subst indices. exact Hlen. }
  pose proof (Forall2_length Hpairs) as Hlen. rewrite length_seq in Hlen.
  assert (Htwo : Forall (fun part : list pyobj => List.length part = 2%nat)
                        (map (fun vi : list fl * list nat =>
                                [Tensor1 (fst vi); ITensor1 (snd vi)]) pairs)).
  { apply Forall_forall. intros part Hin. apply in_map_iff in Hin.
    destruct Hin as [vi [<- _]]. reflexivity. }
  split; [now rewrite (length_concat_uniform 2 _ Htwo), length_map, Hlen|].
  exists pairs. split; [exact Hpairs|]. split; [reflexivity|].
  intros i vi Hi.
  assert (Hpart : nth_error (map (fun vi : list fl * list nat =>
                                    [Tensor1 (fst vi); ITensor1 (snd vi)]) pairs) i
                  = Some [Tensor1 (fst vi); ITensor1 (snd vi)])
    by (now rewrite nth_error_map, Hi).
  split.
  - replace (i * 2)%nat with (i * 2 + 0)%nat by lia.
    now rewrite (nth_error_concat_uniform 2 _ Htwo i 0 _ Hpart) by lia.
  - now rewrite (nth_error_concat_uniform 2 _ Htwo i 1 _ Hpart) by lia.
Qed.

Lemma uniform_width_constant_model : uniform_width constant_model HIDDEN.
Proof.
  intros ids_b masks_b enc layer doc Henc Hlayer Hdoc.
  assert (Heq : enc = constant_states 8 (List.length ids_b) (Fin 3))
    by (unfold constant_model in Henc; congruence).
  subst enc. unfold constant_states in Hlayer.
  apply repeat_spec in Hlayer. subst layer.
  apply repeat_spec in Hdoc. subst doc. reflexivity.
Qed.

Lemma int_path_average_returns_coordinates_witness :
  List.length (repeat (Tensor0 (Fin (3 # 1))) HIDDEN)
  = (List.length [[0; 20; 1; 2; 2; 2; 2; 2]] * HIDDEN)%nat.
Proof.
  apply (int_path_average_returns_coordinates constant_model 2
           [[0; 20; 1; 2; 2; 2; 2; 2]] [[1; 1; 1; 0; 0; 0; 0; 0]]
           (PyStr "average") PyNone 11 2 initial_world
           (repeat (Tensor0 (Fin (3 # 1))) HIDDEN) HIDDEN
           uniform_width_constant_model).
  vm_compute. reflexivity.
Defined.

Lemma int_path_max_returns_values_and_indices_witness :
  List.length [Tensor1 (repeat (Fin 3) HIDDEN); ITensor1 (repeat 0%nat HIDDEN)]
  = (List.length [[0; 20; 1; 2; 2; 2; 2; 2]] * 2)%nat.
Proof.
  apply (int_path_max_returns_values_and_indices constant_model 2
           [[0; 20; 1; 2; 2; 2; 2; 2]] [[1; 1; 1; 0; 0; 0; 0; 0]]
           (PyStr "average") PyNone 11 2 initial_world
           [Tensor1 (repeat (Fin 3) HIDDEN); ITensor1 (repeat 0%nat HIDDEN)]).
  vm_compute. reflexivity.
Defined.

(** ** Batches do not change the result *)

Lemma pool_concat_ext (enc enc' : hidden_states) (j j' : nat) :
  forall layers pooled,
    (forall layer, In layer layers -> layer_doc enc layer j = layer_doc enc' layer j') ->
    pool_concat enc layers j pooled = pool_concat enc' layers j' pooled.
Proof.
  induction layers as [|layer rest IH]; intros pooled Hsame; [reflexivity|].
  cbn [pool_concat]. rewrite (Hsame layer (or_introl eq_refl)).
  destruct (layer_doc enc' layer j') as [x|e]; cbn [rbind]; [|reflexivity].
  destruct (cat1 pooled x) as [pooled'|e]; cbn [rbind]; [|reflexivity].
  apply IH. intros l Hl. apply Hsame. now right.
Qed.

Lemma pool_accumulate_ext (f : fl -> fl -> fl) (enc enc' : hidden_states) (j j' : nat) :
  forall layers pooled,
    (forall layer, In layer layers -> layer_doc enc layer j = layer_doc enc' layer j') ->
    pool_accumulate f enc layers j pooled = pool_accumulate f enc' layers j' pooled.
Proof.
  induction layers as [|layer rest IH]; intros pooled Hsame; [reflexivity|].
  cbn [pool_accumulate]. rewrite (Hsame layer (or_introl eq_refl)).
  destruct (layer_doc enc' layer j') as [x|e]; cbn [rbind]; [|reflexivity].
  destruct (elementwise f pooled x) as [pooled'|e]; cbn [rbind]; [|reflexivity].
  apply IH. intros l Hl. apply Hsame. now right.
Qed.

(** Word pooling reads the hidden states of its document only. *)
Lemma word_pooling_ext (enc enc' : hidden_states) (layers : list nat) (j j' : nat)
    (method : string) :
  (forall layer, In layer layers -> layer_doc enc layer j = layer_doc enc' layer j') ->
  word_pooling enc layers j method = word_pooling enc' layers j' method.
Proof.
  intros Hsame. unfold word_pooling.
  rewrite (pool_concat_ext enc enc' j j' layers EmptyTensor Hsame).
  rewrite (pool_accumulate_ext fl_add enc enc' j j' layers _ Hsame).
  rewrite (pool_accumulate_ext fl_max enc enc' j j' layers _ Hsame).
  reflexivity.
Qed.

Lemma select_seq {A : Type} (t : list A) :
  forall len a, (a + len <= List.length t)%nat ->
                select t (seq a len) = OK (firstn len (skipn a t)).
Proof.
  induction len as [|len IH]; intros a Hlen; [reflexivity|].
  cbn [seq select]. unfold py_index.
  destruct (nth_error t a) as [x|] eqn:Hx.
  - cbn [rbind]. rewrite IH by lia. cbn [rbind].
    rewrite <- (firstn_skipn a t) in Hx at 1.
    rewrite nth_error_app2 in Hx by (rewrite length_firstn; lia).
    rewrite length_firstn in Hx. replace (a - Nat.min a (List.length t))%nat with 0%nat in Hx by lia.
    destruct (skipn a t) as [|y rest] eqn:Hskip; [discriminate|].
    cbn [nth_error] in Hx. inversion Hx; subst y.
    replace (skipn (S a) t) with rest; [reflexivity|].
    replace (S a) with (1 + a)%nat by lia. rewrite <- skipn_skipn, Hskip. reflexivity.
  - apply nth_error_None in Hx. lia.
Qed.

Lemma nth_error_window {A : Type} (t : list A) (a len j : nat) :
  (j < len)%nat -> nth_error (firstn len (skipn a t)) j = nth_error t (a + j).
Proof.
  intros Hj. rewrite nth_error_firstn.
  destruct (Nat.ltb_spec j len); [|lia]. apply nth_error_skipn.
Qed.

Lemma check_layer_list_range (l : list pyval) (ls : list nat) :
  check_layer_list l = OK ls -> Forall (fun x => (1 <= x <= 12)%nat) ls.
Proof.
  revert ls. induction l as [|x l IH]; intros ls H.
  - inversion H. constructor.
  - cbn [check_layer_list] in H. destruct x; try discriminate.
    destruct (Z.ltb_spec 12 z); [discriminate|].
    destruct (Z.ltb_spec z 1); [discriminate|]. cbn [orb] in H.
    apply rbind_OK in H. destruct H as [ls' [Hls H]]. inversion H; subst.
    constructor; [lia|now apply IH].
Qed.

Lemma layer_doc_alone (doc_states : list Z -> list Z -> nat -> matrix)
    (row mask : list Z) (layer : nat) :
  (layer < 13)%nat ->
  layer_doc (document_states doc_states row mask) layer 0
  = OK (doc_states row mask layer).
Proof.
  intros Hl. unfold layer_doc, document_states, py_index.
  rewrite nth_error_map, (nth_error_seq0 13 layer Hl). reflexivity.
Qed.

Lemma traverse_singletons {A B : Type} (f : A -> result B) (l : list A) :
  traverse f l
  = (parts <- traverse (fun x => (v <- f x ;; OK [v])%py) l ;; OK (List.concat parts))%py.
Proof.
  induction l as [|x l IH]; [reflexivity|].
  cbn [traverse]. destruct (f x) as [v|e]; cbn [rbind]; [|reflexivity].
  rewrite IH. clear IH.
  destruct (traverse (fun x0 => (v0 <- f x0 ;; OK [v0])%py) l) as [parts|e];
    reflexivity.
Qed.

Lemma traverse_concat_parts {A B C : Type} (f : A -> result (list B)) (g : C -> list A)
    (ks : list C) :
  (bparts <- traverse (fun k => (d <- traverse f (g k) ;; OK (List.concat d))%py) ks ;;
   OK (List.concat bparts))%py
  = (d <- traverse f (List.concat (map g ks)) ;; OK (List.concat d))%py.
Proof.
  induction ks as [|k ks IH]; [reflexivity|].
  cbn [traverse map List.concat]. rewrite traverse_app.
  destruct (traverse f (g k)) as [d|e]; cbn [rbind]; [|reflexivity].
  destruct (traverse (fun k0 => (d0 <- traverse f (g k0) ;; OK (List.concat d0))%py) ks)
    as [bparts|e1];
    destruct (traverse f (List.concat (map g ks))) as [d'|e2];
    cbn [rbind List.concat] in IH |- *; try discriminate.
  - inversion IH as [Hcat]. now rewrite concat_app, Hcat.
  - exact IH.
Qed.

Lemma nth_batch_window (N n k : nat) :
  (0 < n)%nat -> (k < batch_count N n)%nat ->
  let a := (k * n)%nat in
  let len := (Nat.min (k * n + n) N - k * n)%nat in
  nth_batch N n k = seq a len /\ (a + len <= N)%nat /\ (0 < len)%nat.
Proof.
  intros Hn Hk. cbv zeta. pose proof (batch_count_covers N n Hn) as [_ Hhigh].
  split; [reflexivity|]. nia.
Qed.

Lemma window_length {A : Type} (t : list A) (a len : nat) :
  (a + len <= List.length t)%nat -> List.length (firstn len (skipn a t)) = len.
Proof. intros H. rewrite length_firstn, length_skipn. lia. Qed.

(** Under a batch-independent encoder a batch contributes what its documents
    contribute one by one. *)
Lemma batch_items_alone model pad ids masks doc_states (cfg : config) (n k : nat) :
  batch_independent model doc_states ->
  List.length masks = List.length ids ->
  match cfg_layers cfg with
  | inl L => (1 <= L <= 12)%nat
  | inr ls => Forall (fun x => (1 <= x <= 12)%nat) ls
  end ->
  (0 < n)%nat -> (k < batch_count (List.length ids) n)%nat ->
  batch_items model pad ids masks cfg (k * n) (nth_batch (List.length ids) n k)
  = (parts <- traverse (document_alone pad ids masks doc_states (cfg_sentence cfg)
                                       (cfg_word cfg) (cfg_layers cfg))
                       (nth_batch (List.length ids) n k) ;;
     OK (List.concat parts))%py.
Proof.
  intros Hmodel Hmasks Hrange Hn Hk.
  destruct (nth_batch_window (List.length ids) n k Hn Hk) as [Hb [Hfit Hpos]].
  rewrite Hb.
  set (len := (Nat.min (k * n + n) (List.length ids) - k * n)%nat) in *.
  set (a := (k * n)%nat) in *.
  unfold batch_items.
  rewrite (select_seq ids len a Hfit), (select_seq masks len a) by lia.
  cbn [rbind].
  destruct (Hmodel (firstn len (skipn a ids)) (firstn len (skipn a masks)))
    as [enc [Henc Hstates]].
  { rewrite !window_length by lia. reflexivity. }
  rewrite Henc. cbn [rbind].
  assert (Hdoc : forall idx, In idx (seq a len) ->
            exists row mask,
              py_index ids idx = OK row /\ py_index masks idx = OK mask /\
              forall layer, (1 <= layer <= 12)%nat ->
                layer_doc enc layer (idx - a) = OK (doc_states row mask layer)).
  { intros idx Hidx. apply in_seq in Hidx.
    destruct (nth_error ids idx) as [row|] eqn:Hrow;
      [|apply nth_error_None in Hrow; lia].
    destruct (nth_error masks idx) as [mask|] eqn:Hmask;
      [|apply nth_error_None in Hmask; lia].
    exists row, mask. unfold py_index. rewrite Hrow, Hmask.
    split; [reflexivity|]. split; [reflexivity|].
    intros layer Hlayer. apply Hstates; [exact Hlayer| |].
    - rewrite nth_error_window by lia. now replace (a + (idx - a))%nat with idx by lia.
    - rewrite nth_error_window by lia. now replace (a + (idx - a))%nat with idx by lia. }
  destruct (cfg_layers cfg) as [L|ls] eqn:Hlayers.
  - (* an int *)
    assert (Hwv : exists wv, py_index enc L = OK wv).
    { destruct (Hdoc a) as [row [mask [_ [_ Hst]]]]; [apply in_seq; lia|].
      specialize (Hst L Hrange). unfold layer_doc in Hst.
      destruct (py_index enc L) as [wv|e]; [now exists wv|discriminate]. }
    destruct Hwv as [wv Hwv]. rewrite Hwv. cbn [rbind].
    f_equal. apply traverse_ext_in. intros idx Hidx.
    destruct (Hdoc idx Hidx) as [row [mask [Hrow [Hmask Hst]]]].
    specialize (Hst L Hrange).
    unfold document_alone. rewrite Hrow, Hmask. cbn [rbind].
    pose proof (layer_doc_alone doc_states row mask L ltac:(lia)) as Halone.
    unfold layer_doc in Halone, Hst. rewrite Hwv in Hst. cbn [rbind] in Hst.
    destruct (py_index (document_states doc_states row mask) L) as [wv1|e];
      [|discriminate]. cbn [rbind] in Halone |- *.
    unfold document_items_scalar, pool_document_scalar.
    cbn [cfg_sentence]. rewrite Hrow. cbn [rbind].
    destruct (eos_pos pad row) as [eos|e]; cbn [rbind]; [|reflexivity].
    rewrite Hst, Nat.sub_diag, Halone. reflexivity.
  - (* a list *)
    rewrite traverse_singletons. f_equal. apply traverse_ext_in. intros idx Hidx.
    destruct (Hdoc idx Hidx) as [row [mask [Hrow [Hmask Hst]]]].
    unfold document_alone. rewrite Hrow, Hmask. cbn [rbind].
    f_equal. unfold pool_document_list. cbn [cfg_word cfg_sentence].
    rewrite Hrow. cbn [rbind].
    destruct (eos_pos pad row) as [eos|e]; cbn [rbind]; [|reflexivity].
    rewrite (word_pooling_ext enc (document_states doc_states row mask) ls
               (idx - a) (idx - idx)); [reflexivity|].
    intros layer Hin. rewrite Forall_forall in Hrange. specialize (Hrange layer Hin).
    rewrite Hst by exact Hrange. rewrite Nat.sub_diag.
    symmetry. apply layer_doc_alone. lia.
Qed.

(** Under a batch-independent encoder the batches pool what the documents
    contribute one by one, in order. *)
Lemma batches_document_by_document model pad ids masks doc_states
    (s wm ls bs p : pyval) (cfg : config) :
  batch_independent model doc_states ->
  List.length masks = List.length ids ->
  validate s wm ls bs p = OK cfg ->
  (parts <- traverse (fun k => batch_items model pad ids masks cfg
                                           (k * cfg_batch_size cfg)
                                           (nth_batch (List.length ids)
                                                      (cfg_batch_size cfg) k))
                     (seq 0 (batch_count (List.length ids) (cfg_batch_size cfg))) ;;
   OK (List.concat parts))%py
  = (parts <- traverse (document_alone pad ids masks doc_states (cfg_sentence cfg)
                                       (cfg_word cfg) (cfg_layers cfg))
                       (seq 0 (List.length ids)) ;;
     OK (List.concat parts))%py.
Proof.
  intros Hmodel Hmasks Hv.
  pose proof (validate_config _ _ _ _ _ cfg Hv) as [_ [_ [Hl [Hb _]]]].
  assert (Hn : (0 < cfg_batch_size cfg)%nat).
  { unfold check_batch_size in Hb. destruct bs; try discriminate.
    destruct (Z.leb_spec z 0) as [|Hpos]; [discriminate|]. inversion Hb. lia. }
  assert (Hrange : match cfg_layers cfg with
                   | inl L => (1 <= L <= 12)%nat
                   | inr ls' => Forall (fun x => (1 <= x <= 12)%nat) ls'
                   end).
  { unfold check_layers in Hl. destruct ls; try discriminate.
    - destruct (Z.ltb_spec 12 z); [discriminate|].
      destruct (Z.ltb_spec z 1); [discriminate|]. cbn [orb] in Hl.
      inversion Hl. lia.
    - apply rbind_OK in Hl. destruct Hl as [ls' [Hls Hl]]. inversion Hl.
      now apply check_layer_list_range in Hls. }
  rewrite <- (batches_cover (List.length ids) (cfg_batch_size cfg) Hn).
  rewrite <- traverse_concat_parts. f_equal.
  apply traverse_ext_in. intros k Hk. apply in_seq in Hk.
  apply batch_items_alone; try assumption. lia.
Qed.

(** A run under a batch-independent encoder: the documents one by one, then
    the save. *)
Lemma run_document_by_document model pad ids masks doc_states
    (s wm ls bs p : pyval) (cfg : config) (w : world) :
  batch_independent model doc_states ->
  List.length masks = List.length ids ->
  validate s wm ls bs p = OK cfg ->
  fst (forward_and_pool model pad ids masks s wm ls bs p w)
  = (items <- (parts <- traverse (document_alone pad ids masks doc_states
                                                 (cfg_sentence cfg) (cfg_word cfg)
                                                 (cfg_layers cfg))
                                 (seq 0 (List.length ids)) ;;
               OK (List.concat parts)) ;;
     match cfg_path cfg with
     | Some path =>
         match save_error w (path ++ "text_vectors") items with
         | Some e => Raise e
         | None => OK items
         end
     | None => OK items
     end)%py.
Proof.
  intros Hmodel Hmasks Hv.
  destruct (forward_and_pool_spec model pad ids masks s wm ls bs p cfg w Hv)
    as [Hfst _]. cbv zeta in Hfst. rewrite Hfst.
  rewrite <- (batches_document_by_document model pad ids masks doc_states
                s wm ls bs p cfg Hmodel Hmasks Hv).
  destruct (traverse _ _); reflexivity.
Qed.

Lemma validate_other_batch_size (s wm ls p : pyval) (z1 z2 : Z) :
  0 < z1 -> 0 < z2 ->
  match validate s wm ls (PyInt z1) p, validate s wm ls (PyInt z2) p with
  | OK cfg1, OK cfg2 =>
      cfg_sentence cfg1 = cfg_sentence cfg2 /\ cfg_word cfg1 = cfg_word cfg2 /\
      cfg_layers cfg1 = cfg_layers cfg2 /\ cfg_path cfg1 = cfg_path cfg2
  | Raise e1, Raise e2 => e1 = e2
  | _, _ => False
  end.
Proof.
  intros H1 H2. unfold validate, check_batch_size.
  destruct (Z.leb_spec z1 0); [lia|]. destruct (Z.leb_spec z2 0); [lia|].
  destruct (check_choice s _); cbn [rbind]; [|reflexivity].
  destruct (check_choice wm _); cbn [rbind]; [|reflexivity].
  destruct (check_path p); cbn [rbind]; [|reflexivity].
  destruct (check_layers ls); cbn [rbind]; [|reflexivity].
  repeat split.
Qed.

(** X12.  With an encoder that gives a document the same hidden states
    whatever the other documents of its batch, with as many mask rows as
    id rows, and in worlds that treat alike a save under [path_to_save], the
    outcome of [forward_and_pool] (the list returned or the exception
    raised) is the same for every positive batch size. *)
Theorem batch_size_does_not_change_result
    (model : list (list Z) -> list (list Z) -> result hidden_states) (pad : Z)
    (input_ids_tensor masks_tensor : list (list Z))
    (doc_states : list Z -> list Z -> nat -> matrix)
    (sentence_pooling_method word_pooling_method layers path_to_save : pyval)
    (z1 z2 : Z) (w1 w2 : world)
    (Hmodel : batch_independent model doc_states)
    (Hmasks : List.length masks_tensor = List.length input_ids_tensor)
    (Hz1 : 0 < z1) (Hz2 : 0 < z2)
    (Hstore : forall path items,
        path_to_save = PyStr path ->
        save_error w1 (path ++ "text_vectors") items
        = save_error w2 (path ++ "text_vectors") items) :
  fst (forward_and_pool model pad input_ids_tensor masks_tensor
                        sentence_pooling_method word_pooling_method layers
                        (PyInt z1) path_to_save w1)
  = fst (forward_and_pool model pad input_ids_tensor masks_tensor
                          sentence_pooling_method word_pooling_method layers
                          (PyInt z2) path_to_save w2).
Proof.
  pose proof (validate_other_batch_size sentence_pooling_method word_pooling_method
                layers path_to_save z1 z2 Hz1 Hz2) as Hsame.
  destruct (validate sentence_pooling_method word_pooling_method layers (PyInt z1)
                     path_to_save) as [cfg1|e1] eqn:Hv1;
    destruct (validate sentence_pooling_method word_pooling_method layers (PyInt z2)
                       path_to_save) as [cfg2|e2] eqn:Hv2; try contradiction.
  - destruct Hsame as [Hs [Hw [Hl Hp]]].
    rewrite (run_document_by_document model pad input_ids_tensor masks_tensor
               doc_states _ _ _ _ _ cfg1 w1 Hmodel Hmasks Hv1).
    rewrite (run_document_by_document model pad input_ids_tensor masks_tensor
               doc_states _ _ _ _ _ cfg2 w2 Hmodel Hmasks Hv2).
    rewrite Hs, Hw, Hl, Hp.
    destruct (rbind (traverse _ _) _) as [items|e]; cbn [rbind]; [|reflexivity].
    destruct (cfg_path cfg2) as [path|] eqn:Hpath; [|reflexivity].
    rewrite (Hstore path items); [reflexivity|].
    apply validate_config in Hv2. destruct Hv2 as [_ [_ [_ [_ Hcheck]]]].
    rewrite Hpath in Hcheck. unfold check_path in Hcheck.
    destruct path_to_save; try discriminate. now inversion Hcheck.
  - subst e2. unfold forward_and_pool, bind, lift. now rewrite Hv1, Hv2.
Qed.

Lemma batch_independent_embedding_model :
  batch_independent embedding_model embedding_states.
Proof.
  intros ids_b masks_b _. eexists. split; [reflexivity|].
  intros layer j row mask Hlayer Hrow _.
  unfold layer_doc, py_index. rewrite nth_error_repeat by lia. cbn [rbind].
  rewrite nth_error_map, Hrow. reflexivity.
Qed.

Lemma batch_size_does_not_change_result_witness :
  fst (forward_and_pool embedding_model 2
         [[0; 20; 130; 1; 2; 2]; [0; 20; 436; 2810; 1; 2]; [0; 2338; 1; 2; 2; 2]]
         [[1; 1; 1; 1; 0; 0]; [1; 1; 1; 1; 1; 0]; [1; 1; 1; 0; 0; 0]]
         (PyStr "max") (PyStr "average") (PyInt 11) (PyInt 1) PyNone initial_world)
  = fst (forward_and_pool embedding_model 2
         [[0; 20; 130; 1; 2; 2]; [0; 20; 436; 2810; 1; 2]; [0; 2338; 1; 2; 2; 2]]
         [[1; 1; 1; 1; 0; 0]; [1; 1; 1; 1; 1; 0]; [1; 1; 1; 0; 0; 0]]
         (PyStr "max") (PyStr "average") (PyInt 11) (PyInt 2) PyNone initial_world).
Proof.
  apply (batch_size_does_not_change_result embedding_model 2 _ _ embedding_states
           (PyStr "max") (PyStr "average") (PyInt 11) PyNone 1 2
           initial_world initial_world batch_independent_embedding_model);
    [reflexivity|lia|lia|reflexivity].
Defined.

(** ** Word pooling: [concat] and [average] *)

Lemma cat1_rows (acc d : matrix) (n ca c : nat) :
  well_shaped n ca acc -> well_shaped n c d ->
  exists m, cat1 (Words acc) d = OK (Words m) /\
            well_shaped n (ca + c) m /\
            forall p, (p < n)%nat ->
                      nth p (rows m) [] = nth p (rows acc) [] ++ nth p (rows d) [].
Proof.
  intros [Hca [Hra Hrowsa]] [Hcd [Hrd Hrowsd]]. unfold cat1.
  rewrite Hra, Hrd, Nat.eqb_refl. eexists. split; [reflexivity|]. split.
  - unfold well_shaped. cbn [cols rows]. split; [congruence|]. split.
    + rewrite zip_with_length. lia.
    + apply Forall_forall. intros row Hrow. apply zip_with_In in Hrow.
      destruct Hrow as [x [y [Hx [Hy ->]]]]. rewrite length_app.
      rewrite Forall_forall in Hrowsa, Hrowsd.
      now rewrite (Hrowsa x Hx), (Hrowsd y Hy).
  - intros p Hp. cbn [rows]. apply zip_with_nth; lia.
Qed.

Lemma pool_concat_rows (enc : hidden_states) (idx n c : nat) :
  forall layers acc ca,
    well_shaped n ca acc ->
    layers_shaped enc layers idx n c = true ->
    exists m, pool_concat enc layers idx (Words acc) = OK (Words m) /\
              well_shaped n (ca + List.length layers * c) m /\
              forall p, (p < n)%nat ->
                nth p (rows m) []
                = nth p (rows acc) []
                  ++ List.concat (map (fun layer => layer_row enc layer idx p) layers).
Proof.
  induction layers as [|layer rest IH]; intros acc ca Hacc Hdocs.
  - exists acc. split; [reflexivity|]. split.
    + cbn [List.length Nat.mul]. now rewrite Nat.add_0_r.
    + intros p _. cbn [map List.concat]. now rewrite app_nil_r.
  - apply layers_shaped_cons in Hdocs. destruct Hdocs as [[d [Hd Hshape]] Hrest].
    cbn [pool_concat]. rewrite Hd. cbn [rbind].
    destruct (cat1_rows acc d n ca c Hacc Hshape) as [m1 [Hm1 [Hs1 Hrows1]]].
    rewrite Hm1. cbn [rbind].
    destruct (IH m1 (ca + c)%nat Hs1 Hrest) as [m [Hm [Hs Hrows]]].
    exists m. split; [exact Hm|]. split.
    + cbn [List.length]. replace (ca + S (List.length rest) * c)%nat
        with (ca + c + List.length rest * c)%nat by lia. exact Hs.
    + intros p Hp. rewrite (Hrows p Hp), (Hrows1 p Hp). cbn [map List.concat].
      unfold layer_row at 2. rewrite Hd. now rewrite <- app_assoc.
Qed.

(** X13.  Word pooling with concat accepts any number [n] of positions: over
    a non-empty layer list whose documents have shape [(n, c)] the result
    has [n] rows of width [len(layers) * c], and row [p] is the
    concatenation, in the order of the list, of row [p] of the selected
    layers.  Over the empty list it returns the empty 1-D tensor. *)
Theorem word_pooling_concat_layout (enc : hidden_states) (layers : list nat)
    (idx n c : nat)
    (Hdocs : layers_shaped enc layers idx n c = true) :
  (layers = [] -> word_pooling enc layers idx "concat" = OK EmptyTensor) /\
  (layers <> [] ->
   exists m,
     word_pooling enc layers idx "concat" = OK (Words m) /\
     well_shaped n (List.length layers * c) m /\
     forall p, (p < n)%nat ->
       nth p (rows m) []
       = List.concat (map (fun layer => layer_row enc layer idx p) layers)).
Proof.
  split.
  - intros ->. reflexivity.
  - intros Hne. destruct layers as [|layer rest]; [congruence|].
    apply layers_shaped_cons in Hdocs. destruct Hdocs as [[d [Hd Hshape]] Hrest].
    destruct (pool_concat_rows enc idx n c rest d c Hshape Hrest)
      as [m [Hm [Hs Hrows]]].
    exists m. split; [|split].
    + dispatch_word_pooling. cbn [pool_concat]. rewrite Hd. cbn [rbind cat1].
      rewrite Hm. reflexivity.
    + cbn [List.length]. replace (S (List.length rest) * c)%nat
        with (c + List.length rest * c)%nat by lia. exact Hs.
    + intros p Hp. rewrite (Hrows p Hp). cbn [map List.concat].
      unfold layer_row at 2. now rewrite Hd.
Qed.

Lemma word_pooling_concat_layout_witness :
  exists m,
    word_pooling (constant_states 8 1 (Fin 3)) [11%nat; 12%nat] 0 "concat" = OK (Words m) /\
    well_shaped 8 (2 * HIDDEN) m.
Proof.
  destruct (proj2 (word_pooling_concat_layout (constant_states 8 1 (Fin 3))
                     [11%nat; 12%nat] 0 8 HIDDEN ltac:(vm_compute; reflexivity))
                  ltac:(discriminate)) as [m [Hm [Hs _]]].
  exists m. split; [exact Hm|exact Hs].
Defined.

Lemma divide_by_entry (k : nat) (m : matrix) (p j : nat) :
  entry (divide_by k m) p j = fl_div_count (entry m p j) k.
Proof.
  unfold entry, divide_by. cbn [rows].
  pose proof (map_nth (map (fun x => fl_div_count x k)) (rows m) [] p) as Hrow.
  cbn [map] in Hrow. rewrite Hrow.
  pose proof (map_nth (fun x => fl_div_count x k) (nth p (rows m) []) NaN j) as Hcol.
  cbv beta in Hcol.
  assert (Hnan : fl_div_count NaN k = NaN) by (destruct k; reflexivity).
  rewrite Hnan in Hcol. exact Hcol.
Qed.

(** X14.  Over a layer list whose documents have a shape the placeholder
    accepts, word pooling with average gives at every position and
    coordinate the sum of the selected layers' values divided by the number
    of layers. *)
Theorem word_pooling_average_is_mean (enc : hidden_states) (layers : list nat)
    (idx n : nat)
    (Hn : n = PLACEHOLDER_ROWS \/ n = 1%nat)
    (Hdocs : layers_shaped enc layers idx n HIDDEN = true) :
  exists m,
    word_pooling enc layers idx "average" = OK (Words m) /\
    well_shaped PLACEHOLDER_ROWS HIDDEN m /\
    forall p j, (p < PLACEHOLDER_ROWS)%nat -> (j < HIDDEN)%nat ->
      entry m p j
      = fl_div_count (fl_sum (map (fun layer => layer_entry enc layer idx p j) layers))
                     (List.length layers).
Proof.
  destruct (pool_accumulate_entries fl_add enc idx n Hn layers (placeholder (Fin 0))
              (placeholder_shape _) Hdocs) as [m [Hm [Hs Hentries]]].
  exists (divide_by (List.length layers) m). split; [|split].
  - dispatch_word_pooling. rewrite Hm. reflexivity.
  - now apply divide_by_shape.
  - intros p j Hp Hj. rewrite divide_by_entry, (Hentries p j Hp Hj).
    rewrite placeholder_entry by assumption. reflexivity.
Qed.

Lemma word_pooling_average_is_mean_witness :
  exists m,
    word_pooling (constant_states 256 1 (Fin 3)) [11%nat; 12%nat] 0 "average"
    = OK (Words m) /\
    entry m 0 0 = Fin (6 # 2).
Proof.
  destruct (word_pooling_average_is_mean (constant_states 256 1 (Fin 3))
              [11%nat; 12%nat] 0 256 (or_introl eq_refl)
              ltac:(vm_compute; reflexivity)) as [m [Hm [_ Hentries]]].
  exists m. split; [exact Hm|].
  rewrite (Hentries 0%nat 0%nat) by (unfold PLACEHOLDER_ROWS, HIDDEN; lia).
  vm_compute. reflexivity.
Defined.

(** ** Documents without a word *)

Lemma map_const_repeat {A B : Type} (b : B) (l : list A) :
  map (fun _ => b) l = repeat b (List.length l).
Proof. induction l as [|x l IH]; [reflexivity|]. cbn [map List.length repeat]. now rewrite IH. Qed.

Lemma span_rows_short {A : Type} (eos : Z) (rs : list A) :
  1 <= eos <= 2 -> py_slice_from1 (py_slice_to (eos - 1) rs) = [].
Proof.
  intros Heos. unfold py_slice_from1, py_slice_to.
  destruct (Z.ltb_spec (eos - 1) 0); [lia|].
  assert (Hcases : eos = 1 \/ eos = 2) by lia.
  destruct Hcases as [-> | ->]; cbn [Z.sub Z.to_nat].
  - reflexivity.
  - destruct rs as [|r rs]; reflexivity.
Qed.

Lemma mean_rows_empty (c : nat) : mean_rows (Mat c []) = repeat NaN c.
Proof.
  unfold mean_rows. cbn [cols rows List.length column map fl_sum fold_left fl_div_count].
  rewrite map_const_repeat. now rewrite length_seq.
Qed.

(** X15.  A document with no word between its markers (a padded row whose
    body has one or two ids, as the empty text gives) has an empty span: on
    the path of an int [layers], average returns a vector of NaN of the
    width of the hidden states and max raises. *)
Theorem document_without_word_pools_nothing
    (pad : Z) (input_ids_tensor : list (list Z)) (words_vector : list matrix)
    (cfg : config) (counter idx : nat) (body : list Z) (k : nat) (doc : matrix)
    (Hrow : py_index input_ids_tensor idx = OK (body ++ repeat pad k))
    (Hpad : pad <> EOS_ID) (Hbody : ~ In pad body) (Hk : (0 < k)%nat)
    (Hshort : (1 <= List.length body <= 2)%nat)
    (Hdoc : py_index words_vector (idx - counter) = OK doc) :
  (cfg_sentence cfg = "average"%string ->
   pool_document_scalar pad input_ids_tensor words_vector cfg counter idx
   = OK (Tensor1 (repeat NaN (cols doc)))) /\
  (cfg_sentence cfg = "max"%string ->
   pool_document_scalar pad input_ids_tensor words_vector cfg counter idx
   = Raise LibraryError).
Proof.
  assert (Heos : eos_pos pad (body ++ repeat pad k) = OK (Z.of_nat (List.length body))).
  { apply (eos_pos_search pad _ pad).
    - now apply py_last_padded.
    - exact Hpad.
    - destruct k as [|k]; [lia|]. cbn [repeat]. now apply first_occurrence_after. }
  unfold pool_document_scalar. rewrite Hrow. cbn [rbind]. rewrite Heos. cbn [rbind].
  rewrite Hdoc. cbn [rbind span words_slice]. unfold span_rows.
  rewrite span_rows_short by lia.
  split; intros ->; unfold sentence_pooling; cbn [lower lower_ascii];
    simpl String.eqb.
  - now rewrite mean_rows_empty.
  - reflexivity.
Qed.

Lemma document_without_word_pools_nothing_witness :
  pool_document_scalar 2 [[0; 1; 2; 2]] [Mat 3 [[Fin 1; Fin 1; Fin 1]; [Fin 2; Fin 2; Fin 2];
                                               [Fin 3; Fin 3; Fin 3]; [Fin 4; Fin 4; Fin 4]]]
                       (Config "average" "average" (inl 11%nat) 2 None) 0 0
  = OK (Tensor1 (repeat NaN 3)).
Proof.
  apply (proj1 (document_without_word_pools_nothing 2 [[0; 1; 2; 2]]
                  [Mat 3 [[Fin 1; Fin 1; Fin 1]; [Fin 2; Fin 2; Fin 2];
                          [Fin 3; Fin 3; Fin 3]; [Fin 4; Fin 4; Fin 4]]]
                  (Config "average" "average" (inl 11%nat) 2 None) 0 0 [0; 1] 2
                  (Mat 3 [[Fin 1; Fin 1; Fin 1]; [Fin 2; Fin 2; Fin 2];
                          [Fin 3; Fin 3; Fin 3]; [Fin 4; Fin 4; Fin 4]])
                  eq_refl ltac:(discriminate) ltac:(simpl; lia) ltac:(lia)
                  ltac:(simpl; lia) eq_refl)).
  reflexivity.
Defined.

(** ** Rows and masks of [tokenize] *)

Lemma rectangular_lengths (t : list (list Z)) :
  rectangular t = true ->
  forall r r', In r t -> In r' t -> List.length r = List.length r'.
Proof.
  unfold rectangular. destruct t as [|r0 rest]; [intros _ r r' []|].
  intros Hall. rewrite forallb_forall in Hall.
  assert (Hhead : forall r, In r (r0 :: rest) -> List.length r = List.length r0).
  { intros r [<-|Hin]; [reflexivity|]. apply Nat.eqb_eq. now apply Hall. }
  intros r r' Hr Hr'. now rewrite (Hhead r Hr), (Hhead r' Hr').
Qed.

(** X16.  When [tokenize] returns, there are as many token lists, id rows and
    mask rows as documents; row [i] is what the tokenizer encodes document
    [i] to, its mask has 1 where the id is not the pad id and 0 elsewhere,
    and all the id rows have one length. *)
Theorem tokenize_rows_and_masks
    (pad : Z) (tokenizer_tokenize : string -> list string)
    (tokenizer_encode : string -> Z -> result (list Z)) (numpy : numpy_release)
    (data : list string) (MAX_LEN : Z)
    (tokenized_texts : list (list string)) (input_ids masks : list (list Z))
    (Hrun : tokenize pad tokenizer_tokenize tokenizer_encode numpy data MAX_LEN
            = OK (tokenized_texts, input_ids, masks)) :
  List.length tokenized_texts = List.length data /\
  List.length input_ids = List.length data /\
  List.length masks = List.length data /\
  (forall i text, nth_error data i = Some text ->
     exists row,
       tokenizer_encode text MAX_LEN = OK row /\
       nth_error input_ids i = Some row /\
       nth_error masks i = Some (map (fun id => if id =? pad then 0 else 1) row)) /\
  (forall r r', In r input_ids -> In r' input_ids -> List.length r = List.length r').
Proof.
  apply tokenize_OK in Hrun. destruct Hrun as [-> [Hids [-> [Hrect _]]]].
  apply encode_all_Forall2 in Hids.
  pose proof (Forall2_length Hids) as Hlen.
  rewrite !length_map. repeat split; try (now symmetry); try reflexivity.
  - intros i text Htext.
    destruct (nth_error input_ids i) as [row|] eqn:Hrow.
    + exists row. split; [|split; [reflexivity|]].
      * exact (Forall2_nth_error_both _ _ _ Hids i text row Htext Hrow).
      * unfold seq_mask. now rewrite nth_error_map, Hrow.
    + apply nth_error_None in Hrow.
      assert (i < List.length data)%nat by (apply nth_error_Some; congruence). lia.
  - now apply rectangular_lengths.
Qed.

Lemma tokenize_rows_and_masks_witness :
  List.length [[0; 20; 130; 1547; 1; 2; 2; 2];
               [0; 20; 436; 2810; 1023; 1; 2; 2];
               [0; 2338; 1; 2; 2; 2; 2; 2]]
  = List.length scenario_documents.
Proof.
  apply (proj1 (proj2 (tokenize_rows_and_masks 2 sample_tokenize sample_encode
                         RaggedAsObjects scenario_documents 8 _ _ _
                         scenario_tokenized))).
Defined.

(** ** The values and indices of sentence pooling with [max] *)

Lemma fl_le_refl (x : fl) : finite x -> fl_le x x.
Proof. intros [q ->]. simpl. apply Qle_refl. Qed.

Lemma fl_le_lt_trans (x y z : fl) : fl_le x y -> fl_lt y z -> fl_lt x z.
Proof.
  destruct x, y, z; simpl; try tauto. apply Qle_lt_trans.
Qed.

Lemma fl_lt_le (x y : fl) : fl_lt x y -> fl_le x y.
Proof. destruct x, y; simpl; try tauto. apply Qlt_le_weak. Qed.

Lemma fl_le_trans (x y z : fl) : fl_le x y -> fl_le y z -> fl_le x z.
Proof. destruct x, y, z; simpl; try tauto. apply Qle_trans. Qed.

(** The scan keeps the first position of the greatest entry met so far. *)
Lemma max_scan_first_maximum (xs : list fl) :
  forall pre best besti i,
    i = List.length pre ->
    Forall finite (pre ++ xs) ->
    nth besti pre NaN = best -> (besti < List.length pre)%nat ->
    (forall y, In y pre -> fl_le y best) ->
    (forall j, (j < besti)%nat -> fl_lt (nth j pre NaN) best) ->
    let r := max_scan best besti i xs in
    nth (snd r) (pre ++ xs) NaN = fst r /\
    (snd r < List.length (pre ++ xs))%nat /\
    (forall y, In y (pre ++ xs) -> fl_le y (fst r)) /\
    (forall j, (j < snd r)%nat -> fl_lt (nth j (pre ++ xs) NaN) (fst r)).
Proof.
  induction xs as [|x xs IH]; intros pre best besti i Hi Hfin Hbest Hlt Hle Hfirst.
  - cbv zeta. cbn [max_scan fst snd]. rewrite app_nil_r. repeat split; assumption.
  - cbv zeta. cbn [max_scan].
    assert (Hfx : finite x).
    { rewrite Forall_forall in Hfin. apply Hfin. apply in_or_app. right. now left. }
    assert (Hfb : finite best).
    { rewrite Forall_forall in Hfin. apply Hfin. apply in_or_app. left.
      rewrite <- Hbest. now apply nth_In. }
    replace (pre ++ x :: xs) with ((pre ++ [x]) ++ xs) in *
      by (now rewrite <- app_assoc).
    destruct Hfx as [q ->], Hfb as [b Hb]. rewrite Hb in *. cbn [fl_replaces].
    destruct (Qlt_le_dec b q) as [Hbq|Hqb].
    + apply (IH (pre ++ [Fin q]) (Fin q) i (S i)).
      * rewrite length_app. cbn [List.length]. lia.
      * exact Hfin.
      * subst i. rewrite app_nth2 by lia. now rewrite Nat.sub_diag.
      * rewrite length_app. cbn [List.length]. lia.
      * intros y Hy. apply in_app_or in Hy. destruct Hy as [Hy|[<-|[]]].
        -- apply fl_lt_le. apply (fl_le_lt_trans y (Fin b)); [now apply Hle|exact Hbq].
        -- simpl. apply Qle_refl.
      * intros j Hj. subst i. rewrite app_nth1 by exact Hj.
        apply (fl_le_lt_trans _ (Fin b)); [|exact Hbq].
        apply Hle. now apply nth_In.
    + apply (IH (pre ++ [Fin q]) (Fin b) besti (S i)).
      * rewrite length_app. cbn [List.length]. lia.
      * exact Hfin.
      * rewrite app_nth1 by exact Hlt. exact Hbest.
      * rewrite length_app. lia.
      * intros y Hy. apply in_app_or in Hy. destruct Hy as [Hy|[<-|[]]].
        -- now apply Hle.
        -- exact Hqb.
      * intros j Hj. rewrite app_nth1 by lia. now apply Hfirst.
Qed.

Lemma column_max_first_maximum (c : list fl) :
  c <> [] -> Forall finite c ->
  nth (snd (column_max c)) c NaN = fst (column_max c) /\
  (snd (column_max c) < List.length c)%nat /\
  (forall y, In y c -> fl_le y (fst (column_max c))) /\
  (forall j, (j < snd (column_max c))%nat -> fl_lt (nth j c NaN) (fst (column_max c))).
Proof.
  intros Hne Hfin. destruct c as [|x xs]; [congruence|].
  cbn [column_max].
  apply (max_scan_first_maximum xs [x] x 0 1); try reflexivity.
  - exact Hfin.
  - cbn [List.length]. lia.
  - intros y [<-|[]]. apply fl_le_refl. now inversion Hfin.
  - intros j Hj. lia.
Qed.

Lemma column_nth (j : nat) (rs : list (list fl)) (p : nat) :
  nth p (column j rs) NaN = nth j (nth p rs []) NaN.
Proof.
  unfold column.
  pose proof (map_nth (fun r => nth j r NaN) rs [] p) as H.
  cbn beta in H. destruct j; exact H.
Qed.

(** X17.  On a span whose entries are numbers, sentence pooling with max
    returns, for every coordinate, a position of the span and the entry
    found there; that entry is not exceeded by any entry of the coordinate
    and exceeds all those at earlier positions (the first maximum). *)
Theorem sentence_max_is_first_maximum (m : matrix) (r c : nat)
    (values : list fl) (indices : list nat)
    (Hshape : well_shaped r c m)
    (Hfinite : forall p j, (p < r)%nat -> (j < c)%nat -> finite (entry m p j))
    (Hrun : sentence_pooling (Words m) "max" = OK (MaxResult values indices)) :
  List.length values = c /\ List.length indices = c /\
  forall j, (j < c)%nat ->
    let i := nth j indices 0%nat in
    (i < r)%nat /\
    nth j values NaN = entry m i j /\
    (forall p, (p < r)%nat -> fl_le (entry m p j) (entry m i j)) /\
    (forall p, (p < i)%nat -> fl_lt (entry m p j) (entry m i j)).
Proof.
  destruct Hshape as [Hc [Hr Hrows]].
  unfold sentence_pooling in Hrun. cbn [lower lower_ascii] in Hrun.
  simpl String.eqb in Hrun. unfold max_rows in Hrun.
  destruct (rows m) as [|r0 rest] eqn:Hm; [discriminate|].
  cbn [rbind fst snd] in Hrun.
  assert (Hparts : values = map fst (map (fun j0 => column_max (column j0 (r0 :: rest)))
                                         (seq 0 (cols m))) /\
                   indices = map snd (map (fun j0 => column_max (column j0 (r0 :: rest)))
                                          (seq 0 (cols m))))
    by (split; congruence).
  destruct Hparts as [-> ->]. clear Hrun.
  rewrite !length_map, length_seq. split; [exact Hc|]. split; [exact Hc|].
  intros j Hj. cbv zeta.
  assert (Hcol : forall p, nth p (column j (r0 :: rest)) NaN = entry m p j).
  { intros p. rewrite column_nth. unfold entry. now rewrite Hm. }
  assert (Hlen : List.length (column j (r0 :: rest)) = r).
  { unfold column. now rewrite length_map. }
  assert (Hfin : Forall finite (column j (r0 :: rest))).
  { apply Forall_nth. intros p d Hp. rewrite (nth_indep _ d NaN) by exact Hp.
    rewrite Hcol. apply Hfinite; lia. }
  destruct (column_max_first_maximum (column j (r0 :: rest))) as [Hat [Hlt [Hle Hfirst]]];
    [discriminate|exact Hfin|].
  rewrite Hcol in Hat. rewrite Hlen in Hlt.
  assert (Hi : nth j (map snd (map (fun j0 => column_max (column j0 (r0 :: rest)))
                                   (seq 0 (cols m)))) 0%nat
               = snd (column_max (column j (r0 :: rest)))).
  { rewrite map_map.
    rewrite (nth_indep _ 0%nat (snd (column_max (column 0 (r0 :: rest)))))
      by (rewrite length_map, length_seq; lia).
    rewrite (map_nth (fun j0 => snd (column_max (column j0 (r0 :: rest))))).
    rewrite seq_nth by lia. reflexivity. }
  assert (Hv : nth j (map fst (map (fun j0 => column_max (column j0 (r0 :: rest)))
                                   (seq 0 (cols m)))) NaN
               = fst (column_max (column j (r0 :: rest)))).
  { rewrite map_map.
    rewrite (nth_indep _ NaN (fst (column_max (column 0 (r0 :: rest)))))
      by (rewrite length_map, length_seq; lia).
    rewrite (map_nth (fun j0 => fst (column_max (column j0 (r0 :: rest))))).
    rewrite seq_nth by lia. reflexivity. }
  rewrite Hi, Hv. split; [exact Hlt|]. split; [now symmetry|]. split.
  - intros p Hp. rewrite Hat. apply Hle. rewrite <- Hcol. apply nth_In. lia.
  - intros p Hp. rewrite Hat. rewrite <- Hcol. now apply Hfirst.
Qed.

Lemma sentence_max_is_first_maximum_witness :
  nth 0 [Fin 3; Fin 5] NaN = entry (Mat 2 [[Fin 1; Fin 5]; [Fin 3; Fin 2]; [Fin 3; Fin 5]])
                                   (nth 0 [1%nat; 0%nat] 0%nat) 0.
Proof.
  refine (proj1 (proj2 (proj2 (proj2 (sentence_max_is_first_maximum
            (Mat 2 [[Fin 1; Fin 5]; [Fin 3; Fin 2]; [Fin 3; Fin 5]]) 3 2
            [Fin 3; Fin 5] [1%nat; 0%nat] _ _ eq_refl)) 0%nat _))).
  - apply has_shape_spec. reflexivity.
  - intros p j Hp Hj.
    assert (Hcases : (p = 0 \/ p = 1 \/ p = 2)%nat /\ (j = 0 \/ j = 1)%nat) by lia.
    destruct Hcases as [[-> | [-> | ->]] [-> | ->]]; eexists; reflexivity.
  - lia.
Defined.

(** ** [vectorize]: tokenization, then the checks, then the batches *)

(** X19.  [vectorize] tokenizes before anything else: an exception of
    [tokenize] is returned as it is, with the world untouched, whatever the
    other arguments; otherwise [vectorize] is [forward_and_pool] on the ids
    and masks of [tokenize], and with a list for [layers] a run that returns
    gives exactly one entry per input document. *)
Theorem vectorize_tokenizes_first
    (model : list (list Z) -> list (list Z) -> result hidden_states) (pad : Z)
    (tokenizer_tokenize : string -> list string)
    (tokenizer_encode : string -> Z -> result (list Z)) (numpy : numpy_release)
    (data : list string) (MAX_LEN : Z)
    (sentence_pooling_method word_pooling_method layers batch_size path_to_save : pyval)
    (w : world) :
  let run := vectorize model pad tokenizer_tokenize tokenizer_encode numpy data MAX_LEN
                       sentence_pooling_method word_pooling_method layers batch_size
                       path_to_save w in
  (forall e,
      tokenize pad tokenizer_tokenize tokenizer_encode numpy data MAX_LEN = Raise e ->
      run = (Raise e, w)) /\
  (forall tokenized_texts input_ids masks,
      tokenize pad tokenizer_tokenize tokenizer_encode numpy data MAX_LEN
      = OK (tokenized_texts, input_ids, masks) ->
      run = forward_and_pool model pad input_ids masks sentence_pooling_method
                             word_pooling_method layers batch_size path_to_save w /\
      forall ls items,
        layers = PyList ls -> fst run = OK items ->
        List.length items = List.length data).
Proof.
  cbv zeta. unfold vectorize, bind, lift. split.
  - intros e ->. reflexivity.
  - intros toks ids masks Htok. rewrite Htok. split; [reflexivity|].
    intros ls items -> Hrun.
    assert (Hlen : List.length ids = List.length data).
    { apply tokenize_OK in Htok. destruct Htok as [_ [Hids _]].
      apply encode_all_Forall2 in Hids. symmetry. exact (Forall2_length Hids). }
    rewrite <- Hlen.
    destruct (run_OK_validated model pad ids masks sentence_pooling_method
                word_pooling_method (PyList ls) batch_size path_to_save w)
      as [cfg Hv]; [now rewrite Hrun|].
    pose proof (validate_config _ _ _ _ _ cfg Hv) as [_ [_ [Hl _]]].
    cbn [check_layers] in Hl. destruct (check_layer_list ls) as [ls'|e]; [|discriminate].
    cbn [rbind] in Hl. inversion Hl as [Hcfg]. symmetry in Hcfg.
    pose proof (list_path_documents model pad ids masks _ _ _ _ _ cfg ls' w items
                  Hv Hcfg Hrun) as HF.
    apply Forall2_length in HF. rewrite length_seq in HF. now symmetry.
Qed.

(** ** From [forward_and_pool] to [EmbeddingExplorer] *)

Lemma tolist_all_flattened (vectors : list (list fl)) :
  exists listed_vectors,
    tolist_all (List.concat (map (map Tensor0) vectors)) = Some listed_vectors.
Proof.
  induction vectors as [|v vectors [xs IH]]; [now exists []|].
  cbn [map List.concat].
  induction v as [|x v [ys IHv]]; cbn [map app].
  - now exists xs.
  - cbn [tolist_all tolist]. rewrite IHv. now eexists.
Qed.

Lemma pooled_list_max (pad : Z) (ids : list (list Z)) (enc : hidden_states)
    (cfg : config) (layers : list nat) (counter idx : nat) (pooled : pyobj) :
  cfg_sentence cfg = "max"%string ->
  pool_document_list pad ids enc cfg layers counter idx = OK pooled ->
  exists values indices, pooled = MaxResult values indices.
Proof.
  intros Hs. unfold pool_document_list. rewrite Hs. intros H.
  apply rbind_OK in H. destruct H as [row [_ H]].
  apply rbind_OK in H. destruct H as [eos [_ H]].
  apply rbind_OK in H. destruct H as [wv [_ H]].
  unfold sentence_pooling in H. cbn [lower lower_ascii] in H.
  simpl String.eqb in H. destruct (span eos wv) as [|m]; [discriminate|].
  apply rbind_OK in H. destruct H as [vi [_ H]]. inversion H; subst.
  now exists (fst vi), (snd vi).
Qed.

(** X20.  [EmbeddingExplorer] keeps one label per entry of the list it is
    given, and calls [tolist] on every entry.  Built from a run with an int
    for [layers] and the sentence pooling method average, it has N x c
    labels for N documents of hidden width [c]; built from a run over a
    non-empty input with a list for [layers] and the sentence pooling method
    max, whose entries are the pairs of [torch.max], its constructor fails.
    The word pooling method plays no part in either case. *)
Theorem explorer_after_forward_and_pool
    (model : list (list Z) -> list (list Z) -> result hidden_states) (pad : Z)
    (input_ids_tensor masks_tensor : list (list Z))
    (word_pooling_method path_to_save : pyval) (z : Z) (w : world)
    (data : list string) (items : list pyobj) :
  (forall layer c,
      uniform_width model c ->
      fst (forward_and_pool model pad input_ids_tensor masks_tensor
                            (PyStr "average") word_pooling_method
                            (PyInt layer) (PyInt z) path_to_save w) = OK items ->
      exists explorer,
        EmbeddingExplorer_init data items = Some explorer /\
        List.length (ex_labels explorer) = (List.length input_ids_tensor * c)%nat) /\
  (forall layers,
      input_ids_tensor <> [] ->
      fst (forward_and_pool model pad input_ids_tensor masks_tensor
                            (PyStr "max") word_pooling_method
                            (PyList layers) (PyInt z) path_to_save w) = OK items ->
      EmbeddingExplorer_init data items = None).
Proof.
  split.
  - intros layer c Hwidth Hrun.
    destruct (int_path_average_vectors model pad input_ids_tensor masks_tensor
                word_pooling_method path_to_save layer z w items c Hwidth Hrun)
      as [vectors [Hlen [Hvec Hitems]]].
    destruct (tolist_all_flattened vectors) as [xs Hxs].
    unfold EmbeddingExplorer_init. rewrite Hitems, Hxs. eexists. split; [reflexivity|].
    cbn [ex_labels]. rewrite length_map, (length_flattened c vectors Hvec).
    now rewrite Hlen.
  - intros layers Hne Hrun.
    destruct (run_OK_validated model pad input_ids_tensor masks_tensor
                (PyStr "max") word_pooling_method (PyList layers) (PyInt z)
                path_to_save w) as [cfg Hv]; [now rewrite Hrun|].
    pose proof (validate_config _ _ _ _ _ cfg Hv) as [Hs [_ [Hl _]]].
    inversion Hs as [Hsent]. symmetry in Hsent.
    cbn [check_layers] in Hl. destruct (check_layer_list layers) as [ls|e];
      [|discriminate]. cbn [rbind] in Hl. inversion Hl as [Hcfg]. symmetry in Hcfg.
    pose proof (list_path_documents model pad input_ids_tensor masks_tensor _ _ _ _ _
                  cfg ls w items Hv Hcfg Hrun) as HF.
    destruct input_ids_tensor as [|row0 rest]; [congruence|].
    cbn [List.length seq] in HF. inversion HF as [|i v l items' Hfirst _]; subst.
    destruct Hfirst as [ids_b [masks_b [enc [_ [_ [_ Hp]]]]]].
    destruct (pooled_list_max pad _ enc cfg ls _ _ v Hsent Hp) as [values [indices ->]].
    reflexivity.
Qed.

(** ** A layer list needs 256 positions *)

Lemma layers_shaped_intro (enc : hidden_states) (layers : list nat) (idx n c : nat) :
  (forall layer, In layer layers ->
     exists d, layer_doc enc layer idx = OK d /\ well_shaped n c d) ->
  layers_shaped enc layers idx n c = true.
Proof.
  intros H. unfold layers_shaped. apply forallb_forall. intros layer Hin.
  destruct (H layer Hin) as [d [-> Hd]]. now apply has_shape_spec.
Qed.

Lemma select_length {A : Type} (t : list A) (b : list nat) (xs : list A) :
  select t b = OK xs -> List.length xs = List.length b.
Proof.
  rewrite select_traverse. intros H. apply traverse_Forall2 in H.
  symmetry. exact (Forall2_length H).
Qed.

(** X21.  With a non-empty list for [layers] and the word method average or
    max, a run over a non-empty input never returns when the encoder gives
    hidden states of [n] positions, [n] being neither 256 nor 1: the
    256-row placeholder refuses them. *)
Theorem layer_list_needs_256_positions
    (model : list (list Z) -> list (list Z) -> result hidden_states) (pad : Z)
    (input_ids_tensor masks_tensor : list (list Z))
    (sentence_pooling_method path_to_save : pyval) (method : string)
    (layers : list pyval) (z : Z) (w : world) (n : nat)
    (Hmodel : encoder_shape model n HIDDEN)
    (Hn : n <> PLACEHOLDER_ROWS /\ n <> 1%nat)
    (Hmethod : method = "average"%string \/ method = "max"%string)
    (Hlayers : layers <> [])
    (Hinput : input_ids_tensor <> []) :
  is_OK (fst (forward_and_pool model pad input_ids_tensor masks_tensor
                               sentence_pooling_method (PyStr method)
                               (PyList layers) (PyInt z) path_to_save w)) = false.
Proof.
  destruct (fst (forward_and_pool model pad input_ids_tensor masks_tensor
                   sentence_pooling_method (PyStr method) (PyList layers) (PyInt z)
                   path_to_save w)) as [items|e] eqn:Hrun; [exfalso|reflexivity].
  destruct (run_OK_validated model pad input_ids_tensor masks_tensor
              sentence_pooling_method (PyStr method) (PyList layers) (PyInt z)
              path_to_save w) as [cfg Hv]; [now rewrite Hrun|].
  pose proof (validate_config _ _ _ _ _ cfg Hv) as [_ [Hw [Hl [Hb _]]]].
  inversion Hw as [Hword].
  apply check_batch_size_int in Hb. destruct Hb as [_ Hpos].
  cbn [check_layers] in Hl. destruct (check_layer_list layers) as [ls|e] eqn:Hls;
    [|discriminate]. cbn [rbind] in Hl. inversion Hl as [Hcfg]. symmetry in Hcfg.
  assert (Hls_ne : ls <> []).
  { destruct layers as [|x layers']; [congruence|].
    cbn [check_layer_list] in Hls. destruct x; try discriminate.
    destruct (orb (12 <? z0) (z0 <? 1)); [discriminate|].
    destruct (check_layer_list layers'); [|discriminate]. inversion Hls. discriminate. }
  pose proof (check_layer_list_range layers ls Hls) as Hrange.
  pose proof (list_path_documents model pad input_ids_tensor masks_tensor _ _ _ _ _
                cfg ls w items Hv Hcfg Hrun) as HF.
  destruct input_ids_tensor as [|row0 rest] eqn:Hids; [congruence|].
  cbn [List.length seq] in HF. inversion HF as [|i v l items' Hfirst _]; subst i l.
  destruct Hfirst as [ids_b [masks_b [enc [Hsel [_ [Henc Hp]]]]]].
  rewrite Nat.Div0.div_0_l in Hsel, Hp. cbn [Nat.mul] in Hp.
  apply select_length in Hsel.
  assert (Hfirst_batch : (0 < List.length ids_b)%nat).
  { rewrite Hsel. unfold nth_batch. rewrite length_seq. cbn [Nat.mul Nat.add List.length].
    lia. }
  assert (Hshaped : layers_shaped enc ls 0 n HIDDEN = true).
  { apply layers_shaped_intro. intros layer Hin. rewrite Forall_forall in Hrange.
    apply (Hmodel ids_b masks_b enc layer 0%nat Henc (Hrange layer Hin) Hfirst_batch). }
  unfold pool_document_list in Hp.
  apply rbind_OK in Hp. destruct Hp as [row [_ Hp]].
  apply rbind_OK in Hp. destruct Hp as [eos [_ Hp]].
  apply rbind_OK in Hp. destruct Hp as [wv [Hwv _]].
  cbn [Nat.sub] in Hwv. rewrite <- Hword in Hwv. destruct Hn as [Hn256 Hn1].
  destruct Hmethod as [-> | ->]; unfold word_pooling in Hwv;
    cbn [lower lower_ascii] in Hwv; simpl String.eqb in Hwv; cbn [rbind] in Hwv;
    rewrite (pool_accumulate_mismatch _ enc 0 n ls _ Hn256 Hn1 Hls_ne
               (placeholder_shape _) Hshaped) in Hwv;
    discriminate.
Qed.

Lemma layer_list_needs_256_positions_witness :
  is_OK (fst (forward_and_pool constant_model 2 [[0; 20; 1; 2; 2; 2; 2; 2]]
                               [[1; 1; 1; 0; 0; 0; 0; 0]]
                               (PyStr "average") (PyStr "max")
                               (PyList [PyInt 11; PyInt 12]) (PyInt 2) PyNone
                               initial_world)) = false.
Proof.
  apply (layer_list_needs_256_positions constant_model 2 [[0; 20; 1; 2; 2; 2; 2; 2]]
           [[1; 1; 1; 0; 0; 0; 0; 0]] (PyStr "average") PyNone "max"
           [PyInt 11; PyInt 12] 2 initial_world 8).
  - intros ids_b masks_b enc layer j Henc Hlayer Hj.
    assert (Heq : enc = constant_states 8 (List.length ids_b) (Fin 3))
      by (unfold constant_model in Henc; congruence).
    subst enc. eexists. split.
    + unfold layer_doc, constant_states, py_index.
      rewrite nth_error_repeat by lia. cbn [rbind].
      rewrite nth_error_repeat by exact Hj. reflexivity.
    + unfold well_shaped. cbn [cols rows]. split; [reflexivity|].
      split; [apply repeat_length|].
      apply Forall_forall. intros row Hrow. apply repeat_spec in Hrow. subst row.
      apply repeat_length.
  - unfold PLACEHOLDER_ROWS. lia.
  - now right.
  - discriminate.
  - discriminate.
Defined.
